(** * Voice-notes widget: speech-recognition hooks, PCM conversion, note sink

    A shallow embedding of the speech-recognition hooks of the repository
    (four variants of [useSpeechRecognition]), of the PCM conversion, the
    socket and the microphone of the streaming variant, of the note store
    [useNotes] and of the handlers and the effect of [App] that feed final
    segments into the current note, together with the properties the
    specification states about them and further properties of the code.

    Conventions.
    - A JavaScript string is the list of its UTF-16 code units, so [length]
      is the [.length] of the source and [trim] removes exactly the
      ECMAScript white space and line terminators.
    - A hook is a record of its React state variables and refs; a handler
      is a function from state to state.
    - [isListening] is a constant of each render.  A handler or a timer
      callback is a closure: it sees the [isListening] of the render that
      created it, not the value the state has when it runs.  That value is
      an explicit argument [listening] of the handlers that read it and is
      stored with every pending timer.  What the application calls from its
      latest render ([startListening], [stopListening]) and what an effect
      runs sees the current state.
    - Timers are data: [setTimeout] adds a pending timer to the state, the
      environment fires it later.
    - The auto-push callback is an arbitrary function of the caller; the
      state records whether one is registered and the list of the arguments
      it has been called with. *)

From Stdlib Require Import ZArith NArith List String Ascii Lia Bool QArith.
From stdpp Require Import base list.

Set Default Proof Using "Type".

(** ** JavaScript strings *)

Module JS.


(** A string is the list of its UTF-16 code units. *)
Abbreviation jsstring := (list N).

(** String literals of the source, as code units. *)
Definition js (s : string) : jsstring :=
  map N_of_ascii (list_ascii_of_string s).

(** [if (s)]: a string is truthy iff it is not empty. *)
Definition truthy (s : jsstring) : bool :=
  match s with [] => false | _ :: _ => true end.

(** ECMAScript WhiteSpace and LineTerminator code points, the characters
    [String.prototype.trim] strips and [\s] matches. *)
Definition isWhiteSpace (c : N) : bool :=
  ((c =? 0x9) || (c =? 0xA) || (c =? 0xB) || (c =? 0xC) || (c =? 0xD)
   || (c =? 0x20) || (c =? 0xA0) || (c =? 0x1680)
   || ((0x2000 <=? c) && (c <=? 0x200A))
   || (c =? 0x2028) || (c =? 0x2029) || (c =? 0x202F) || (c =? 0x205F)
   || (c =? 0x3000) || (c =? 0xFEFF))%N.

Fixpoint trimStart (s : jsstring) : jsstring :=
  match s with
  | [] => []
  | c :: r => if isWhiteSpace c then trimStart r else s
  end.

Fixpoint trimEnd (s : jsstring) : jsstring :=
  match s with
  | [] => []
  | c :: r =>
      match trimEnd r with
      | [] => if isWhiteSpace c then [] else [c]
      | r' => c :: r'
      end
  end.

Definition trim (s : jsstring) : jsstring := trimEnd (trimStart s).

(** The single space the hooks append after a segment. *)
Definition space : jsstring := js " ".

(** A text that [trim] leaves alone and that is not empty: it starts and
    ends with a character that is not white space. *)
Definition tight (s : jsstring) : Prop := trim s = s /\ s <> [].

End JS.

Import JS.

(** [a === b] on strings. *)
Fixpoint strEq (a b : jsstring) : bool :=
  match a, b with
  | [], [] => true
  | x :: a', y :: b' => (x =? y)%N && strEq a' b'
  | _, _ => false
  end.

(** [countWords false s] is [s.split(/\s+/).filter(Boolean).length]: the
    number of maximal runs of characters that are not white space. *)
Fixpoint countWords (inWord : bool) (s : jsstring) : nat :=
  match s with
  | [] => 0
  | c :: r =>
      if isWhiteSpace c then countWords false r
      else ((if inWord then 0 else 1) + countWords true r)%nat
  end.

(** [a < b] in the order of the default [Array.prototype.sort]: strings
    compared code unit by code unit. *)
Fixpoint strLt (a b : jsstring) : bool :=
  match a, b with
  | _, [] => false
  | [], _ :: _ => true
  | x :: a', y :: b' => (x <? y)%N || ((x =? y)%N && strLt a' b')
  end.

(** [xs.sort()] on strings.  The standard leaves the algorithm open; the
    result is the ascending arrangement of the elements, built here by
    insertion. *)
Fixpoint insertSorted (x : jsstring) (l : list jsstring) : list jsstring :=
  match l with
  | [] => [x]
  | y :: l' => if strLt x y then x :: l else y :: insertSorted x l'
  end.

Definition sortStrings (l : list jsstring) : list jsstring :=
  fold_right insertSorted [] l.

(** [[...new Set(xs)]]: the elements in the order of their first
    occurrence; [seen] holds the elements already in the set. *)
Fixpoint unique (seen : list jsstring) (xs : list jsstring) : list jsstring :=
  match xs with
  | [] => []
  | x :: xs' =>
      if existsb (strEq x) seen then unique seen xs'
      else x :: unique (x :: seen) xs'
  end.

(** Every element is below the next one. *)
Fixpoint ascending (l : list jsstring) : bool :=
  match l with
  | x :: ((y :: _) as l') => strLt x y && ascending l'
  | _ => true
  end.

(** [xs.join(' ')]. *)
Fixpoint joinSpace (xs : list jsstring) : jsstring :=
  match xs with
  | [] => []
  | [x] => x
  | x :: xs' => x ++ space ++ joinSpace xs'
  end.

(** ** Recognition events of the Web Speech API *)

Module Speech.

(** One entry of [event.results]: [result.isFinal], [result[0].transcript]
    and [result[0].confidence]. *)
Record Result := mkResult {
  isFinal : bool;
  transcriptPart : jsstring;
  resultConfidence : Q
}.

(** The argument of [recognition.onresult]. *)
Record Event := mkEvent {
  resultIndex : nat;
  results : list Result
}.

(** The results the handlers loop over:
    [for (let i = event.resultIndex; i < event.results.length; i++)]. *)
Definition processed (ev : Event) : list Result :=
  drop (resultIndex ev) (results ev).

(** The texts of the results marked final, in order, and the texts of the
    other results, concatenated. *)
Fixpoint finalsOf (rs : list Result) : list jsstring :=
  match rs with
  | [] => []
  | r :: rs' =>
      if isFinal r then transcriptPart r :: finalsOf rs' else finalsOf rs'
  end.

Fixpoint interimOf (rs : list Result) : jsstring :=
  match rs with
  | [] => []
  | r :: rs' =>
      if isFinal r then interimOf rs' else transcriptPart r ++ interimOf rs'
  end.

(** The final texts that an event delivers, and those of a sequence of
    events, in arrival order. *)
Definition finalTexts (ev : Event) : list jsstring := finalsOf (processed ev).

Definition allFinalTexts (evs : list Event) : list jsstring :=
  concat (map finalTexts evs).

(** An event that carries one partial result, one final result. *)
Definition Partial (text : jsstring) : Event :=
  mkEvent 0 [mkResult false text 0].

Definition Final (text : jsstring) : Event :=
  mkEvent 0 [mkResult true text (9 # 10)].

(** Every final text followed by the separator, concatenated. *)
Definition spaced (texts : list jsstring) : jsstring :=
  concat (map (fun t => t ++ space) texts).

End Speech.

Import Speech.

(** ** The basic hook: [src/hooks/useSpeechRecognition.js] *)

Module Basic.

(** Callbacks handed to [setTimeout], with the [isSupported] and
    [isListening] of the render that created them. *)
Inductive timer :=
| ErrorRestart (supported listening : bool)
    (* onerror, 1000 ms: if (isListening) startListening() *)
| EndRestart (listening : bool).
    (* onend, 100 ms: if (isListening) recognition.start() *)

Record State := mkState {
  isListening : bool;
  transcript : jsstring;
  interimTranscript : jsstring;
  latestFinalSegment : jsstring;
  error : option jsstring;
  isSupported : bool;
  confidence : Q;
  finalTranscriptRef : jsstring;
  timeouts : list (timer * Z);     (* pending setTimeout callbacks and delays *)
  startCalls : nat                 (* calls of recognition.start() so far *)
}.

Definition initial : State :=
  mkState false [] [] [] None true 0 [] [] 0.

Definition setIsListening v s :=
  mkState v (transcript s) (interimTranscript s) (latestFinalSegment s) (error s)
    (isSupported s) (confidence s) (finalTranscriptRef s) (timeouts s) (startCalls s).
Definition setTranscript v s :=
  mkState (isListening s) v (interimTranscript s) (latestFinalSegment s) (error s)
    (isSupported s) (confidence s) (finalTranscriptRef s) (timeouts s) (startCalls s).
Definition setInterimTranscript v s :=
  mkState (isListening s) (transcript s) v (latestFinalSegment s) (error s)
    (isSupported s) (confidence s) (finalTranscriptRef s) (timeouts s) (startCalls s).
Definition setLatestFinalSegment v s :=
  mkState (isListening s) (transcript s) (interimTranscript s) v (error s)
    (isSupported s) (confidence s) (finalTranscriptRef s) (timeouts s) (startCalls s).
Definition setError v s :=
  mkState (isListening s) (transcript s) (interimTranscript s) (latestFinalSegment s) v
    (isSupported s) (confidence s) (finalTranscriptRef s) (timeouts s) (startCalls s).
Definition setConfidence v s :=
  mkState (isListening s) (transcript s) (interimTranscript s) (latestFinalSegment s) (error s)
    (isSupported s) v (finalTranscriptRef s) (timeouts s) (startCalls s).
Definition setFinalTranscriptRef v s :=
  mkState (isListening s) (transcript s) (interimTranscript s) (latestFinalSegment s) (error s)
    (isSupported s) (confidence s) v (timeouts s) (startCalls s).
Definition setTimeouts v s :=
  mkState (isListening s) (transcript s) (interimTranscript s) (latestFinalSegment s) (error s)
    (isSupported s) (confidence s) (finalTranscriptRef s) v (startCalls s).
Definition setStartCalls v s :=
  mkState (isListening s) (transcript s) (interimTranscript s) (latestFinalSegment s) (error s)
    (isSupported s) (confidence s) (finalTranscriptRef s) (timeouts s) v.

(** The accumulators of the loop of [onresult]: [newInterimTranscript],
    [finalSegment] and the confidence last set. *)
Definition scanStep (acc : jsstring * jsstring * Q) (r : Result)
  : jsstring * jsstring * Q :=
  let '(newInterim, finalSegment, conf) := acc in
  if isFinal r
  then (newInterim, finalSegment ++ transcriptPart r ++ space, resultConfidence r)
  else (newInterim ++ transcriptPart r, finalSegment, conf).

Definition scan (conf : Q) (rs : list Result) : jsstring * jsstring * Q :=
  fold_left scanStep rs ([], [], conf).

Definition onresult (ev : Event) (s : State) : State :=
  let '(newInterim, finalSegment, conf) := scan (confidence s) (processed ev) in
  let s := setConfidence conf s in
  let s :=
    if truthy finalSegment then
      let s := setLatestFinalSegment (trim finalSegment) s in
      let s := setFinalTranscriptRef (finalTranscriptRef s ++ finalSegment) s in
      setTranscript (trim (finalTranscriptRef s)) s
    else s in
  setInterimTranscript newInterim s.

Definition autoRestartError (e : jsstring) : bool :=
  strEq e (js "no-speech") || strEq e (js "audio-capture")
  || strEq e (js "not-allowed").

(** The handlers of the recognition object are created by the effect
    that depends on [language]; [supported] and [listening] are the
    [isSupported] and [isListening] of the render of that effect. *)
Definition onerror (supported listening : bool) (e : jsstring) (s : State)
  : State :=
  let s := setError (Some e) s in
  if autoRestartError e
  then setTimeouts (timeouts s ++ [(ErrorRestart supported listening, 1000%Z)]) s
  else s.

Definition onend (listening : bool) (s : State) : State :=
  if listening
  then setTimeouts (timeouts s ++ [(EndRestart listening, 100%Z)]) s
  else s.

Definition onstart (s : State) : State := setError None s.

(** [startListening] as created in a render whose [isSupported] and
    [isListening] were [supported] and [listening]; [startThrows] says
    whether [recognition.start()] raises. *)
Definition startListeningIn (supported listening : bool) (startThrows : bool)
    (s : State) : State :=
  if negb supported
  then setError (Some (js "Speech recognition not supported")) s
  else if negb listening then
    let s := setIsListening true s in
    let s := setError None s in
    let s := setStartCalls (S (startCalls s)) s in
    if startThrows
    then setIsListening false
           (setError (Some (js "Failed to start speech recognition")) s)
    else s
  else s.

(** The application calls [startListening] and [stopListening] from its
    latest render. *)
Definition startListening (startThrows : bool) (s : State) : State :=
  startListeningIn (isSupported s) (isListening s) startThrows s.

Definition stopListening (s : State) : State :=
  if isListening s then setIsListening false s else s.

Definition resetTranscript (s : State) : State :=
  setConfidence 0
    (setFinalTranscriptRef []
       (setLatestFinalSegment []
          (setInterimTranscript [] (setTranscript [] s)))).

(** The [i]-th pending timer fires; [startThrows] says whether
    [recognition.start()] raises. *)
Definition fireTimeout (startThrows : bool) (i : nat) (s : State) : State :=
  match timeouts s !! i with
  | None => s
  | Some (t, _) =>
      let s := setTimeouts (delete i (timeouts s)) s in
      match t with
      | ErrorRestart supported listening =>
          if listening then startListeningIn supported listening startThrows s
          else s
      | EndRestart listening =>
          if listening then setStartCalls (S (startCalls s)) s else s
      end
  end.

(** The events of a session applied in arrival order. *)
Definition run (evs : list Event) (s : State) : State :=
  fold_left (fun s ev => onresult ev s) evs s.

End Basic.

(** ** The auto-push hook: first document of [unnamed/part_004]

    The basic hook extended with [lastPushTimeRef], [autoPushCallbackRef] and
    [checkAndPushInterim]; its handlers of the recognition object are those
    of the basic hook, word for word. *)

Module AutoPush.

Record State := mkState {
  base : Basic.State;
  lastPushTimeRef : Z;
  autoPushCallbackRef : bool;      (* a callback is registered *)
  pushed : list jsstring           (* arguments the callback was called with *)
}.

Definition initial (now : Z) : State := mkState Basic.initial now false [].

Definition setBase v s := mkState v (lastPushTimeRef s) (autoPushCallbackRef s) (pushed s).
Definition setLastPushTimeRef v s := mkState (base s) v (autoPushCallbackRef s) (pushed s).
Definition setAutoPushCallbackRef v s := mkState (base s) (lastPushTimeRef s) v (pushed s).
Definition setPushed v s := mkState (base s) (lastPushTimeRef s) (autoPushCallbackRef s) v.

Definition isListening s := Basic.isListening (base s).
Definition transcript s := Basic.transcript (base s).
Definition interimTranscript s := Basic.interimTranscript (base s).
Definition finalTranscriptRef s := Basic.finalTranscriptRef (base s).

Definition setAutoPushCallback (s : State) : State := setAutoPushCallbackRef true s.

(** [currentTime] is the value of [Date.now()]. *)
Definition checkAndPushInterim (currentTime : Z) (s : State) : State :=
  let timeSinceLastPush := (currentTime - lastPushTimeRef s)%Z in
  let interim := interimTranscript s in
  if truthy interim
     && ((200 <? length interim)%nat
         || ((50 <? length interim)%nat && (10000 <? timeSinceLastPush)%Z))
  then
    if autoPushCallbackRef s then
      let s := setPushed (pushed s ++ [interim]) s in
      let s := setLastPushTimeRef currentTime s in
      let s := setBase (Basic.setInterimTranscript [] (base s)) s in
      let s := setBase (Basic.setFinalTranscriptRef
                          (finalTranscriptRef s ++ interim ++ space) (base s)) s in
      setBase (Basic.setTranscript (trim (finalTranscriptRef s)) (base s)) s
    else s
  else s.

(** The effect with dependencies [interimTranscript], [isListening],
    [checkAndPushInterim]. *)
Definition interimEffect (now : Z) (s : State) : State :=
  if isListening s && truthy (interimTranscript s)
  then checkAndPushInterim now s
  else s.

Definition onresult (ev : Event) (s : State) : State :=
  setBase (Basic.onresult ev (base s)) s.

(** A result event and the render that follows it: the effect runs again
    only when the event changed [interimTranscript]. *)
Definition handleResult (now : Z) (ev : Event) (s : State) : State :=
  let s' := onresult ev s in
  if strEq (interimTranscript s') (interimTranscript s)
  then s'
  else interimEffect now s'.

(** The result events of a session, each with the [Date.now()] of the
    render that follows it, applied in arrival order. *)
Definition run (evs : list (Z * Event)) (s : State) : State :=
  fold_left (fun s e => handleResult (fst e) (snd e) s) evs s.

End AutoPush.

(** ** The robust hook: second document of [unnamed/part_004] *)

Module Robust.

(** Callbacks handed to [setTimeout] without keeping the timer id.
    [isListening] is a constant of a render: a callback sees the value of
    the render that created it, here [listening], whatever the state has
    become when the timer fires. *)
Inductive timer :=
| RestartAfter (delay : Z) (listening : bool)
    (* onerror: setTimeout(() => restartRecognition(), delay) *)
| EndRestart (listening : bool).
    (* onend, 100 ms: if (isListening) restartRecognition() *)

Definition maxConsecutiveErrors : Z := 5.

Record State := mkState {
  isListening : bool;
  transcript : jsstring;
  interimTranscript : jsstring;
  latestFinalSegment : jsstring;
  error : option jsstring;
  isSupported : bool;
  confidence : Q;
  language : jsstring;
  finalTranscriptRef : jsstring;
  autoPushCallbackRef : bool;    (* a callback is registered *)
  restartTimeoutRef : option (Z * bool);
    (* the pending restart timer, if any: its delay and the isListening its
       callback sees *)
  isRestartingRef : bool;
  lastResultTimeRef : Z;
  consecutiveErrorsRef : Z;
  restartDelayRef : Z;
  timeouts : list timer;    (* pending timers that no ref tracks *)
  pushed : list jsstring;    (* arguments the callback was called with *)
  startCalls : nat    (* calls of recognition.start() so far *)
}.

Definition setIsListening v s :=
  mkState v (transcript s) (interimTranscript s) (latestFinalSegment s)
    (error s) (isSupported s) (confidence s) (language s)
    (finalTranscriptRef s) (autoPushCallbackRef s) (restartTimeoutRef s)
    (isRestartingRef s) (lastResultTimeRef s) (consecutiveErrorsRef s)
    (restartDelayRef s) (timeouts s) (pushed s) (startCalls s).
Definition setTranscript v s :=
  mkState (isListening s) v (interimTranscript s) (latestFinalSegment s)
    (error s) (isSupported s) (confidence s) (language s)
    (finalTranscriptRef s) (autoPushCallbackRef s) (restartTimeoutRef s)
    (isRestartingRef s) (lastResultTimeRef s) (consecutiveErrorsRef s)
    (restartDelayRef s) (timeouts s) (pushed s) (startCalls s).
Definition setInterimTranscript v s :=
  mkState (isListening s) (transcript s) v (latestFinalSegment s) (error s)
    (isSupported s) (confidence s) (language s) (finalTranscriptRef s)
    (autoPushCallbackRef s) (restartTimeoutRef s) (isRestartingRef s)
    (lastResultTimeRef s) (consecutiveErrorsRef s) (restartDelayRef s)
    (timeouts s) (pushed s) (startCalls s).
Definition setLatestFinalSegment v s :=
  mkState (isListening s) (transcript s) (interimTranscript s) v (error s)
    (isSupported s) (confidence s) (language s) (finalTranscriptRef s)
    (autoPushCallbackRef s) (restartTimeoutRef s) (isRestartingRef s)
    (lastResultTimeRef s) (consecutiveErrorsRef s) (restartDelayRef s)
    (timeouts s) (pushed s) (startCalls s).
Definition setError v s :=
  mkState (isListening s) (transcript s) (interimTranscript s)
    (latestFinalSegment s) v (isSupported s) (confidence s) (language s)
    (finalTranscriptRef s) (autoPushCallbackRef s) (restartTimeoutRef s)
    (isRestartingRef s) (lastResultTimeRef s) (consecutiveErrorsRef s)
    (restartDelayRef s) (timeouts s) (pushed s) (startCalls s).
Definition setConfidence v s :=
  mkState (isListening s) (transcript s) (interimTranscript s)
    (latestFinalSegment s) (error s) (isSupported s) v (language s)
    (finalTranscriptRef s) (autoPushCallbackRef s) (restartTimeoutRef s)
    (isRestartingRef s) (lastResultTimeRef s) (consecutiveErrorsRef s)
    (restartDelayRef s) (timeouts s) (pushed s) (startCalls s).
Definition setFinalTranscriptRef v s :=
  mkState (isListening s) (transcript s) (interimTranscript s)
    (latestFinalSegment s) (error s) (isSupported s) (confidence s)
    (language s) v (autoPushCallbackRef s) (restartTimeoutRef s)
    (isRestartingRef s) (lastResultTimeRef s) (consecutiveErrorsRef s)
    (restartDelayRef s) (timeouts s) (pushed s) (startCalls s).
Definition setAutoPushCallbackRef v s :=
  mkState (isListening s) (transcript s) (interimTranscript s)
    (latestFinalSegment s) (error s) (isSupported s) (confidence s)
    (language s) (finalTranscriptRef s) v (restartTimeoutRef s)
    (isRestartingRef s) (lastResultTimeRef s) (consecutiveErrorsRef s)
    (restartDelayRef s) (timeouts s) (pushed s) (startCalls s).
Definition setRestartTimeoutRef v s :=
  mkState (isListening s) (transcript s) (interimTranscript s)
    (latestFinalSegment s) (error s) (isSupported s) (confidence s)
    (language s) (finalTranscriptRef s) (autoPushCallbackRef s) v
    (isRestartingRef s) (lastResultTimeRef s) (consecutiveErrorsRef s)
    (restartDelayRef s) (timeouts s) (pushed s) (startCalls s).
Definition setIsRestartingRef v s :=
  mkState (isListening s) (transcript s) (interimTranscript s)
    (latestFinalSegment s) (error s) (isSupported s) (confidence s)
    (language s) (finalTranscriptRef s) (autoPushCallbackRef s)
    (restartTimeoutRef s) v (lastResultTimeRef s) (consecutiveErrorsRef s)
    (restartDelayRef s) (timeouts s) (pushed s) (startCalls s).
Definition setLastResultTimeRef v s :=
  mkState (isListening s) (transcript s) (interimTranscript s)
    (latestFinalSegment s) (error s) (isSupported s) (confidence s)
    (language s) (finalTranscriptRef s) (autoPushCallbackRef s)
    (restartTimeoutRef s) (isRestartingRef s) v (consecutiveErrorsRef s)
    (restartDelayRef s) (timeouts s) (pushed s) (startCalls s).
Definition setConsecutiveErrorsRef v s :=
  mkState (isListening s) (transcript s) (interimTranscript s)
    (latestFinalSegment s) (error s) (isSupported s) (confidence s)
    (language s) (finalTranscriptRef s) (autoPushCallbackRef s)
    (restartTimeoutRef s) (isRestartingRef s) (lastResultTimeRef s) v
    (restartDelayRef s) (timeouts s) (pushed s) (startCalls s).
Definition setRestartDelayRef v s :=
  mkState (isListening s) (transcript s) (interimTranscript s)
    (latestFinalSegment s) (error s) (isSupported s) (confidence s)
    (language s) (finalTranscriptRef s) (autoPushCallbackRef s)
    (restartTimeoutRef s) (isRestartingRef s) (lastResultTimeRef s)
    (consecutiveErrorsRef s) v (timeouts s) (pushed s) (startCalls s).
Definition setTimeouts v s :=
  mkState (isListening s) (transcript s) (interimTranscript s)
    (latestFinalSegment s) (error s) (isSupported s) (confidence s)
    (language s) (finalTranscriptRef s) (autoPushCallbackRef s)
    (restartTimeoutRef s) (isRestartingRef s) (lastResultTimeRef s)
    (consecutiveErrorsRef s) (restartDelayRef s) v (pushed s) (startCalls s).
Definition setPushed v s :=
  mkState (isListening s) (transcript s) (interimTranscript s)
    (latestFinalSegment s) (error s) (isSupported s) (confidence s)
    (language s) (finalTranscriptRef s) (autoPushCallbackRef s)
    (restartTimeoutRef s) (isRestartingRef s) (lastResultTimeRef s)
    (consecutiveErrorsRef s) (restartDelayRef s) (timeouts s) v (startCalls s).
Definition setStartCalls v s :=
  mkState (isListening s) (transcript s) (interimTranscript s)
    (latestFinalSegment s) (error s) (isSupported s) (confidence s)
    (language s) (finalTranscriptRef s) (autoPushCallbackRef s)
    (restartTimeoutRef s) (isRestartingRef s) (lastResultTimeRef s)
    (consecutiveErrorsRef s) (restartDelayRef s) (timeouts s) (pushed s) v.

(** The state after mount in a browser that has the recognition engine;
    [now] is the value of [Date.now()] at that time. *)
Definition initial (now : Z) : State :=
  mkState false [] [] [] None true 0 (js "en-US") [] false None false now
    0%Z 1000%Z [] [] 0.

Definition setAutoPushCallback (s : State) : State := setAutoPushCallbackRef true s.

(** [restartRecognition] as created in a render whose [isListening] was
    [listening].  [recognition.abort()] leaves the state alone; the timer
    set here is the one [restartTimeoutRef] tracks, so setting it replaces
    the pending one, and its callback closes over the same [isListening]. *)
Definition restartRecognition (listening : bool) (s : State) : State :=
  if isRestartingRef s || negb listening then s
  else
    let s := setIsRestartingRef true s in
    let delay := Z.min (restartDelayRef s) 10000 in
    setRestartTimeoutRef (Some (delay, listening)) s.

(** The callback of the timer of [restartRecognition] runs; [startThrows]
    says whether [initializeRecognition(); recognitionRef.current?.start()]
    raises.  Nothing runs when no such timer is pending. *)
Definition restartTimeoutFire (startThrows : bool) (s : State) : State :=
  match restartTimeoutRef s with
  | None => s
  | Some (_, listening) =>
      let s := setRestartTimeoutRef None s in
      let s :=
        if listening then
          let s := setStartCalls (S (startCalls s)) s in
          if startThrows then
            let s := setConsecutiveErrorsRef (consecutiveErrorsRef s + 1) s in
            let s := setRestartDelayRef (restartDelayRef s * 2) s in
            if (consecutiveErrorsRef s <? maxConsecutiveErrors)%Z
            then restartRecognition listening s
            else
              let s := setError
                (Some (js "Speech recognition failed after multiple attempts")) s in
              setIsListening false s
          else
            let s := setConsecutiveErrorsRef 0 s in
            setRestartDelayRef 1000 s
        else s in
      setIsRestartingRef false s
  end.

(** The accumulators of the loop of [onresult]: [newInterimTranscript],
    [finalSegment], the confidence last set and the texts pushed to the
    callback. *)
Definition scanStep (autoPush : bool)
    (acc : jsstring * jsstring * Q * list jsstring) (r : Result)
  : jsstring * jsstring * Q * list jsstring :=
  let '(newInterim, finalSegment, conf, pushes) := acc in
  if isFinal r then
    (newInterim,
     finalSegment ++ transcriptPart r ++ space,
     (if Qeq_bool (resultConfidence r) 0 then 8 # 10 else resultConfidence r),
     (if autoPush && truthy (trim (transcriptPart r))
      then pushes ++ [trim (transcriptPart r)] else pushes))
  else (newInterim ++ transcriptPart r, finalSegment, conf, pushes).

Definition scan (autoPush : bool) (conf : Q) (pushes : list jsstring)
    (rs : list Result) : jsstring * jsstring * Q * list jsstring :=
  fold_left (scanStep autoPush) rs ([], [], conf, pushes).

Definition onresult (now : Z) (ev : Event) (s : State) : State :=
  let s := setLastResultTimeRef now s in
  let '(newInterim, finalSegment, conf, pushes) :=
    scan (autoPushCallbackRef s) (confidence s) (pushed s) (processed ev) in
  let s := setPushed pushes (setConfidence conf s) in
  let s :=
    if truthy (trim finalSegment) then
      let cleanSegment := trim finalSegment in
      let s := setLatestFinalSegment cleanSegment s in
      let s := setFinalTranscriptRef
                 (finalTranscriptRef s ++ cleanSegment ++ space) s in
      setTranscript (trim (finalTranscriptRef s)) s
    else s in
  let s := setInterimTranscript newInterim s in
  if (150 <? length newInterim)%nat && autoPushCallbackRef s then
    let s := setPushed (pushed s ++ [newInterim]) s in
    setInterimTranscript [] s
  else s.

Definition addTimeout (t : timer) (s : State) : State :=
  setTimeouts (timeouts s ++ [t]) s.

(** [recognition.onerror] of a recognition object whose handlers were
    created in a render whose [isListening] was [listening]. *)
Definition onerror (listening : bool) (errorType : jsstring) (s : State)
  : State :=
  let s := setConsecutiveErrorsRef (consecutiveErrorsRef s + 1) s in
  if strEq errorType (js "no-speech") then
    if listening then addTimeout (RestartAfter 500 listening) s else s
  else if strEq errorType (js "audio-capture") then
    setIsListening false
      (setError (Some (js "Microphone access denied or unavailable")) s)
  else if strEq errorType (js "not-allowed") then
    setIsListening false (setError (Some (js "Microphone permission denied")) s)
  else if strEq errorType (js "network") then
    let s := setError (Some (js "Network error - check your connection")) s in
    if (consecutiveErrorsRef s <? maxConsecutiveErrors)%Z
    then addTimeout (RestartAfter 2000 listening) s
    else setIsListening false s
  else if strEq errorType (js "service-not-allowed") then
    setIsListening false
      (setError (Some (js "Speech recognition service not allowed")) s)
  else if strEq errorType (js "language-not-supported") then
    setIsListening false
      (setError (Some (js "Language " ++ language s ++ js " not supported")) s)
  else
    if (consecutiveErrorsRef s <? maxConsecutiveErrors)%Z && listening
    then addTimeout (RestartAfter 1000 listening) s
    else
      setIsListening false
        (setError (Some (js "Speech recognition error: " ++ errorType)) s).

Definition onend (listening : bool) (s : State) : State :=
  if listening && negb (isRestartingRef s)
  then addTimeout (EndRestart listening) s
  else s.

Definition onstart (now : Z) (s : State) : State :=
  setLastResultTimeRef now (setConsecutiveErrorsRef 0 (setError None s)).

(** The [i]-th pending untracked timer fires. *)
Definition fireTimeout (i : nat) (s : State) : State :=
  match timeouts s !! i with
  | None => s
  | Some t =>
      let s := setTimeouts (delete i (timeouts s)) s in
      match t with
      | RestartAfter _ listening => restartRecognition listening s
      | EndRestart listening =>
          if listening then restartRecognition listening s else s
      end
  end.

(** The 5-second monitor and the 4-minute rotation.  The effects create
    the intervals when [isListening] is true and clear them when it
    changes, so a tick runs in a state that is listening and its closure
    saw [isListening] true. *)
Definition monitorTick (now : Z) (s : State) : State :=
  if isListening s then
    let timeSinceLastResult := (now - lastResultTimeRef s)%Z in
    if (30000 <? timeSinceLastResult)%Z && negb (isRestartingRef s)
    then restartRecognition true s
    else s
  else s.

Definition rotationTick (s : State) : State :=
  if isListening s then
    if true && negb (isRestartingRef s)
    then restartRecognition true s
    else s
  else s.

(** The mount effect runs again when [isListening] or [language] changed:
    its cleanup aborts the recognition object and clears the restart timer,
    its body creates a recognition object that is not started. *)
Definition rerender (s : State) : State := setRestartTimeoutRef None s.

(** [startListening] is called by the application from its latest render,
    so it sees the current [isListening] and [isSupported]; [startThrows]
    says whether [recognitionRef.current?.start()] raises. *)
Definition startListening (startThrows : bool) (s : State) : State :=
  if negb (isSupported s)
  then setError (Some (js "Speech recognition not supported")) s
  else if negb (isListening s) then
    let s := setIsListening true s in
    let s := setError None s in
    let s := setConsecutiveErrorsRef 0 s in
    let s := setRestartDelayRef 1000 s in
    let s := setStartCalls (S (startCalls s)) s in
    if startThrows
    then setIsListening false
           (setError (Some (js "Failed to start speech recognition")) s)
    else s
  else s.

(** [stopListening] reads no state of a render, only refs. *)
Definition stopListening (s : State) : State :=
  let s := setIsListening false s in
  let s := setIsRestartingRef false s in
  setRestartTimeoutRef None s.

Definition resetTranscript (s : State) : State :=
  setConfidence 0
    (setFinalTranscriptRef []
       (setLatestFinalSegment []
          (setInterimTranscript [] (setTranscript [] s)))).

(** What the browser, the timers and React do to the hook on their own.
    An event of a recognition object runs the handlers of that object;
    [listening] is the [isListening] of the render that created them. *)
Inductive callback :=
| OnResult (now : Z) (ev : Event)
| OnError (listening : bool) (errorType : jsstring)
| OnEnd (listening : bool)
| OnStart (now : Z)
| RestartTimeout (startThrows : bool)
| Timeout (i : nat)
| MonitorTick (now : Z)
| RotationTick
| Rerender.

Definition dispatch (s : State) (c : callback) : State :=
  match c with
  | OnResult now ev => onresult now ev s
  | OnError listening e => onerror listening e s
  | OnEnd listening => onend listening s
  | OnStart now => onstart now s
  | RestartTimeout startThrows => restartTimeoutFire startThrows s
  | Timeout i => fireTimeout i s
  | MonitorTick now => monitorTick now s
  | RotationTick => rotationTick s
  | Rerender => rerender s
  end.

Definition runCallbacks (cs : list callback) (s : State) : State :=
  fold_left dispatch cs s.

(** No closure that saw [isListening] true is left: the pending timers and
    the callback about to run all saw it false. *)
Definition timerSees (t : timer) : bool :=
  match t with
  | RestartAfter _ listening => listening
  | EndRestart listening => listening
  end.

Definition noStaleTimer (s : State) : bool :=
  forallb (fun t => negb (timerSees t)) (timeouts s)
  && match restartTimeoutRef s with
     | Some (_, listening) => negb listening
     | None => true
     end.

Definition seesIdle (c : callback) : bool :=
  match c with
  | OnError listening _ => negb listening
  | OnEnd listening => negb listening
  | _ => true
  end.

(** What one result event appends to [finalTranscriptRef]: the final texts
    of the event joined, trimmed as one segment, and the separator. *)
Definition appended (ev : Event) : jsstring :=
  let cleanSegment := trim (spaced (finalTexts ev)) in
  if truthy cleanSegment then cleanSegment ++ space else [].

(** The result events of a session applied in arrival order. *)
Definition run (evs : list (Z * Event)) (s : State) : State :=
  fold_left (fun s e => onresult (fst e) (snd e) s) evs s.

(** A restart round of a listening session: some closure that saw
    [isListening] true invokes [restartRecognition], then its timer
    fires. *)
Definition restartRound (startThrows : bool) (s : State) : State :=
  restartTimeoutFire startThrows (restartRecognition true s).

(** The failures the hook counts in [consecutiveErrorsRef]: an upstream
    [network] error, an upstream error of a kind the switch does not name,
    and a restart whose [start()] raises.  They reach handlers created
    while listening. *)
Inductive failure :=
| NetworkError
| UnknownError (errorType : jsstring)
| RestartThrows.

Definition namedError (e : jsstring) : bool :=
  strEq e (js "no-speech") || strEq e (js "audio-capture")
  || strEq e (js "not-allowed") || strEq e (js "network")
  || strEq e (js "service-not-allowed") || strEq e (js "language-not-supported").

Definition wellFormed (f : failure) : bool :=
  match f with
  | UnknownError e => negb (namedError e)
  | _ => true
  end.

Definition fail (s : State) (f : failure) : State :=
  match f with
  | NetworkError => onerror true (js "network") s
  | UnknownError e => onerror true e s
  | RestartThrows => restartRound true s
  end.

Definition failAll (fs : list failure) (s : State) : State :=
  fold_left fail fs s.


(** The controller is listening with [k] failures counted and no restart
    in flight. *)
Definition retrying (s : State) (k : Z) : Prop :=
  isListening s = true /\ isRestartingRef s = false
  /\ restartTimeoutRef s = None /\ consecutiveErrorsRef s = k.

(** The message left in [error] by the failure that exhausts the budget. *)
Definition fatalMessage (f : failure) : jsstring :=
  match f with
  | NetworkError => js "Network error - check your connection"
  | UnknownError e => js "Speech recognition error: " ++ e
  | RestartThrows => js "Speech recognition failed after multiple attempts"
  end.

(** The delays [delay], [2 * delay], [4 * delay], ... capped at 10000. *)
Fixpoint backoff (n : nat) (delay : Z) : list (option Z) :=
  match n with
  | O => []
  | S n' => Some (Z.min delay 10000) :: backoff n' (delay * 2)
  end.

Definition setLanguage v s :=
  mkState (isListening s) (transcript s) (interimTranscript s)
    (latestFinalSegment s) (error s) (isSupported s) (confidence s) v
    (finalTranscriptRef s) (autoPushCallbackRef s) (restartTimeoutRef s)
    (isRestartingRef s) (lastResultTimeRef s) (consecutiveErrorsRef s)
    (restartDelayRef s) (timeouts s) (pushed s) (startCalls s).

(** [startListening] as created in a render whose [isSupported] and
    [isListening] were [supported] and [listening]. *)
Definition startListeningIn (supported listening : bool) (startThrows : bool)
    (s : State) : State :=
  if negb supported
  then setError (Some (js "Speech recognition not supported")) s
  else if negb listening then
    let s := setIsListening true s in
    let s := setError None s in
    let s := setConsecutiveErrorsRef 0 s in
    let s := setRestartDelayRef 1000 s in
    let s := setStartCalls (S (startCalls s)) s in
    if startThrows
    then setIsListening false
           (setError (Some (js "Failed to start speech recognition")) s)
    else s
  else s.

(** [changeLanguage], called by the application from its latest render,
    up to [setTimeout]. *)
Definition changeLanguage (newLanguage : jsstring) (s : State) : State :=
  let wasListening := isListening s in
  let s := if wasListening then stopListening s else s in
  setLanguage newLanguage s.

(** The callback that [changeLanguage] hands to [setTimeout], 100 ms
    later, in a browser that has the recognition engine:
    [initializeRecognition()] creates a recognition object and touches no
    state, and the [startListening] it calls is the one of the render
    that created [changeLanguage], whose [isSupported] was [supported]
    and whose [isListening] is [wasListening]. *)
Definition changeLanguageTimeout (supported wasListening startThrows : bool)
    (s : State) : State :=
  if wasListening
  then startListeningIn supported wasListening startThrows s
  else s.

(** What one result event hands to the auto-push callback: the trimmed
    text of every final result that is not blank, then the interim text
    when it is longer than 150 characters. *)
Definition emitted (ev : Event) : list jsstring :=
  List.filter truthy (map trim (finalTexts ev))
  ++ (if (150 <? length (interimOf (processed ev)))%nat
      then [interimOf (processed ev)] else []).

(** What the application calls from its latest render. *)
Inductive command :=
| StartListening (startThrows : bool)
| StopListening
| ResetTranscript
| SetAutoPushCallback
| ChangeLanguage (newLanguage : jsstring).

Definition execute (s : State) (c : command) : State :=
  match c with
  | StartListening startThrows => startListening startThrows s
  | StopListening => stopListening s
  | ResetTranscript => resetTranscript s
  | SetAutoPushCallback => setAutoPushCallback s
  | ChangeLanguage newLanguage => changeLanguage newLanguage s
  end.

(** A step of the hook: a callback of the environment, a call of the
    application, or the timer of [changeLanguage]. *)
Inductive action :=
| Call (c : callback)
| Do (c : command)
| LanguageTimeout (supported wasListening startThrows : bool).

Definition perform (s : State) (a : action) : State :=
  match a with
  | Call c => dispatch s c
  | Do c => execute s c
  | LanguageTimeout supported wasListening startThrows =>
      changeLanguageTimeout supported wasListening startThrows s
  end.

Definition performAll (acts : list action) (s : State) : State :=
  fold_left perform acts s.

(** A restart is marked in flight and no timer will end it. *)
Definition wedged (s : State) : Prop :=
  isRestartingRef s = true /\ restartTimeoutRef s = None.

(** A pending restart timer is marked in [isRestartingRef]. *)
Definition guarded (s : State) : Prop :=
  match restartTimeoutRef s with
  | Some _ => isRestartingRef s = true
  | None => True
  end.

(** [n] errors of kind [no-speech] in a row, reported to handlers created
    in a render whose [isListening] was [listening]. *)
Definition noSpeech (listening : bool) (n : nat) (s : State) : State :=
  Nat.iter n (onerror listening (js "no-speech")) s.

(** The committed text is in normal form: nothing is committed, or the
    transcript is a text without white space at its ends and the ref is
    that text and one space. *)
Definition normalForm (s : State) : Prop :=
  (finalTranscriptRef s = [] /\ transcript s = [])
  \/ (tight (transcript s) /\ finalTranscriptRef s = transcript s ++ space).

End Robust.

(** ** The streaming hook: [unnamed/part_005] *)

Module Streaming.

Record State := mkState {
  isListening : bool;
  transcript : jsstring;
  interimTranscript : jsstring;
  error : option jsstring;
  isSupported : bool
}.

Definition initial : State := mkState false [] [] None true.

Definition setTranscript v s :=
  mkState (isListening s) v (interimTranscript s) (error s) (isSupported s).
Definition setInterimTranscript v s :=
  mkState (isListening s) (transcript s) v (error s) (isSupported s).

(** The parsed body of a socket message: [data.type], [data.end_of_turn]
    and [data.transcript] (the empty string when the field is absent). *)
Record Message := mkMessage {
  msgType : jsstring;
  end_of_turn : bool;
  msgTranscript : jsstring
}.

Definition onmessage (data : Message) (s : State) : State :=
  if strEq (msgType data) (js "Turn") then
    if end_of_turn data && truthy (msgTranscript data) then
      setInterimTranscript [] (setTranscript (msgTranscript data) s)
    else if negb (end_of_turn data) && truthy (msgTranscript data) then
      setInterimTranscript (msgTranscript data) s
    else s
  else s.

Definition resetTranscript (s : State) : State :=
  setInterimTranscript [] (setTranscript [] s).

(** The two kinds of recognition event as socket messages. *)
Definition Partial (text : jsstring) : Message := mkMessage (js "Turn") false text.
Definition Final (text : jsstring) : Message := mkMessage (js "Turn") true text.

Definition run (ms : list Message) (s : State) : State :=
  fold_left (fun s m => onmessage m s) ms s.

(** The texts of the messages that end a turn with a text. *)
Fixpoint finalTexts (ms : list Message) : list jsstring :=
  match ms with
  | [] => []
  | m :: ms' =>
      if strEq (msgType m) (js "Turn") && end_of_turn m && truthy (msgTranscript m)
      then msgTranscript m :: finalTexts ms'
      else finalTexts ms'
  end.

(** *** PCM conversion in [processor.onaudioprocess]

    A sample of the [Float32Array] is NaN, an infinity or a binary
    fraction.  The products [sample * 0x8000] and [sample * 0x7FFF] of a
    clamped single-precision sample are exact in double precision, so the
    numbers of the loop are modelled as exact rationals. *)

Inductive number :=
| NaN
| NegInfinity
| PosInfinity
| Finite (q : Q).

(** [Math.min(1, x)] and [Math.max(-1, x)]. *)
Definition mathMin1 (x : number) : number :=
  match x with
  | NaN => NaN
  | NegInfinity => NegInfinity
  | PosInfinity => Finite 1
  | Finite q => if Qle_bool q 1 then Finite q else Finite 1
  end.

Definition mathMaxNeg1 (x : number) : number :=
  match x with
  | NaN => NaN
  | NegInfinity => Finite (-1)
  | PosInfinity => PosInfinity
  | Finite q => if Qle_bool (-1) q then Finite q else Finite (-1)
  end.

Definition clamp (x : number) : number := mathMaxNeg1 (mathMin1 x).

(** [x < 0]. *)
Definition negative (x : number) : bool :=
  match x with
  | NaN => false
  | NegInfinity => true
  | PosInfinity => false
  | Finite q => negb (Qle_bool 0 q)
  end.

(** [x * k] for a positive integer constant [k]. *)
Definition times (x : number) (k : Z) : number :=
  match x with
  | Finite q => Finite (q * inject_Z k)
  | other => other
  end.

Definition scale (sample : number) : number :=
  if negative sample then times sample 0x8000 else times sample 0x7FFF.

(** Rounding toward zero. *)
Definition truncate (q : Q) : Z := Z.quot (Qnum q) (Zpos (Qden q)).

(** The conversion of a store into an [Int16Array]: NaN and the infinities
    become 0, a finite number is truncated and wrapped modulo 2^16. *)
Definition toInt16 (x : number) : Z :=
  match x with
  | Finite q =>
      let int16bit := (truncate q mod 65536)%Z in
      if (32768 <=? int16bit)%Z then (int16bit - 65536)%Z else int16bit
  | _ => 0%Z
  end.

Definition pcm16 (sample : number) : Z := toInt16 (scale (clamp sample)).

Definition convert (inputData : list number) : list Z := map pcm16 inputData.

(** The clamped value of a finite sample. *)
Definition clampQ (q : Q) : Q :=
  if Qle_bool q 1 then (if Qle_bool (-1) q then q else -1) else 1.

(** *** The socket and the microphone of the streaming hook *)

Definition setIsListening v s :=
  mkState v (transcript s) (interimTranscript s) (error s) (isSupported s).
Definition setError v s :=
  mkState (isListening s) (transcript s) (interimTranscript s) v (isSupported s).

(** The hook with its two refs, and what has been opened and released so
    far. *)
Record Session := mkSession {
  hook : State;
  socketRef : bool;          (* socketRef.current holds a socket *)
  micStreamRef : bool;       (* micStreamRef.current holds a capture *)
  socketsOpened : nat;       (* new WebSocket(...) so far *)
  socketsClosed : nat;       (* socketRef.current.close() so far *)
  capturesOpened : nat;      (* streams that getUserMedia has handed out *)
  capturesStopped : nat      (* micStreamRef.current.stop() so far *)
}.

Definition initialSession : Session := mkSession initial false false 0 0 0 0.

Definition setHook v s :=
  mkSession v (socketRef s) (micStreamRef s) (socketsOpened s)
    (socketsClosed s) (capturesOpened s) (capturesStopped s).
Definition setSocketRef v s :=
  mkSession (hook s) v (micStreamRef s) (socketsOpened s) (socketsClosed s)
    (capturesOpened s) (capturesStopped s).
Definition setMicStreamRef v s :=
  mkSession (hook s) (socketRef s) v (socketsOpened s) (socketsClosed s)
    (capturesOpened s) (capturesStopped s).
Definition setSocketsOpened v s :=
  mkSession (hook s) (socketRef s) (micStreamRef s) v (socketsClosed s)
    (capturesOpened s) (capturesStopped s).
Definition setSocketsClosed v s :=
  mkSession (hook s) (socketRef s) (micStreamRef s) (socketsOpened s) v
    (capturesOpened s) (capturesStopped s).
Definition setCapturesOpened v s :=
  mkSession (hook s) (socketRef s) (micStreamRef s) (socketsOpened s)
    (socketsClosed s) v (capturesStopped s).
Definition setCapturesStopped v s :=
  mkSession (hook s) (socketRef s) (micStreamRef s) (socketsOpened s)
    (socketsClosed s) (capturesOpened s) v.

(** The parsed body of the response, [data]: JSON [null], on which
    [data.token] and [data.error] raise, or a value whose [token] field is
    absent or holds a string. *)
Inductive body :=
| NullBody
| Body (token : option jsstring).

(** What [fetch('/api/assemblyai')] comes to: the request or the parsing
    of the body fails, or there is a response with its status and its
    parsed body. *)
Inductive tokenResponse :=
| FetchRejects
| Responds (status : Z) (data : body).

(** [getToken]: everything that raises inside the [try] ends in the
    [catch] block, which sets the error and returns [null]. *)
Definition getToken (r : tokenResponse) (s : Session)
  : option jsstring * Session :=
  let caught :=
    (None,
     setHook (setError (Some (js "Failed to connect to speech service."))
                (hook s)) s) in
  match r with
  | Responds status data =>
      if (status =? 200)%Z then
        match data with
        | Body token => (token, s)
        | NullBody => caught
        end
      else caught
  | FetchRejects => caught
  end.

(** The response has status 200 and a body with a token that is not
    empty. *)
Definition usable (r : tokenResponse) : bool :=
  match r with
  | Responds status (Body (Some t)) => (status =? 200)%Z && truthy t
  | _ => false
  end.

(** The [catch] block of [startListening]. *)
Definition startFailed (s : Session) : Session :=
  setHook (setIsListening false
             (setError (Some (js "Failed to start transcription.")) (hook s))) s.

(** Whether [startListening] has returned or waits for [getUserMedia]. *)
Inductive progress :=
| Returned
| AwaitsUserMedia.

(** [startListening], called by the application from its latest render,
    up to [await getUserMedia]; the request of the token settles before
    any other callback runs.  [socketThrows] says whether
    [new WebSocket(...)] raises. *)
Definition startListening (r : tokenResponse) (socketThrows : bool)
    (s : Session) : Session * progress :=
  if isListening (hook s) then (s, Returned)
  else
    let s := setHook (setError None (hook s)) s in
    let '(token, s) := getToken r s in
    match token with
    | Some t =>
        if truthy t then
          if socketThrows then (startFailed s, Returned)
          else
            (setSocketRef true (setSocketsOpened (S (socketsOpened s)) s),
             AwaitsUserMedia)
        else (s, Returned)
    | None => (s, Returned)
    end.

(** What [getUserMedia] and the set-up of the audio graph come to. *)
Inductive capture :=
| CaptureDenied          (* getUserMedia rejects *)
| CaptureSetupThrows     (* a stream is handed out, the audio graph raises *)
| CaptureReady.

(** The rest of [startListening], after [await getUserMedia]. *)
Definition userMediaSettled (c : capture) (s : Session) : Session :=
  match c with
  | CaptureDenied => startFailed s
  | CaptureSetupThrows =>
      startFailed (setCapturesOpened (S (capturesOpened s)) s)
  | CaptureReady =>
      setMicStreamRef true (setCapturesOpened (S (capturesOpened s)) s)
  end.

(** The handlers of the socket. *)
Definition onopen (s : Session) : Session :=
  setHook (setIsListening true (hook s)) s.

Definition onclose (s : Session) : Session :=
  setHook (setIsListening false (hook s)) s.

Definition onsocketerror (s : Session) : Session :=
  setHook (setIsListening false
             (setError (Some (js "Transcription error.")) (hook s))) s.

Definition onsocketmessage (data : Message) (s : Session) : Session :=
  setHook (onmessage data (hook s)) s.

(** [stopListening], called by the application from its latest render. *)
Definition stopListening (s : Session) : Session :=
  if negb (isListening (hook s)) || negb (socketRef s) then s
  else
    let s :=
      if micStreamRef s
      then setMicStreamRef false (setCapturesStopped (S (capturesStopped s)) s)
      else s in
    let s :=
      if socketRef s
      then setSocketRef false (setSocketsClosed (S (socketsClosed s)) s)
      else s in
    setHook (setIsListening false (hook s)) s.

(** What the socket does to the hook on its own. *)
Inductive socketEvent :=
| Open
| Close
| SocketError
| SocketMessage (data : Message).

Definition handle (s : Session) (e : socketEvent) : Session :=
  match e with
  | Open => onopen s
  | Close => onclose s
  | SocketError => onsocketerror s
  | SocketMessage data => onsocketmessage data s
  end.

Definition handleAll (es : list socketEvent) (s : Session) : Session :=
  fold_left handle es s.

End Streaming.

(** ** The note sink: [useNotes] and the segment effect of [App]
    ([src/hooks/useNotes.js]) *)

Module Notes.

Record Metadata := mkMetadata {
  startTime : option jsstring;
  endTime : option jsstring;
  metaConfidence : Q;
  speakers : list jsstring;
  location : jsstring;
  attendees : list jsstring
}.

Record Note := mkNote {
  id : jsstring;
  title : jsstring;
  content : jsstring;
  createdAt : jsstring;
  updatedAt : jsstring;
  duration : Z;
  wordCount : nat;
  language : jsstring;
  isRecording : bool;
  category : jsstring;
  tags : list jsstring;
  priority : jsstring;
  isStarred : bool;
  isArchived : bool;
  metadata : Metadata
}.

(** The state of [App] that the segment effect reads and writes:
    [latestFinalSegment] comes from the speech hook, [notes] and
    [currentNote] from [useNotes]. *)
Record State := mkState {
  latestFinalSegment : jsstring;
  lastProcessedSegment : jsstring;
  currentNote : option Note;
  notes : list Note
}.

Definition setLatestFinalSegment v s :=
  mkState v (lastProcessedSegment s) (currentNote s) (notes s).
Definition setLastProcessedSegment v s :=
  mkState (latestFinalSegment s) v (currentNote s) (notes s).
Definition setCurrentNote v s :=
  mkState (latestFinalSegment s) (lastProcessedSegment s) v (notes s).
Definition setNotes v s :=
  mkState (latestFinalSegment s) (lastProcessedSegment s) (currentNote s) v.

(** The note that [appendToNote] builds; [now] is
    [new Date().toISOString()]. *)
Definition newContent (text : jsstring) (old : jsstring) : jsstring :=
  (if truthy old then old ++ space else []) ++ text.

Definition updatedNote (now : jsstring) (text : jsstring) (note : Note) : Note :=
  let newContent := newContent text (content note) in
  mkNote (id note) (title note) newContent (createdAt note) now (duration note)
    (countWords false newContent) (language note) (isRecording note)
    (category note) (tags note) (priority note) (isStarred note)
    (isArchived note) (metadata note).

(** [appendToNote]: every note with the given id is replaced; for each of
    them [setCurrentNote] swaps the current note for the updated one when
    the current note has that id. *)
Definition appendToNote (now : jsstring) (noteId text : jsstring) (s : State)
  : State :=
  if negb (truthy text) then s
  else
    let updateCurrent (cur : option Note) (note : Note) : option Note :=
      if strEq (id note) noteId then
        match cur with
        | Some prev =>
            if strEq (id prev) noteId then Some (updatedNote now text note)
            else cur
        | None => cur
        end
      else cur in
    let cur := fold_left updateCurrent (notes s) (currentNote s) in
    let ns :=
      map (fun note =>
             if strEq (id note) noteId then updatedNote now text note else note)
          (notes s) in
    setCurrentNote cur (setNotes ns s).

(** The effect of [App] with dependencies [latestFinalSegment],
    [currentNote], [appendToNote], [lastProcessedSegment]. *)
Definition segmentEffect (now : jsstring) (s : State) : State :=
  match currentNote s with
  | Some note =>
      if truthy (latestFinalSegment s)
         && negb (strEq (latestFinalSegment s) (lastProcessedSegment s))
      then
        let s := appendToNote now (id note) (latestFinalSegment s) s in
        setLastProcessedSegment (latestFinalSegment s) s
      else s
  | None => s
  end.

(** The hook delivers a final segment and [App] renders: the effect runs
    once, and once more because it changed its own dependencies. *)
Definition deliver (now : jsstring) (segment : jsstring) (s : State) : State :=
  segmentEffect now (segmentEffect now (setLatestFinalSegment segment s)).

(** The contents of the notes with a given id. *)
Fixpoint contentsOf (noteId : jsstring) (ns : list Note) : list jsstring :=
  match ns with
  | [] => []
  | n :: ns' =>
      if strEq (id n) noteId then content n :: contentsOf noteId ns'
      else contentsOf noteId ns'
  end.

(** *** The other operations of [useNotes]

    An operation is called from the latest render, so the [notes] and the
    [currentNote] it closes over are those of the state. *)

(** The [updates] objects that the callers of [updateNote] pass: a field
    is absent or holds the new value. *)
Record Updates := mkUpdates {
  uTitle : option jsstring;
  uContent : option jsstring;
  uTags : option (list jsstring);
  uIsStarred : option bool;
  uIsArchived : option bool;
  uIsRecording : option bool;
  uDuration : option Z;
  uMetadata : option Metadata
}.

(** [{ ...note, ...updates, updatedAt, wordCount }]; [now] is
    [new Date().toISOString()]. *)
Definition applyUpdates (now : jsstring) (updates : Updates) (note : Note)
  : Note :=
  mkNote (id note)
    (default (title note) (uTitle updates))
    (default (content note) (uContent updates))
    (createdAt note)
    now
    (default (duration note) (uDuration updates))
    (match uContent updates with
     | Some c => if truthy c then countWords false c else wordCount note
     | None => wordCount note
     end)
    (language note)
    (default (isRecording note) (uIsRecording updates))
    (category note)
    (default (tags note) (uTags updates))
    (priority note)
    (default (isStarred note) (uIsStarred updates))
    (default (isArchived note) (uIsArchived updates))
    (default (metadata note) (uMetadata updates)).

Definition updateNote (now : jsstring) (noteId : jsstring) (updates : Updates)
    (s : State) : State :=
  let updateCurrent (cur : option Note) (note : Note) : option Note :=
    if strEq (id note) noteId then
      match cur with
      | Some prev =>
          if strEq (id prev) noteId then Some (applyUpdates now updates note)
          else cur
      | None => cur
      end
    else cur in
  let cur := fold_left updateCurrent (notes s) (currentNote s) in
  let ns :=
    map (fun note =>
           if strEq (id note) noteId then applyUpdates now updates note
           else note)
        (notes s) in
  setCurrentNote cur (setNotes ns s).

(** [createNote(title, category)]: [nowId] is [Date.now().toString()],
    [createdIso] and [updatedIso] are the two readings of
    [new Date().toISOString()], [localeDate] is
    [new Date().toLocaleDateString()]. *)
Definition createNote (nowId createdIso updatedIso localeDate : jsstring)
    (title category : jsstring) (s : State) : Note * State :=
  let newNote :=
    mkNote nowId
      (if truthy title then title else js "Meeting " ++ localeDate)
      [] createdIso updatedIso 0 0 (js "en-US") false category []
      (js "normal") false false (mkMetadata None None 0 [] [] []) in
  (newNote, setCurrentNote (Some newNote) (setNotes (newNote :: notes s) s)).

Definition deleteNote (noteId : jsstring) (s : State) : State :=
  let s' :=
    setNotes (List.filter (fun note => negb (strEq (id note) noteId)) (notes s))
      s in
  match currentNote s with
  | Some cur => if strEq (id cur) noteId then setCurrentNote None s' else s'
  | None => s'
  end.

(** [notes.find(n => n.id === noteId)]. *)
Definition findNote (noteId : jsstring) (ns : list Note) : option Note :=
  List.find (fun n => strEq (id n) noteId) ns.

Definition toggleArchiveNote (now : jsstring) (noteId : jsstring) (s : State)
  : State :=
  match findNote noteId (notes s) with
  | Some note =>
      updateNote now noteId
        (mkUpdates None None None None (Some (negb (isArchived note))) None
           None None) s
  | None => s
  end.

Definition toggleStarNote (now : jsstring) (noteId : jsstring) (s : State)
  : State :=
  match findNote noteId (notes s) with
  | Some note =>
      updateNote now noteId
        (mkUpdates None None None (Some (negb (isStarred note))) None None
           None None) s
  | None => s
  end.

(** [tags.includes(tag)]. *)
Definition includes (tag : jsstring) (ts : list jsstring) : bool :=
  existsb (strEq tag) ts.

Definition addTagToNote (now : jsstring) (noteId tag : jsstring) (s : State)
  : State :=
  match findNote noteId (notes s) with
  | Some note =>
      if negb (includes tag (tags note)) then
        updateNote now noteId
          (mkUpdates None None (Some (tags note ++ [tag])) None None None None
             None) s
      else s
  | None => s
  end.

Definition removeTagFromNote (now : jsstring) (noteId tag : jsstring)
    (s : State) : State :=
  match findNote noteId (notes s) with
  | Some note =>
      updateNote now noteId
        (mkUpdates None None
           (Some (List.filter (fun t => negb (strEq t tag)) (tags note)))
           None None None None None) s
  | None => s
  end.

Definition setStartTime v (m : Metadata) : Metadata :=
  mkMetadata v (endTime m) (metaConfidence m) (speakers m) (location m)
    (attendees m).
Definition setEndTime v (m : Metadata) : Metadata :=
  mkMetadata (startTime m) v (metaConfidence m) (speakers m) (location m)
    (attendees m).

(** [startRecording]: [startIso] is the [new Date().toISOString()] of the
    metadata, [now] that of [updateNote].  When no note has the id the
    spread of [undefined] adds no field; [updateNote] then finds no note
    to give the object to. *)
Definition startRecording (startIso now : jsstring) (noteId : jsstring)
    (s : State) : State :=
  let found :=
    match findNote noteId (notes s) with
    | Some note => metadata note
    | None => mkMetadata None None 0 [] [] []
    end in
  updateNote now noteId
    (mkUpdates None None None None None (Some true) None
       (Some (setStartTime (Some startIso) found))) s.

(** [if (note.metadata.startTime)]. *)
Definition hasStartTime (m : Metadata) : bool :=
  match startTime m with
  | Some t => truthy t
  | None => false
  end.

(** [stopRecording]: [endIso] is [endTime.toISOString()], [now] the
    reading of [updateNote], and [elapsed start] is
    [Math.floor((endTime - new Date(start)) / 1000)] for the start time
    [start] of the note. *)
Definition stopRecording (endIso now : jsstring) (elapsed : jsstring -> Z)
    (noteId : jsstring) (s : State) : State :=
  match findNote noteId (notes s) with
  | Some note =>
      if hasStartTime (metadata note) then
        let seconds := elapsed (default [] (startTime (metadata note))) in
        updateNote now noteId
          (mkUpdates None None None None None (Some false)
             (Some (duration note + seconds)%Z)
             (Some (setEndTime (Some endIso) (metadata note)))) s
      else s
  | None => s
  end.

Definition getCategories (s : State) : list jsstring :=
  js "all" :: sortStrings (unique [] (map category (notes s))).

Definition getAllTags (s : State) : list jsstring :=
  sortStrings (unique [] (flat_map tags (notes s))).

(** *** The handlers of [App] that act on the notes

    The calls of the speech hook in these handlers show here only through
    [latestFinalSegment], which [resetTranscript] empties. *)

(** [onNoteSelect={setCurrentNote}] and the render that follows:
    [currentNote] has changed, so the segment effect runs. *)
Definition selectNote (now : jsstring) (note : Note) (s : State) : State :=
  segmentEffect now (setCurrentNote (Some note) s).

(** [handleNewNote] and the render that follows: [createNote], then
    [setCurrentNote(newNote)], then the segment effect, which runs because
    [currentNote] has changed; [now] is the time reading of an
    [appendToNote] in that run. *)
Definition handleNewNote (nowId createdIso updatedIso localeDate now : jsstring)
    (s : State) : State :=
  let '(newNote, s) :=
    createNote nowId createdIso updatedIso localeDate [] (js "general") s in
  selectNote now newNote s.

Definition handleReset (now : jsstring) (s : State) : State :=
  let cur := currentNote s in
  let s := setLatestFinalSegment [] s in
  match cur with
  | Some note =>
      updateNote now (id note)
        (mkUpdates None (Some []) None None None None None None) s
  | None => s
  end.

(** [handleStartRecording]: [currentNote] is the one of the render that
    created the handler, also after [createNote]. *)
Definition handleStartRecording
    (nowId createdIso updatedIso localeDate startIso now : jsstring)
    (s : State) : State :=
  let cur := currentNote s in
  let s :=
    match cur with
    | None =>
        let '(newNote, s) :=
          createNote nowId createdIso updatedIso localeDate [] (js "general") s in
        setCurrentNote (Some newNote) s
    | Some _ => s
    end in
  let s := setLatestFinalSegment [] s in
  match cur with
  | Some note => startRecording startIso now (id note) s
  | None => s
  end.

Definition handleStopRecording (endIso now : jsstring) (elapsed : jsstring -> Z)
    (s : State) : State :=
  match currentNote s with
  | Some note => stopRecording endIso now elapsed (id note) s
  | None => s
  end.

(** The final segments of a session, each with the time of the render
    that follows it, delivered in order. *)
Definition deliverAll (segs : list (jsstring * jsstring)) (s : State) : State :=
  fold_left (fun s e => deliver (fst e) (snd e) s) segs s.

(** The segments that the effect appends when the last segment it has
    processed is [last]: the empty ones and those equal to their
    predecessor are left out. *)
Fixpoint accepted (last : jsstring) (segs : list jsstring) : list jsstring :=
  match segs with
  | [] => []
  | seg :: segs' =>
      if truthy seg && negb (strEq seg last)
      then seg :: accepted seg segs'
      else accepted last segs'
  end.

(** The content of a note after the segments [segs] have been appended. *)
Definition appendAll (segs : list jsstring) (old : jsstring) : jsstring :=
  fold_left (fun c seg => newContent seg c) segs old.

End Notes.

(** ** Sample inputs *)

Module Examples.

Definition text210 : jsstring := replicate 210 97%N.
Definition text60 : jsstring := replicate 60 97%N.

(** The robust hook after [startListening], with and without a registered
    auto-push callback. *)
Definition robustListening : Robust.State :=
  Robust.startListening false (Robust.initial 0).

Definition robustPushing : Robust.State :=
  Robust.setAutoPushCallback robustListening.

(** The auto-push hook, listening, with a registered callback. *)
Definition autoPushListening : AutoPush.State :=
  AutoPush.setAutoPushCallback
    (AutoPush.setBase (Basic.startListening false Basic.initial)
       (AutoPush.initial 0)).

(** The same hook holding a partial result of 60 characters. *)
Definition autoPushHolding : AutoPush.State :=
  AutoPush.handleResult 0 (Partial text60) autoPushListening.

(** The robust hook in a backoff of four seconds: two restart rounds have
    failed, a [network] error has queued its own timer, and the timer of
    the next restart is pending.  The handlers and timers of this session
    were created while listening. *)
Definition robustBackingOff : Robust.State :=
  Robust.restartRecognition true
    (Robust.onerror true (js "network")
       (Robust.restartRound true (Robust.restartRound true robustListening))).

(** A session of the robust hook from [startListening] on: the render
    that follows, the monitor that finds no result after 30 seconds and
    restarts the recognition, whose handlers are therefore created while
    listening. *)
Definition robustRunning : Robust.State :=
  Robust.runCallbacks
    [Robust.Rerender; Robust.MonitorTick 30001; Robust.RestartTimeout false;
     Robust.OnStart 31100]
    robustListening.

(** The same session after a [network] error and the [end] event that
    follows it: the timer of [onend] has fired and the timer of the
    restart is pending, the 2000 ms timer of [onerror] is pending too. *)
Definition robustRestarting : Robust.State :=
  Robust.runCallbacks
    [Robust.OnError true (js "network"); Robust.OnEnd true; Robust.Timeout 1]
    robustRunning.

(** The session [robustRestarting] after the engine has reported that the
    permission for the microphone is gone, and the render that follows:
    the restart is still marked as in flight, its timer is cleared. *)
Definition robustWedged : Robust.State :=
  Robust.runCallbacks [Robust.OnError true (js "not-allowed"); Robust.Rerender]
    robustRestarting.

Definition sampleNote : Notes.Note :=
  Notes.mkNote (js "1700000000000") (js "Meeting") (js "first words")
    (js "2024-01-01T10:00:00.000Z") (js "2024-01-01T10:00:00.000Z") 0 2
    (js "en-US") true (js "general") [] (js "normal") false false
    (Notes.mkMetadata None None 0 [] [] []).

Definition sampleApp : Notes.State :=
  Notes.mkState [] [] (Some sampleNote) [sampleNote].

End Examples.

(** ** Proof automation *)

(** Projections of updated states, without unfolding strings and
    comparisons. *)
Ltac hsimpl :=
  cbn -[space trim Nat.ltb Z.ltb Z.min Z.mul Z.add strEq js Robust.scan
        Qeq_bool lookup delete app] in *.

(** Case analysis on every test a handler makes. *)
Ltac handler_cases :=
  hsimpl;
  repeat (match goal with
          | |- context [if ?b then _ else _] => destruct b eqn:?
          | |- context [match ?x with Some _ => _ | None => _ end] =>
              destruct x eqn:?
          | |- context [match ?x with Robust.RestartAfter _ _ => _ | _ => _ end] =>
              destruct x eqn:?
          | |- context [match ?x with (_, _) => _ end] => destruct x eqn:?
          end; hsimpl).

(** * Properties *)

(** ** Strings *)

Lemma strEq_refl a : strEq a a = true.
Proof. induction a as [|x a IH]; simpl; [done|]. by rewrite N.eqb_refl, IH. Qed.

Lemma strEq_eq a b : strEq a b = true <-> a = b.
Proof.
  split; [|intros ->; apply strEq_refl].
  revert b. induction a as [|x a IH]; intros [|y b]; simpl; try done.
  intros [Hx Hab]%andb_prop. apply N.eqb_eq in Hx. apply IH in Hab. congruence.
Qed.

Lemma strEq_neq a b : a <> b -> strEq a b = false.
Proof.
  intros Hne. destruct (strEq a b) eqn:E; [|done].
  by apply strEq_eq in E.
Qed.


Lemma trimStart_length s : (length (trimStart s) <= length s)%nat.
Proof.
  induction s as [|c r IH]; simpl; [lia|].
  destruct (isWhiteSpace c); simpl; lia.
Qed.

Lemma trimEnd_length s : (length (trimEnd s) <= length s)%nat.
Proof.
  induction s as [|c r IH]; simpl; [lia|].
  destruct (trimEnd r) as [|d r'].
  - destruct (isWhiteSpace c); simpl; lia.
  - simpl in *. lia.
Qed.

Lemma trimEnd_prefix s : trimEnd s `prefix_of` s.
Proof.
  induction s as [|c r IH]; simpl; [done|].
  destruct (trimEnd r) as [|d r'].
  - destruct (isWhiteSpace c); [apply prefix_nil|].
    apply (prefix_cons c [] r), prefix_nil.
  - by apply prefix_cons.
Qed.

Lemma trimEnd_snoc s c :
  trimEnd (s ++ [c]) = if isWhiteSpace c then trimEnd s else s ++ [c].
Proof.
  induction s as [|d r IH]; simpl.
  - by destruct (isWhiteSpace c).
  - rewrite IH. destruct (isWhiteSpace c); [done|].
    by destruct r.
Qed.

Lemma trimEnd_app s t : trimEnd t <> [] -> trimEnd (s ++ t) = s ++ trimEnd t.
Proof.
  intros Ht. induction s as [|d r IH]; simpl; [done|].
  rewrite IH. destruct r; simpl; [|done].
  by destruct (trimEnd t).
Qed.

Lemma trimStart_app s t :
  trimStart (s ++ t) =
  match trimStart s with [] => trimStart t | _ => trimStart s ++ t end.
Proof.
  induction s as [|c r IH]; simpl; [done|].
  by destruct (isWhiteSpace c).
Qed.

Lemma trimStart_head s :
  match trimStart s with [] => True | c :: _ => isWhiteSpace c = false end.
Proof.
  induction s as [|c r IH]; simpl; [done|].
  destruct (isWhiteSpace c) eqn:E; [done|]. by simpl.
Qed.

Lemma trimEnd_head c r : isWhiteSpace c = false ->
  exists r', trimEnd (c :: r) = c :: r'.
Proof.
  intros E. simpl. destruct (trimEnd r) as [|d r'].
  - rewrite E. by exists [].
  - by exists (d :: r').
Qed.

Lemma trimEnd_last s :
  trimEnd s = [] \/ exists r c, trimEnd s = r ++ [c] /\ isWhiteSpace c = false.
Proof.
  induction s as [|c r IH]; simpl; [by left|].
  destruct IH as [->|(r' & d & -> & Hd)].
  - destruct (isWhiteSpace c) eqn:E; [by left|].
    right. by exists [], c.
  - right. exists (c :: r'), d. split; [|done].
    by destruct r'.
Qed.

Lemma trimEnd_idem s : trimEnd (trimEnd s) = trimEnd s.
Proof.
  destruct (trimEnd_last s) as [->|(r & c & -> & Hc)]; [done|].
  by rewrite trimEnd_snoc, Hc.
Qed.

Lemma trimStart_fixed c r : isWhiteSpace c = false -> trimStart (c :: r) = c :: r.
Proof. intros E. simpl. by rewrite E. Qed.

(** What [trim] returns is empty or starts and ends with a character that
    is not white space. *)
Lemma trim_shape s :
  trim s = [] \/
  (exists c r, trim s = c :: r /\ isWhiteSpace c = false) /\
  (exists r c, trim s = r ++ [c] /\ isWhiteSpace c = false).
Proof.
  unfold trim. pose proof (trimStart_head s) as Hh.
  destruct (trimStart s) as [|c r]; [by left|].
  right. split.
  - destruct (trimEnd_head c r Hh) as [r' ->]. by exists c, r'.
  - destruct (trimEnd_last (c :: r)) as [E|H]; [|done].
    destruct (trimEnd_head c r Hh) as [r' E']. congruence.
Qed.

Lemma tight_head s : tight s -> exists c r, s = c :: r /\ isWhiteSpace c = false.
Proof.
  intros [E Hne]. destruct (trim_shape s) as [E'|[H _]]; [congruence|].
  by rewrite E in H.
Qed.

Lemma tight_last s : tight s -> exists r c, s = r ++ [c] /\ isWhiteSpace c = false.
Proof.
  intros [E Hne]. destruct (trim_shape s) as [E'|[_ H]]; [congruence|].
  by rewrite E in H.
Qed.

Lemma trim_tight s : trim s <> [] -> tight (trim s).
Proof.
  intros Hne. split; [|done].
  destruct (trim_shape s) as [E|[(c & r & E & Hc) _]]; [done|].
  unfold trim at 1. rewrite E, (trimStart_fixed _ _ Hc), <- E.
  apply trimEnd_idem.
Qed.

(** A tight text followed by the separator: [trim] removes the separator
    and nothing else. *)
Lemma trim_tight_space s : tight s -> trim (s ++ space) = s.
Proof.
  intros Hs. destruct (tight_head s Hs) as (c & r & -> & Hc).
  unfold trim. change ((c :: r) ++ space) with (c :: (r ++ space)).
  rewrite (trimStart_fixed _ _ Hc).
  change (c :: (r ++ space)) with ((c :: r) ++ [32%N]).
  rewrite trimEnd_snoc. simpl isWhiteSpace. cbv iota.
  destruct (tight_last (c :: r) Hs) as (r' & d & -> & Hd).
  by rewrite trimEnd_snoc, Hd.
Qed.

(** Appending a tight segment and the separator extends the trimmed text. *)
Lemma trim_append_prefix s t :
  tight t -> trim s `prefix_of` trim (s ++ t ++ space).
Proof.
  intros Ht. unfold trim. rewrite trimStart_app.
  destruct (trimStart s) as [|c r] eqn:E; [apply prefix_nil|].
  assert (Hte : trimEnd (t ++ space) = t).
  { destruct (tight_last t Ht) as (r' & d & -> & Hd).
    change space with [32%N]. rewrite trimEnd_snoc. simpl isWhiteSpace. cbv iota.
    by rewrite trimEnd_snoc, Hd. }
  rewrite trimEnd_app; rewrite Hte; [|by destruct Ht].
  apply prefix_app_r, trimEnd_prefix.
Qed.


Lemma tight_intro s :
  (exists c r, s = c :: r /\ isWhiteSpace c = false) ->
  (exists r c, s = r ++ [c] /\ isWhiteSpace c = false) ->
  tight s.
Proof.
  intros (c & r & E & Hc) (r' & d & E' & Hd). split; [|by subst].
  unfold trim. rewrite E, (trimStart_fixed _ _ Hc), <- E, E'.
  by rewrite trimEnd_snoc, Hd.
Qed.

Lemma tight_join a m b : tight a -> tight b -> tight (a ++ m ++ b).
Proof.
  intros Ha Hb. apply tight_intro.
  - destruct (tight_head a Ha) as (c & r & -> & Hc). by exists c, (r ++ m ++ b).
  - destruct (tight_last b Hb) as (r & c & -> & Hc).
    exists (a ++ m ++ r), c. by rewrite <- !app_assoc.
Qed.

(** ** Final texts and the separator *)

Lemma spaced_app ts us : spaced (ts ++ us) = spaced ts ++ spaced us.
Proof. unfold spaced. by rewrite map_app, concat_app. Qed.

Lemma allFinalTexts_app evs evs' :
  allFinalTexts (evs ++ evs') = allFinalTexts evs ++ allFinalTexts evs'.
Proof. unfold allFinalTexts. by rewrite map_app, concat_app. Qed.

(** Tight texts joined by the separator form a tight text followed by the
    separator. *)
Lemma spaced_tight ts :
  ts <> [] -> Forall tight ts -> exists u, tight u /\ spaced ts = u ++ space.
Proof.
  induction ts as [|t ts IH]; [done|]. intros _ Hall.
  apply Forall_cons in Hall as [Ht Hts].
  destruct ts as [|t' ts'].
  - exists t. split; [done|]. unfold spaced. simpl. by rewrite app_nil_r.
  - destruct IH as (u & Hu & E); [done|done|].
    exists (t ++ space ++ u). split; [by apply tight_join|].
    change (spaced (t :: t' :: ts')) with ((t ++ space) ++ spaced (t' :: ts')).
    rewrite E. by rewrite <- !app_assoc.
Qed.

(** ** The transcript of the basic hook *)

Lemma Basic_scan_acc rs (i f : jsstring) c :
  exists c', fold_left Basic.scanStep rs (i, f, c)
             = (i ++ interimOf rs, f ++ spaced (finalsOf rs), c').
Proof.
  revert i f c. induction rs as [|r rs IH]; intros i f c.
  - exists c. simpl. by rewrite !app_nil_r.
  - cbn [fold_left interimOf finalsOf]. unfold Basic.scanStep at 2.
    destruct (isFinal r).
    + destruct (IH i (f ++ transcriptPart r ++ space) (resultConfidence r))
        as [c' E].
      exists c'. etrans; [exact E|]. f_equal. f_equal.
      change (spaced (transcriptPart r :: finalsOf rs))
        with ((transcriptPart r ++ space) ++ spaced (finalsOf rs)).
      by rewrite <- !app_assoc.
    + destruct (IH (i ++ transcriptPart r) f c) as [c' E].
      exists c'. etrans; [exact E|]. by rewrite <- app_assoc.
Qed.

Lemma truthy_false s : truthy s = false -> s = [].
Proof. by destruct s. Qed.

Lemma truthy_true s : truthy s = true -> s <> [].
Proof. by destruct s. Qed.

Lemma Basic_onresult_ref ev s :
  Basic.finalTranscriptRef (Basic.onresult ev s)
  = Basic.finalTranscriptRef s ++ spaced (finalTexts ev).
Proof.
  unfold Basic.onresult, Basic.scan, finalTexts.
  destruct (Basic_scan_acc (processed ev) [] [] (Basic.confidence s)) as [c' ->].
  simpl. destruct (truthy (spaced (finalsOf (processed ev)))) eqn:E; simpl; [done|].
  apply truthy_false in E. by rewrite E, app_nil_r.
Qed.

Lemma Basic_onresult_interim ev s :
  Basic.interimTranscript (Basic.onresult ev s) = interimOf (processed ev).
Proof.
  unfold Basic.onresult, Basic.scan.
  destruct (Basic_scan_acc (processed ev) [] [] (Basic.confidence s)) as [c' ->].
  by destruct (truthy _).
Qed.

Lemma Basic_onresult_sync ev s :
  Basic.transcript s = trim (Basic.finalTranscriptRef s) ->
  Basic.transcript (Basic.onresult ev s)
  = trim (Basic.finalTranscriptRef (Basic.onresult ev s)).
Proof.
  intros Hs. unfold Basic.onresult, Basic.scan.
  destruct (Basic_scan_acc (processed ev) [] [] (Basic.confidence s)) as [c' ->].
  by destruct (truthy _).
Qed.

Lemma Basic_run_spec evs s :
  Basic.transcript s = trim (Basic.finalTranscriptRef s) ->
  Basic.finalTranscriptRef (Basic.run evs s)
  = Basic.finalTranscriptRef s ++ spaced (allFinalTexts evs)
  /\ Basic.transcript (Basic.run evs s)
     = trim (Basic.finalTranscriptRef (Basic.run evs s)).
Proof.
  revert s. induction evs as [|ev evs IH]; intros s Hs; simpl.
  - unfold allFinalTexts, spaced. simpl. by rewrite app_nil_r.
  - destruct (IH (Basic.onresult ev s) (Basic_onresult_sync ev s Hs)) as [E1 E2].
    split; [|done]. fold (Basic.run evs (Basic.onresult ev s)).
    rewrite E1, Basic_onresult_ref.
    change (allFinalTexts (ev :: evs)) with (finalTexts ev ++ allFinalTexts evs).
    by rewrite spaced_app, app_assoc.
Qed.

(** ** The transcript of the robust hook *)

Lemma Robust_scan_acc ap rs (i f : jsstring) c p :
  exists c' p', fold_left (Robust.scanStep ap) rs (i, f, c, p)
                = (i ++ interimOf rs, f ++ spaced (finalsOf rs), c', p').
Proof.
  revert i f c p. induction rs as [|r rs IH]; intros i f c p.
  - exists c, p. simpl. by rewrite !app_nil_r.
  - cbn [fold_left interimOf finalsOf]. unfold Robust.scanStep at 2.
    destruct (isFinal r).
    + edestruct IH as (c' & p' & E).
      exists c', p'. etrans; [exact E|]. do 3 f_equal.
      change (spaced (transcriptPart r :: finalsOf rs))
        with ((transcriptPart r ++ space) ++ spaced (finalsOf rs)).
      by rewrite <- !app_assoc.
    + edestruct IH as (c' & p' & E).
      exists c', p'. etrans; [exact E|]. by rewrite <- app_assoc.
Qed.

Lemma Robust_onresult_ref now ev s :
  Robust.finalTranscriptRef (Robust.onresult now ev s)
  = Robust.finalTranscriptRef s ++ Robust.appended ev.
Proof.
  unfold Robust.onresult, Robust.scan, Robust.appended, finalTexts.
  edestruct (Robust_scan_acc) as (c' & p' & ->). simpl.
  destruct (truthy (trim (spaced (finalsOf (processed ev))))) eqn:E; simpl.
  - by destruct (_ && _).
  - rewrite app_nil_r. by destruct (_ && _).
Qed.

Lemma Robust_onresult_sync now ev s :
  Robust.transcript s = trim (Robust.finalTranscriptRef s) ->
  Robust.transcript (Robust.onresult now ev s)
  = trim (Robust.finalTranscriptRef (Robust.onresult now ev s)).
Proof.
  intros Hs. unfold Robust.onresult, Robust.scan.
  edestruct (Robust_scan_acc) as (c' & p' & ->). simpl.
  destruct (truthy (trim _)); simpl; by destruct (_ && _).
Qed.

Lemma Robust_appended_tight ev :
  Forall tight (finalTexts ev) -> Robust.appended ev = spaced (finalTexts ev).
Proof.
  intros Hall. unfold Robust.appended.
  destruct (finalTexts ev) as [|t ts] eqn:E; [done|].
  destruct (spaced_tight (t :: ts)) as (u & Hu & ->); [done|done|].
  rewrite (trim_tight_space u Hu).
  destruct Hu as [_ Hne]. by destruct u.
Qed.

Lemma Robust_run_sync evs s :
  Robust.transcript s = trim (Robust.finalTranscriptRef s) ->
  Robust.transcript (Robust.run evs s)
  = trim (Robust.finalTranscriptRef (Robust.run evs s)).
Proof.
  revert s. induction evs as [|[now ev] evs IH]; intros s Hs; [done|].
  apply (IH (Robust.onresult now ev s)), Robust_onresult_sync, Hs.
Qed.

Lemma Robust_run_ref evs s :
  Forall tight (allFinalTexts (map snd evs)) ->
  Robust.finalTranscriptRef (Robust.run evs s)
  = Robust.finalTranscriptRef s ++ spaced (allFinalTexts (map snd evs)).
Proof.
  revert s. induction evs as [|[now ev] evs IH]; intros s Hall.
  - unfold allFinalTexts, spaced. simpl. by rewrite app_nil_r.
  - change (allFinalTexts (map snd ((now, ev) :: evs)))
      with (finalTexts ev ++ allFinalTexts (map snd evs)) in *.
    apply Forall_app in Hall as [Hev Hevs].
    change (Robust.run ((now, ev) :: evs) s)
      with (Robust.run evs (Robust.onresult now ev s)).
    rewrite (IH _ Hevs), Robust_onresult_ref, (Robust_appended_tight ev Hev).
    by rewrite spaced_app, app_assoc.
Qed.

Lemma Robust_onresult_prefix now ev s :
  Robust.transcript s = trim (Robust.finalTranscriptRef s) ->
  Robust.transcript s `prefix_of` Robust.transcript (Robust.onresult now ev s).
Proof.
  intros Hs. rewrite (Robust_onresult_sync now ev s Hs), Robust_onresult_ref, Hs.
  unfold Robust.appended.
  destruct (truthy (trim (spaced (finalTexts ev)))) eqn:E.
  - apply trim_append_prefix, trim_tight. by apply truthy_true.
  - by rewrite app_nil_r.
Qed.

(** ** The transcript of the streaming hook *)

Lemma last_default_cons {A} (d d' x : A) l :
  default d (last (x :: l)) = default d' (last (x :: l)).
Proof.
  revert x. induction l as [|y l IH]; intros x; [done|].
  change (last (x :: y :: l)) with (last (y :: l)). apply IH.
Qed.

Lemma Streaming_run_last ms s :
  Streaming.transcript (Streaming.run ms s)
  = default (Streaming.transcript s) (last (Streaming.finalTexts ms)).
Proof.
  revert s. induction ms as [|m ms IH]; intros s; [done|].
  change (Streaming.run (m :: ms) s)
    with (Streaming.run ms (Streaming.onmessage m s)).
  rewrite IH. unfold Streaming.onmessage. cbn [Streaming.finalTexts].
  destruct (strEq (Streaming.msgType m) (js "Turn")); [|done].
  destruct (Streaming.end_of_turn m); simpl.
  - destruct (truthy (Streaming.msgTranscript m)); [|done]. simpl.
    destruct (Streaming.finalTexts ms) as [|t ts]; [done|].
    change (last (Streaming.msgTranscript m :: t :: ts)) with (last (t :: ts)).
    apply last_default_cons.
  - by destruct (truthy (Streaming.msgTranscript m)).
Qed.

(** ** Forced flushes of interim text *)

(** The state [checkAndPushInterim] produces when it flushes. *)
Lemma AutoPush_check_flushes now s :
  AutoPush.autoPushCallbackRef s = true ->
  ((200 < length (AutoPush.interimTranscript s))%nat
   \/ (50 < length (AutoPush.interimTranscript s))%nat
      /\ (10000 < now - AutoPush.lastPushTimeRef s)%Z) ->
  let s' := AutoPush.checkAndPushInterim now s in
  AutoPush.pushed s' = AutoPush.pushed s ++ [AutoPush.interimTranscript s]
  /\ AutoPush.finalTranscriptRef s'
     = AutoPush.finalTranscriptRef s ++ AutoPush.interimTranscript s ++ space
  /\ AutoPush.transcript s'
     = trim (AutoPush.finalTranscriptRef s ++ AutoPush.interimTranscript s ++ space)
  /\ AutoPush.interimTranscript s' = []
  /\ AutoPush.lastPushTimeRef s' = now.
Proof.
  intros Hcb Hlen. unfold AutoPush.checkAndPushInterim.
  assert (Hcond :
    truthy (AutoPush.interimTranscript s)
    && ((200 <? length (AutoPush.interimTranscript s))%nat
        || ((50 <? length (AutoPush.interimTranscript s))%nat
            && (10000 <? now - AutoPush.lastPushTimeRef s)%Z)) = true).
  { apply andb_true_intro. split.
    - destruct (AutoPush.interimTranscript s); [simpl in Hlen; lia|done].
    - apply orb_true_iff. destruct Hlen as [H|[H1 H2]].
      + left. by apply Nat.ltb_lt.
      + right. apply andb_true_intro. split; [by apply Nat.ltb_lt|by apply Z.ltb_lt]. }
  rewrite Hcond, Hcb. by cbv zeta.
Qed.

(** A result event that carries one partial result only replaces the
    interim text of the basic handlers. *)
Lemma Basic_onresult_Partial text s :
  Basic.onresult (Partial text) s
  = Basic.setInterimTranscript text (Basic.setConfidence (Basic.confidence s) s).
Proof. done. Qed.

Lemma AutoPush_handle_long_partial now text s :
  (200 < length text)%nat ->
  AutoPush.autoPushCallbackRef s = true ->
  AutoPush.isListening s = true ->
  AutoPush.interimTranscript s <> text ->
  let s' := AutoPush.handleResult now (Partial text) s in
  AutoPush.pushed s' = AutoPush.pushed s ++ [text]
  /\ AutoPush.finalTranscriptRef s' = AutoPush.finalTranscriptRef s ++ text ++ space
  /\ AutoPush.transcript s' = trim (AutoPush.finalTranscriptRef s ++ text ++ space)
  /\ AutoPush.interimTranscript s' = [].
Proof.
  intros Hlen Hcb Hl Hne. unfold AutoPush.handleResult.
  set (s1 := AutoPush.onresult (Partial text) s).
  assert (Hi : AutoPush.interimTranscript s1 = text) by done.
  rewrite Hi, (strEq_neq text _ (not_eq_sym Hne)).
  unfold AutoPush.interimEffect.
  assert (Hl1 : AutoPush.isListening s1 = true) by exact Hl.
  rewrite Hl1, Hi.
  assert (Ht : truthy text = true) by (destruct text; [simpl in Hlen; lia|done]).
  rewrite Ht. cbn [andb].
  destruct (AutoPush_check_flushes now s1) as (E1 & E2 & E3 & E4 & _);
    [exact Hcb|left; by rewrite Hi|].
  rewrite Hi in *. by repeat split.
Qed.

(** In the robust hook only the interim text and the call log change when
    a long partial result arrives; a short one is held. *)
Lemma Robust_onresult_Partial now text s :
  Robust.onresult now (Partial text) s =
  let s1 := Robust.setInterimTranscript text
              (Robust.setPushed (Robust.pushed s)
                 (Robust.setConfidence (Robust.confidence s)
                    (Robust.setLastResultTimeRef now s))) in
  if (150 <? length text)%nat && Robust.autoPushCallbackRef s
  then Robust.setInterimTranscript []
         (Robust.setPushed (Robust.pushed s ++ [text]) s1)
  else s1.
Proof. done. Qed.

(** ** The controller of the robust hook *)

Lemma Robust_onresult_control now ev s :
  let s' := Robust.onresult now ev s in
  Robust.isListening s' = Robust.isListening s
  /\ Robust.startCalls s' = Robust.startCalls s
  /\ Robust.restartTimeoutRef s' = Robust.restartTimeoutRef s
  /\ Robust.timeouts s' = Robust.timeouts s
  /\ Robust.error s' = Robust.error s.
Proof.
  unfold Robust.onresult.
  destruct (Robust.scan _ _ _ _) as [[[i f] c] p].
  handler_cases; done.
Qed.


Lemma Robust_restartRecognition_idle s : Robust.restartRecognition false s = s.
Proof. unfold Robust.restartRecognition. by rewrite orb_true_r. Qed.

Lemma forallb_delete {A} (f : A -> bool) (l : list A) i :
  forallb f l = true -> forallb f (delete i l) = true.
Proof.
  revert i. induction l as [|x l IH]; intros i H; [done|].
  cbn [forallb] in H. apply andb_prop in H as [Hx Hl].
  destruct i as [|i]; [done|].
  change (delete (S i) (x :: l)) with (x :: delete i l).
  cbn [forallb]. by rewrite Hx, IH.
Qed.

Lemma forallb_lookup {A} (f : A -> bool) (l : list A) i x :
  forallb f l = true -> l !! i = Some x -> f x = true.
Proof.
  revert i. induction l as [|y l IH]; intros i H Hi; [done|].
  cbn [forallb] in H. apply andb_prop in H as [Hy Hl].
  destruct i as [|i]; [by injection Hi as <-|]. by apply (IH i).
Qed.

(** When the state is not listening and no closure that saw [isListening]
    true is left, no callback calls [recognition.start()], and it stays
    so. *)
Lemma Robust_idle_step c s :
  Robust.isListening s = false ->
  Robust.noStaleTimer s = true ->
  Robust.seesIdle c = true ->
  Robust.isListening (Robust.dispatch s c) = false
  /\ Robust.noStaleTimer (Robust.dispatch s c) = true
  /\ Robust.startCalls (Robust.dispatch s c) = Robust.startCalls s.
Proof.
  intros H Hn Hc. unfold Robust.noStaleTimer in *.
  apply andb_prop in Hn as [Hto Hrt].
  destruct c as [now ev|l e|l|now|th|i|now| | ]; cbn [Robust.dispatch].
  - destruct (Robust_onresult_control now ev s) as (-> & -> & -> & -> & _).
    by rewrite Hto, Hrt.
  - cbn [Robust.seesIdle] in Hc. apply negb_true_iff in Hc. subst l.
    unfold Robust.onerror, Robust.addTimeout.
    handler_cases; rewrite ?forallb_app, ?Hto, ?Hrt; done.
  - cbn [Robust.seesIdle] in Hc. apply negb_true_iff in Hc. subst l.
    unfold Robust.onend. cbn [andb]. by rewrite Hto, Hrt.
  - hsimpl. by rewrite Hto, Hrt.
  - unfold Robust.restartTimeoutFire.
    destruct (Robust.restartTimeoutRef s) as [[d l]|] eqn:E.
    + apply negb_true_iff in Hrt. subst l. hsimpl. by rewrite Hto.
    + by rewrite Hto, E.
  - unfold Robust.fireTimeout.
    destruct (Robust.timeouts s !! i) as [t|] eqn:E; [|by rewrite Hto, Hrt].
    pose proof (forallb_lookup _ _ _ _ Hto E) as Ht.
    apply negb_true_iff in Ht.
    assert (Hd := forallb_delete _ _ i Hto).
    destruct t as [d l|l]; cbn [Robust.timerSees] in Ht; subst l; cbv zeta iota.
    + rewrite Robust_restartRecognition_idle. hsimpl. by rewrite Hd, Hrt.
    + hsimpl. by rewrite Hd, Hrt.
  - unfold Robust.monitorTick. by rewrite H, Hto, Hrt.
  - unfold Robust.rotationTick. by rewrite H, Hto, Hrt.
  - unfold Robust.rerender. hsimpl. by rewrite Hto.
Qed.

Lemma Robust_idle_run cs : forall s,
  Robust.isListening s = false ->
  Robust.noStaleTimer s = true ->
  forallb Robust.seesIdle cs = true ->
  Robust.isListening (Robust.runCallbacks cs s) = false
  /\ Robust.startCalls (Robust.runCallbacks cs s) = Robust.startCalls s.
Proof.
  induction cs as [|c cs IH]; intros s H Hn Hcs; [done|].
  cbn [forallb] in Hcs. apply andb_prop in Hcs as [Hc Hcs].
  destruct (Robust_idle_step c s H Hn Hc) as (H1 & H2 & H3).
  destruct (IH (Robust.dispatch s c) H1 H2 Hcs) as [H4 H5].
  split; [exact H4|]. etrans; [exact H5|exact H3].
Qed.

(** Callbacks other than [onresult] leave the transcripts and the call log
    of the auto-push callback alone. *)
Lemma Robust_control_keeps_text c s :
  match c with
  | Robust.OnResult _ _ => True
  | _ =>
      Robust.pushed (Robust.dispatch s c) = Robust.pushed s
      /\ Robust.interimTranscript (Robust.dispatch s c) = Robust.interimTranscript s
      /\ Robust.transcript (Robust.dispatch s c) = Robust.transcript s
      /\ Robust.finalTranscriptRef (Robust.dispatch s c) = Robust.finalTranscriptRef s
  end.
Proof.
  destruct c as [now ev|l e|l|now|th|i|now| | ]; cbn [Robust.dispatch]; [done|..].
  - unfold Robust.onerror, Robust.addTimeout. handler_cases; done.
  - unfold Robust.onend, Robust.addTimeout. handler_cases; done.
  - done.
  - unfold Robust.restartTimeoutFire, Robust.restartRecognition.
    handler_cases; done.
  - unfold Robust.fireTimeout, Robust.restartRecognition. handler_cases; done.
  - unfold Robust.monitorTick, Robust.restartRecognition. handler_cases; done.
  - unfold Robust.rotationTick, Robust.restartRecognition. handler_cases; done.
  - done.
Qed.

(** What a result event pushes and commits does not depend on the interim
    text held before it. *)
Lemma Robust_onresult_ignores_interim now ev held s :
  let s1 := Robust.onresult now ev (Robust.setInterimTranscript held s) in
  let s2 := Robust.onresult now ev s in
  Robust.pushed s1 = Robust.pushed s2
  /\ Robust.transcript s1 = Robust.transcript s2
  /\ Robust.finalTranscriptRef s1 = Robust.finalTranscriptRef s2
  /\ Robust.interimTranscript s1 = Robust.interimTranscript s2.
Proof.
  unfold Robust.onresult. hsimpl.
  destruct (Robust.scan _ _ _ _) as [[[i f] c] p].
  handler_cases; done.
Qed.

(** One restart round whose [start()] raises. *)
Lemma Robust_restartRecognition_armed s :
  Robust.isRestartingRef s = false ->
  Robust.restartRecognition true s
  = Robust.setRestartTimeoutRef
      (Some (Z.min (Robust.restartDelayRef s) 10000, true))
      (Robust.setIsRestartingRef true s).
Proof. intros Hr. unfold Robust.restartRecognition. by rewrite Hr. Qed.

Lemma Robust_restartTimeoutFire_throws s d :
  Robust.restartTimeoutRef s = Some (d, true) ->
  Robust.isRestartingRef s = true ->
  Robust.restartTimeoutFire true s =
  let s1 := Robust.setRestartDelayRef (Robust.restartDelayRef s * 2)
      (Robust.setConsecutiveErrorsRef (Robust.consecutiveErrorsRef s + 1)
        (Robust.setStartCalls (S (Robust.startCalls s))
          (Robust.setRestartTimeoutRef None s))) in
  Robust.setIsRestartingRef false
    (if (Robust.consecutiveErrorsRef s + 1 <? 5)%Z then s1
     else Robust.setIsListening false
            (Robust.setError
               (Some (js "Speech recognition failed after multiple attempts"))
               s1)).
Proof.
  intros Ht Hr. unfold Robust.restartTimeoutFire. rewrite Ht.
  cbv zeta iota.
  unfold Robust.maxConsecutiveErrors.
  match goal with
  | |- context [(?a <? 5)%Z] =>
      change a with (Robust.consecutiveErrorsRef s + 1)%Z
  end.
  destruct (_ <? 5)%Z; [|reflexivity].
  unfold Robust.restartRecognition.
  match goal with
  | |- context [if ?b then _ else _] =>
      change b with (Robust.isRestartingRef s || negb true)
  end.
  rewrite Hr. reflexivity.
Qed.

Lemma Robust_restartRound_throws s :
  Robust.isRestartingRef s = false ->
  Robust.restartTimeoutRef (Robust.restartRecognition true s)
  = Some (Z.min (Robust.restartDelayRef s) 10000, true)
  /\ Robust.restartRound true s =
     let s1 := Robust.setRestartDelayRef (Robust.restartDelayRef s * 2)
         (Robust.setConsecutiveErrorsRef (Robust.consecutiveErrorsRef s + 1)
           (Robust.setStartCalls (S (Robust.startCalls s))
             (Robust.setRestartTimeoutRef None
                (Robust.setIsRestartingRef true s)))) in
     Robust.setIsRestartingRef false
       (if (Robust.consecutiveErrorsRef s + 1 <? 5)%Z then s1
        else Robust.setIsListening false
               (Robust.setError
                  (Some (js "Speech recognition failed after multiple attempts"))
                  s1)).
Proof.
  intros Hr. unfold Robust.restartRound.
  rewrite (Robust_restartRecognition_armed s Hr). split; [done|].
  set (sa := Robust.setRestartTimeoutRef _ _).
  rewrite (Robust_restartTimeoutFire_throws sa
             (Z.min (Robust.restartDelayRef s) 10000) eq_refl eq_refl).
  reflexivity.
Qed.

Lemma Robust_failed_round s k :
  Robust.retrying s k ->
  let s' := Robust.restartRound true s in
  Robust.restartDelayRef s' = (Robust.restartDelayRef s * 2)%Z
  /\ Robust.timeouts s' = Robust.timeouts s
  /\ ((k + 1 < 5)%Z -> Robust.retrying s' (k + 1))
  /\ ((5 <= k + 1)%Z ->
      Robust.isListening s' = false
      /\ Robust.error s'
         = Some (js "Speech recognition failed after multiple attempts")
      /\ Robust.restartTimeoutRef s' = None).
Proof.
  intros (Hl & Hr & Ht & Hk). cbv zeta.
  destruct (Robust_restartRound_throws s Hr) as [_ ->]. cbv zeta.
  rewrite Hk. unfold Robust.retrying.
  destruct (k + 1 <? 5)%Z eqn:E.
  - apply Z.ltb_lt in E. repeat split; try done; lia.
  - apply Z.ltb_ge in E. repeat split; try done; lia.
Qed.


Lemma Robust_backoff_capped n : forall d,
  (10000 <= d)%Z -> Robust.backoff n d = replicate n (Some 10000%Z).
Proof.
  induction n as [|n IH]; intros d Hd; [done|].
  cbn [Robust.backoff replicate]. rewrite Z.min_r by lia.
  f_equal. apply IH. lia.
Qed.

Lemma Robust_onerror_network l s :
  Robust.onerror l (js "network") s =
  let s := Robust.setConsecutiveErrorsRef (Robust.consecutiveErrorsRef s + 1) s in
  let s := Robust.setError (Some (js "Network error - check your connection")) s in
  if (Robust.consecutiveErrorsRef s <? Robust.maxConsecutiveErrors)%Z
  then Robust.addTimeout (Robust.RestartAfter 2000 l) s
  else Robust.setIsListening false s.
Proof. done. Qed.

Lemma Robust_onerror_unknown l e s :
  Robust.namedError e = false ->
  Robust.onerror l e s =
  let s := Robust.setConsecutiveErrorsRef (Robust.consecutiveErrorsRef s + 1) s in
  if (Robust.consecutiveErrorsRef s <? Robust.maxConsecutiveErrors)%Z && l
  then Robust.addTimeout (Robust.RestartAfter 1000 l) s
  else Robust.setIsListening false
         (Robust.setError (Some (js "Speech recognition error: " ++ e)) s).
Proof.
  unfold Robust.namedError. intros H.
  repeat (apply orb_false_elim in H as [H ?]).
  unfold Robust.onerror.
  repeat match goal with E : strEq _ _ = false |- _ => rewrite E; clear E end.
  done.
Qed.

(** A counted failure below the budget leaves the controller retrying. *)
Lemma Robust_fail_retrying f s k :
  Robust.wellFormed f = true -> Robust.retrying s k -> (k + 1 < 5)%Z ->
  Robust.retrying (Robust.fail s f) (k + 1).
Proof.
  intros Hwf Hs Hk. destruct f as [|e|]; cbn [Robust.fail].
  - destruct Hs as (Hl & Hr & Ht & Hc). rewrite Robust_onerror_network.
    hsimpl. rewrite Hc. unfold Robust.maxConsecutiveErrors.
    replace (k + 1 <? 5)%Z with true by (symmetry; by apply Z.ltb_lt).
    by repeat split.
  - destruct Hs as (Hl & Hr & Ht & Hc).
    rewrite Robust_onerror_unknown by (by apply negb_true_iff).
    hsimpl. rewrite Hc. unfold Robust.maxConsecutiveErrors.
    replace (k + 1 <? 5)%Z with true by (symmetry; by apply Z.ltb_lt).
    by repeat split.
  - by apply (Robust_failed_round s k Hs).
Qed.

Lemma Robust_failAll_retrying fs : forall s k,
  forallb Robust.wellFormed fs = true -> Robust.retrying s k ->
  (k + Z.of_nat (length fs) < 5)%Z ->
  Robust.retrying (Robust.failAll fs s) (k + Z.of_nat (length fs)).
Proof.
  induction fs as [|f fs IH]; intros s k Hwf Hs Hk.
  - simpl. by rewrite Z.add_0_r.
  - cbn [forallb] in Hwf. apply andb_prop in Hwf as [Hf Hfs].
    cbn [length] in *. rewrite Nat2Z.inj_succ in *.
    change (Robust.failAll (f :: fs) s)
      with (Robust.failAll fs (Robust.fail s f)).
    replace (k + Z.succ (Z.of_nat (length fs)))%Z
      with ((k + 1) + Z.of_nat (length fs))%Z by lia.
    apply IH; [done| |lia].
    apply Robust_fail_retrying; [done|done|lia].
Qed.

(** The failure that brings the count to [maxConsecutiveErrors] is fatal
    and schedules nothing. *)
Lemma Robust_fail_fatal f s :
  Robust.wellFormed f = true -> Robust.retrying s 4 ->
  let s' := Robust.fail s f in
  Robust.isListening s' = false
  /\ Robust.error s' = Some (Robust.fatalMessage f)
  /\ Robust.restartTimeoutRef s' = None
  /\ Robust.timeouts s' = Robust.timeouts s.
Proof.
  intros Hwf Hs. destruct f as [|e|]; cbn [Robust.fail Robust.fatalMessage].
  - destruct Hs as (Hl & Hr & Ht & Hc). rewrite Robust_onerror_network.
    hsimpl. rewrite Hc. by repeat split.
  - destruct Hs as (Hl & Hr & Ht & Hc).
    rewrite Robust_onerror_unknown by (by apply negb_true_iff).
    hsimpl. rewrite Hc. by repeat split.
  - destruct (Robust_failed_round s 4 Hs) as (_ & Hto & _ & Hfatal).
    destruct Hfatal as (H1 & H2 & H3); [lia|]. by repeat split.
Qed.

(** [stopListening] cancels the restart timer and reports not listening;
    when no closure that saw [isListening] true is left to run, nothing
    calls [recognition.start()] after it. *)
Lemma Robust_stop_then_idle s cs :
  forallb (fun t => negb (Robust.timerSees t)) (Robust.timeouts s) = true ->
  forallb Robust.seesIdle cs = true ->
  let s' := Robust.stopListening s in
  Robust.restartTimeoutRef s' = None
  /\ Robust.isListening s' = false
  /\ Robust.isRestartingRef s' = false
  /\ Robust.startCalls (Robust.runCallbacks cs s') = Robust.startCalls s
  /\ Robust.isListening (Robust.runCallbacks cs s') = false.
Proof.
  intros Hto Hcs. cbv zeta.
  destruct (Robust_idle_run cs (Robust.stopListening s)) as [H1 H2];
    [done| |done|by repeat split].
  unfold Robust.noStaleTimer. hsimpl. by rewrite Hto.
Qed.

(** The [end] event that the browser fires after [recognition.stop()]
    reaches the handler of the stopped recognition object, whose closure
    saw [isListening] true: the recognition is started again although the
    hook reports that it is not listening. *)
Lemma Robust_stop_then_end_restarts :
  let s' := Robust.stopListening Examples.robustRunning in
  let later :=
    Robust.runCallbacks
      [Robust.Rerender; Robust.OnEnd true; Robust.Timeout 0;
       Robust.RestartTimeout false] s' in
  Robust.isListening s' = false
  /\ Robust.startCalls later = S (Robust.startCalls s')
  /\ Robust.isListening later = false.
Proof. vm_compute. done. Qed.

(** ** PCM conversion *)

Lemma truncate_scale_nonneg q k :
  (0 <= k)%Z -> (0 <= q)%Q -> (q <= 1)%Q ->
  (0 <= Streaming.truncate (q * inject_Z k) <= k)%Z.
Proof.
  destruct q as [n d]. unfold Qle, Streaming.truncate. simpl.
  rewrite Pos.mul_1_r. intros Hk H0 H1.
  assert (Hn : (0 <= n <= Z.pos d)%Z) by lia.
  rewrite Z.quot_div_nonneg by lia. split.
  - apply Z.div_pos; lia.
  - apply Z.div_le_upper_bound; [lia|]. nia.
Qed.

Lemma truncate_scale_neg q k :
  (0 <= k)%Z -> (-1 <= q)%Q -> (q <= 0)%Q ->
  (- k <= Streaming.truncate (q * inject_Z k) <= 0)%Z.
Proof.
  destruct q as [n d]. unfold Qle, Streaming.truncate. simpl.
  rewrite Pos.mul_1_r. intros Hk H0 H1.
  assert (Hn : (0 <= - n <= Z.pos d)%Z) by lia.
  replace (n * k)%Z with (- (- n * k))%Z by lia.
  rewrite Z.quot_opp_l by lia.
  rewrite Z.quot_div_nonneg by nia.
  assert (0 <= (- n * k) / Z.pos d <= k)%Z; [|lia].
  split.
  - apply Z.div_pos; nia.
  - apply Z.div_le_upper_bound; [lia|]. nia.
Qed.

Lemma toInt16_in_range q :
  (-32768 <= Streaming.truncate q <= 32767)%Z ->
  Streaming.toInt16 (Streaming.Finite q) = Streaming.truncate q.
Proof.
  intros H. unfold Streaming.toInt16. cbv zeta.
  destruct (32768 <=? Streaming.truncate q mod 65536)%Z eqn:E.
  - apply Z.leb_le in E. Z.to_euclidean_division_equations. lia.
  - apply Z.leb_gt in E. Z.to_euclidean_division_equations. lia.
Qed.

Lemma clampQ_bounds q : (-1 <= Streaming.clampQ q)%Q /\ (Streaming.clampQ q <= 1)%Q.
Proof.
  unfold Streaming.clampQ.
  destruct (Qle_bool q 1) eqn:E1; [|done].
  destruct (Qle_bool (-1) q) eqn:E2; [|done].
  split; by apply Qle_bool_iff.
Qed.

Lemma clamp_Finite q :
  Streaming.clamp (Streaming.Finite q) = Streaming.Finite (Streaming.clampQ q).
Proof.
  unfold Streaming.clamp, Streaming.clampQ, Streaming.mathMin1.
  destruct (Qle_bool q 1); [|done].
  unfold Streaming.mathMaxNeg1. by destruct (Qle_bool (-1) q).
Qed.

Lemma pcm16_Finite q :
  let c := Streaming.clampQ q in
  Streaming.pcm16 (Streaming.Finite q)
  = (if Qle_bool 0 c
     then Streaming.truncate (c * inject_Z 32767)
     else Streaming.truncate (c * inject_Z 32768))
  /\ (-32768 <= Streaming.pcm16 (Streaming.Finite q) <= 32767)%Z.
Proof.
  cbv zeta. unfold Streaming.pcm16. rewrite clamp_Finite.
  destruct (clampQ_bounds q) as [Hlo Hhi].
  unfold Streaming.scale, Streaming.negative.
  destruct (Qle_bool 0 (Streaming.clampQ q)) eqn:E; cbn [negb Streaming.times].
  - apply Qle_bool_iff in E.
    pose proof (truncate_scale_nonneg _ 32767 ltac:(lia) E Hhi) as Hb.
    change (inject_Z 0x7FFF) with (inject_Z 32767).
    rewrite toInt16_in_range by lia. split; [done|lia].
  - assert (Hneg : (Streaming.clampQ q <= 0)%Q).
    { apply Qnot_lt_le. intros Hlt. apply Qlt_le_weak in Hlt.
      apply Qle_bool_iff in Hlt. congruence. }
    pose proof (truncate_scale_neg _ 32768 ltac:(lia) Hlo Hneg) as Hb.
    change (inject_Z 0x8000) with (inject_Z 32768).
    rewrite toInt16_in_range by lia. split; [done|lia].
Qed.

(** ** The note sink *)

Lemma Notes_effect_processed now s :
  Notes.latestFinalSegment s = Notes.lastProcessedSegment s ->
  Notes.segmentEffect now s = s.
Proof.
  intros E. unfold Notes.segmentEffect. rewrite E, strEq_refl.
  destruct (Notes.currentNote s); [|done]. by rewrite andb_false_r.
Qed.

Lemma Notes_effect_marks now s :
  Notes.segmentEffect now s = s
  \/ Notes.latestFinalSegment (Notes.segmentEffect now s)
     = Notes.lastProcessedSegment (Notes.segmentEffect now s).
Proof.
  unfold Notes.segmentEffect. destruct (Notes.currentNote s) as [note|]; [|by left].
  destruct (_ && _); [|by left]. right.
  unfold Notes.appendToNote. by destruct (negb _).
Qed.

Lemma Notes_effect_idem now now' s :
  Notes.segmentEffect now' (Notes.segmentEffect now s) = Notes.segmentEffect now s.
Proof.
  destruct (Notes_effect_marks now s) as [E|E].
  - rewrite E. unfold Notes.segmentEffect.
    destruct (Notes.currentNote s) as [note|] eqn:Hc; [|done].
    destruct (_ && _) eqn:G; [|done].
    (* the effect returned [s] although its guard holds: unfold it in [E] *)
    unfold Notes.segmentEffect in E. rewrite Hc, G in E.
    assert (Hm : Notes.lastProcessedSegment s = Notes.latestFinalSegment s).
    { rewrite <- E at 1. cbn [Notes.lastProcessedSegment Notes.setLastProcessedSegment].
      unfold Notes.appendToNote. by destruct (negb (truthy _)). }
    rewrite Hm, strEq_refl, andb_false_r in G. done.
  - by apply Notes_effect_processed.
Qed.

Lemma Notes_setLatest_same segment s :
  Notes.latestFinalSegment s = segment ->
  Notes.setLatestFinalSegment segment s = s.
Proof. destruct s. simpl. by intros ->. Qed.

Lemma Notes_deliver_once now segment s :
  Notes.deliver now segment s
  = Notes.segmentEffect now (Notes.setLatestFinalSegment segment s).
Proof. apply Notes_effect_idem. Qed.

Lemma Notes_map_contents now noteId text ns :
  Notes.contentsOf noteId
    (map (fun note =>
            if strEq (Notes.id note) noteId
            then Notes.updatedNote now text note else note) ns)
  = map (Notes.newContent text) (Notes.contentsOf noteId ns).
Proof.
  induction ns as [|n ns IH]; [done|].
  cbn [map Notes.contentsOf].
  destruct (strEq (Notes.id n) noteId) eqn:E.
  - cbn [Notes.updatedNote Notes.id Notes.content].
    rewrite E. cbn [map]. by rewrite IH.
  - by rewrite E.
Qed.

Lemma Notes_effect_appends now s note :
  Notes.currentNote s = Some note ->
  Notes.latestFinalSegment s <> [] ->
  Notes.latestFinalSegment s <> Notes.lastProcessedSegment s ->
  let s' := Notes.segmentEffect now s in
  Notes.contentsOf (Notes.id note) (Notes.notes s')
  = map (Notes.newContent (Notes.latestFinalSegment s))
        (Notes.contentsOf (Notes.id note) (Notes.notes s))
  /\ Notes.lastProcessedSegment s' = Notes.latestFinalSegment s
  /\ Notes.latestFinalSegment s' = Notes.latestFinalSegment s.
Proof.
  intros Hc Hne Hnew. unfold Notes.segmentEffect. rewrite Hc.
  rewrite (strEq_neq _ _ Hnew).
  destruct (Notes.latestFinalSegment s) as [|c r] eqn:E; [done|].
  cbn [truthy negb andb]. unfold Notes.appendToNote. cbn [truthy negb].
  cbn [Notes.notes Notes.setCurrentNote Notes.setNotes Notes.setLastProcessedSegment
       Notes.lastProcessedSegment Notes.latestFinalSegment].
  split; [apply Notes_map_contents|]. by rewrite E.
Qed.



(** * The claims of the specification *)

(** C1, counterexample.  The claim says that in every hook the committed
    transcript is the trimmed concatenation of the final texts, each
    followed by one space.  The streaming hook keeps only the text of the
    last final message: after the finals "a" and "b" its transcript is "b",
    not "a b".  The robust hook trims the final segment of every event
    before it appends it: after the finals "a" and " b" its transcript is
    "a b", while the concatenation of the claim has two spaces. *)
Lemma C1_counterexample :
  Streaming.transcript
    (Streaming.run [Streaming.Final (js "a"); Streaming.Final (js "b")]
       Streaming.initial)
  <> trim (spaced [js "a"; js "b"])
  /\ Robust.transcript
       (Robust.run [(0%Z, Final (js "a")); (1%Z, Final (js " b"))]
          (Robust.initial 0))
     <> trim (spaced (allFinalTexts [Final (js "a"); Final (js " b")])).
Proof. split; vm_compute; discriminate. Qed.

(** C1, amended.  For every sequence of result events applied in arrival
    order after a reset, whatever partial results are interleaved: the
    transcript of the basic hook is the trimmed concatenation of the final
    texts, each followed by one space; so is the transcript of the robust
    hook when every final text is non-empty and carries no white space at
    its ends; the transcript of the streaming hook is the text of the last
    final message that has a text (empty when there is none). *)
Theorem C1_committed_transcript
    (b0 : Basic.State) (evs : list Event)
    (r0 : Robust.State) (tevs : list (Z * Event))
    (m0 : Streaming.State) (ms : list Streaming.Message) :
  Forall tight (allFinalTexts (map snd tevs)) ->
  Basic.transcript (Basic.run evs (Basic.resetTranscript b0))
  = trim (spaced (allFinalTexts evs))
  /\ Robust.transcript (Robust.run tevs (Robust.resetTranscript r0))
     = trim (spaced (allFinalTexts (map snd tevs)))
  /\ Streaming.transcript (Streaming.run ms (Streaming.resetTranscript m0))
     = default [] (last (Streaming.finalTexts ms)).
Proof.
  intros Htight. repeat split.
  - destruct (Basic_run_spec evs (Basic.resetTranscript b0) eq_refl) as [E1 E2].
    by rewrite E2, E1.
  - rewrite Robust_run_sync by done. by rewrite Robust_run_ref.
  - apply Streaming_run_last.
Qed.

Lemma C1_committed_transcript_witness :
  Basic.transcript
    (Basic.run [Partial (js "hello wor"); Final (js "hello world");
                Partial (js "and"); Final (js " and more ")]
       (Basic.resetTranscript Basic.initial))
  = trim (spaced [js "hello world"; js " and more "])
  /\ Robust.transcript
       (Robust.run [(1%Z, Partial (js "hello wor")); (2%Z, Final (js "hello world"));
                    (3%Z, Final (js "and more"))]
          (Robust.resetTranscript Examples.robustPushing))
     = trim (spaced [js "hello world"; js "and more"])
  /\ Streaming.transcript
       (Streaming.run [Streaming.Partial (js "hello wor");
                       Streaming.Final (js "hello world");
                       Streaming.Final (js "and more")]
          (Streaming.resetTranscript Streaming.initial))
     = js "and more".
Proof.
  apply (C1_committed_transcript
           Basic.initial
           [Partial (js "hello wor"); Final (js "hello world");
            Partial (js "and"); Final (js " and more ")]
           Examples.robustPushing
           [(1%Z, Partial (js "hello wor")); (2%Z, Final (js "hello world"));
            (3%Z, Final (js "and more"))]
           Streaming.initial
           [Streaming.Partial (js "hello wor");
            Streaming.Final (js "hello world");
            Streaming.Final (js "and more")]).
  repeat constructor; vm_compute; discriminate.
Defined.

(** C2, counterexample.  In the robust hook a partial result of 210
    characters is passed to the registered auto-push callback and the
    interim text is cleared, but nothing is appended to the committed
    transcript: it is still empty. *)
Lemma C2_counterexample :
  let text := Examples.text210 in
  let s := Examples.robustPushing in
  let s' := Robust.onresult 1 (Partial text) s in
  length text = 210%nat
  /\ Robust.pushed s' = [text]
  /\ Robust.interimTranscript s' = []
  /\ Robust.transcript s' = []
  /\ Robust.finalTranscriptRef s' = []
  /\ Robust.transcript s' <> trim (Robust.finalTranscriptRef s ++ text ++ space).
Proof. vm_compute. repeat split; discriminate. Qed.

(** C2, amended.  For every partial result of 210 characters, when an
    auto-push callback is registered: the auto-push hook, while listening
    and when the event changes the interim text, calls the callback once
    with the text, appends the text and a space to the committed
    transcript and clears the interim text; the robust hook calls the
    callback once with the text and clears the interim text, and leaves
    the committed transcript as it is.  Neither waits for a final
    result. *)
Theorem C2_force_flush_long_partial
    (text : jsstring) (now : Z) (a : AutoPush.State) (r : Robust.State) :
  length text = 210%nat ->
  AutoPush.autoPushCallbackRef a = true ->
  AutoPush.isListening a = true ->
  AutoPush.interimTranscript a <> text ->
  Robust.autoPushCallbackRef r = true ->
  let a' := AutoPush.handleResult now (Partial text) a in
  let r' := Robust.onresult now (Partial text) r in
  (AutoPush.pushed a' = AutoPush.pushed a ++ [text]
   /\ AutoPush.finalTranscriptRef a'
      = AutoPush.finalTranscriptRef a ++ text ++ space
   /\ AutoPush.transcript a'
      = trim (AutoPush.finalTranscriptRef a ++ text ++ space)
   /\ AutoPush.interimTranscript a' = [])
  /\ (Robust.pushed r' = Robust.pushed r ++ [text]
      /\ Robust.interimTranscript r' = []
      /\ Robust.finalTranscriptRef r' = Robust.finalTranscriptRef r
      /\ Robust.transcript r' = Robust.transcript r).
Proof.
  intros Hlen Hcb Hl Hne Hrcb. split.
  - apply AutoPush_handle_long_partial; [lia|done..].
  - cbv zeta. rewrite Robust_onresult_Partial. cbv zeta.
    rewrite Hlen, Hrcb. by repeat split.
Qed.

Lemma C2_force_flush_long_partial_witness :
  let text := Examples.text210 in
  let a := Examples.autoPushListening in
  let r := Examples.robustPushing in
  let a' := AutoPush.handleResult 5 (Partial text) a in
  let r' := Robust.onresult 5 (Partial text) r in
  (AutoPush.pushed a' = AutoPush.pushed a ++ [text]
   /\ AutoPush.finalTranscriptRef a'
      = AutoPush.finalTranscriptRef a ++ text ++ space
   /\ AutoPush.transcript a'
      = trim (AutoPush.finalTranscriptRef a ++ text ++ space)
   /\ AutoPush.interimTranscript a' = [])
  /\ (Robust.pushed r' = Robust.pushed r ++ [text]
      /\ Robust.interimTranscript r' = []
      /\ Robust.finalTranscriptRef r' = Robust.finalTranscriptRef r
      /\ Robust.transcript r' = Robust.transcript r).
Proof.
  apply (C2_force_flush_long_partial Examples.text210 5%Z
           Examples.autoPushListening Examples.robustPushing);
    vm_compute; congruence.
Defined.

(** C3, counterexample.  The claim says the controller survives five
    consecutive failures and gives up at the sixth.  With
    [maxConsecutiveErrors = 5] and the test [consecutiveErrorsRef <
    maxConsecutiveErrors] made after the increment, the controller is still
    listening after four failures and has given up after the fifth, on the
    restart path and on the [network] path alike. *)
Lemma C3_counterexample :
  let s := Examples.robustListening in
  Robust.isListening (Robust.failAll (replicate 4 Robust.RestartThrows) s) = true
  /\ Robust.isListening (Robust.failAll (replicate 5 Robust.RestartThrows) s) = false
  /\ Robust.isListening (Robust.failAll (replicate 4 Robust.NetworkError) s) = true
  /\ Robust.isListening (Robust.failAll (replicate 5 Robust.NetworkError) s) = false.
Proof. vm_compute. done. Qed.

(** C3, amended.  Counted failures are upstream [network] errors, upstream
    errors of a kind the handler does not name, and restart attempts whose
    [start()] raises, all reaching closures created while listening.  From
    a listening controller with no failure counted and no restart in
    flight, after four such failures in a row the controller is still
    listening, and the fifth makes it enter the fatal state: [isListening]
    becomes false, [error] holds the message of that failure (the
    repeated-failure message on the restart path, the network message or
    the raw error kind on the upstream paths), and the failure itself sets
    no timer. *)
Theorem C3_retry_budget
    (s : Robust.State) (fs : list Robust.failure) (f : Robust.failure) :
  Robust.retrying s 0 ->
  length fs = 4%nat ->
  forallb Robust.wellFormed (fs ++ [f]) = true ->
  let s4 := Robust.failAll fs s in
  let s5 := Robust.fail s4 f in
  Robust.isListening s4 = true
  /\ Robust.isListening s5 = false
  /\ Robust.error s5 = Some (Robust.fatalMessage f)
  /\ Robust.restartTimeoutRef s5 = None
  /\ Robust.timeouts s5 = Robust.timeouts s4.
Proof.
  intros Hs Hlen Hwf. cbv zeta.
  rewrite forallb_app in Hwf. apply andb_prop in Hwf as [Hfs Hf].
  cbn [forallb] in Hf. rewrite andb_true_r in Hf.
  assert (H4 : Robust.retrying (Robust.failAll fs s) 4).
  { replace 4%Z with (0 + Z.of_nat (length fs))%Z by lia.
    apply Robust_failAll_retrying; [done|done|lia]. }
  destruct (Robust_fail_fatal f _ Hf H4) as (E1 & E2 & E3 & E4).
  destruct H4 as (Hl & _). by repeat split.
Qed.

Lemma C3_retry_budget_witness :
  let s := Examples.robustListening in
  let fs := [Robust.NetworkError; Robust.RestartThrows;
             Robust.UnknownError (js "aborted"); Robust.RestartThrows] in
  let f := Robust.RestartThrows in
  let s4 := Robust.failAll fs s in
  let s5 := Robust.fail s4 f in
  Robust.isListening s4 = true
  /\ Robust.isListening s5 = false
  /\ Robust.error s5 = Some (Robust.fatalMessage f)
  /\ Robust.restartTimeoutRef s5 = None
  /\ Robust.timeouts s5 = Robust.timeouts s4.
Proof.
  apply (C3_retry_budget Examples.robustListening
           [Robust.NetworkError; Robust.RestartThrows;
            Robust.UnknownError (js "aborted"); Robust.RestartThrows]
           Robust.RestartThrows);
    vm_compute; done.
Defined.




(** C5, counterexample.  In the basic hook, whose handlers are created at
    mount, a [not-allowed] error leaves [isListening] true and queues a
    restart timer of 1000 ms. *)
Lemma C5_counterexample :
  let s := Basic.startListening false Basic.initial in
  let s' := Basic.onerror false false (js "not-allowed") s in
  Basic.isListening s = true
  /\ Basic.isListening s' = true
  /\ Basic.error s' = Some (js "not-allowed")
  /\ Basic.timeouts s' = [(Basic.ErrorRestart false false, 1000%Z)].
Proof. vm_compute. done. Qed.

(** C5, amended.  For the upstream errors [audio-capture] and
    [not-allowed]: the handler of the robust hook treats them as fatal, it
    sets [error] to a message about the microphone, sets [isListening] to
    false and sets no timer; the handler of the basic hook stores the error
    kind in [error], leaves [isListening] as it is and queues a restart
    timer of 1000 ms. *)
Theorem C5_microphone_errors
    (e : jsstring) (supported listening : bool)
    (r : Robust.State) (b : Basic.State) :
  e = js "audio-capture" \/ e = js "not-allowed" ->
  let r' := Robust.onerror listening e r in
  let b' := Basic.onerror supported listening e b in
  (Robust.isListening r' = false
   /\ Robust.error r'
      = Some (if strEq e (js "audio-capture")
              then js "Microphone access denied or unavailable"
              else js "Microphone permission denied")
   /\ Robust.timeouts r' = Robust.timeouts r
   /\ Robust.restartTimeoutRef r' = Robust.restartTimeoutRef r
   /\ Robust.startCalls r' = Robust.startCalls r)
  /\ (Basic.error b' = Some e
      /\ Basic.isListening b' = Basic.isListening b
      /\ Basic.timeouts b'
         = Basic.timeouts b ++ [(Basic.ErrorRestart supported listening, 1000%Z)]).
Proof.
  intros He. cbv zeta. destruct He as [-> | ->]; by repeat split.
Qed.

Lemma C5_microphone_errors_witness :
  let e := js "not-allowed" in
  let supported := false in
  let listening := true in
  let r := Examples.robustBackingOff in
  let b := Basic.startListening false Basic.initial in
  let r' := Robust.onerror listening e r in
  let b' := Basic.onerror supported listening e b in
  (Robust.isListening r' = false
   /\ Robust.error r'
      = Some (if strEq e (js "audio-capture")
              then js "Microphone access denied or unavailable"
              else js "Microphone permission denied")
   /\ Robust.timeouts r' = Robust.timeouts r
   /\ Robust.restartTimeoutRef r' = Robust.restartTimeoutRef r
   /\ Robust.startCalls r' = Robust.startCalls r)
  /\ (Basic.error b' = Some e
      /\ Basic.isListening b' = Basic.isListening b
      /\ Basic.timeouts b'
         = Basic.timeouts b ++ [(Basic.ErrorRestart supported listening, 1000%Z)]).
Proof.
  apply (C5_microphone_errors (js "not-allowed") false true
           Examples.robustBackingOff
           (Basic.startListening false Basic.initial)).
  by right.
Defined.

(** C6, counterexample.  In the streaming hook a final message replaces
    the transcript: after "hello world" and then "bye" the transcript is
    "bye", which is shorter than the transcript before the second message
    and does not extend it. *)
Lemma C6_counterexample :
  let s1 := Streaming.onmessage (Streaming.Final (js "hello world"))
              Streaming.initial in
  let s2 := Streaming.onmessage (Streaming.Final (js "bye")) s1 in
  Streaming.transcript s1 = js "hello world"
  /\ Streaming.transcript s2 = js "bye"
  /\ ~ (Streaming.transcript s1 `prefix_of` Streaming.transcript s2)
  /\ (length (Streaming.transcript s2) < length (Streaming.transcript s1))%nat.
Proof.
  cbv zeta. repeat split.
  - intros [k Hk]. vm_compute in Hk. discriminate.
  - vm_compute. lia.
Qed.

(** C6, amended.  In the robust hook, between two resets, the committed
    transcript is append-only: every result event leaves
    [finalTranscriptRef] and the exposed [transcript] with their former
    values as prefixes.  In the streaming hook a final message that has a
    text replaces the transcript by that text, and a partial message
    leaves the transcript as it is. *)
Theorem C6_append_only
    (s0 : Robust.State) (evs : list (Z * Event)) (now : Z) (ev : Event)
    (m : Streaming.State) (c : N) (text : jsstring) :
  let before := Robust.run evs (Robust.resetTranscript s0) in
  let after := Robust.onresult now ev before in
  Robust.finalTranscriptRef before `prefix_of` Robust.finalTranscriptRef after
  /\ Robust.transcript before `prefix_of` Robust.transcript after
  /\ Streaming.transcript
       (Streaming.onmessage (Streaming.Final (c :: text)) m) = c :: text
  /\ Streaming.transcript
       (Streaming.onmessage (Streaming.Partial (c :: text)) m)
     = Streaming.transcript m.
Proof.
  cbv zeta. repeat split.
  - rewrite Robust_onresult_ref. by apply prefix_app_r.
  - apply Robust_onresult_prefix, Robust_run_sync. done.
Qed.

(** C7, counterexample.  In the robust hook a partial result of 60
    characters is held as interim text; eleven seconds later neither the
    monitor tick nor the next result event passes it to the registered
    callback or appends it to the transcript. *)
Lemma C7_counterexample :
  let s1 := Robust.onresult 0 (Partial Examples.text60) Examples.robustPushing in
  let s2 := Robust.monitorTick 11001 s1 in
  let s3 := Robust.onresult 11002 (Partial (js "next")) s2 in
  Robust.interimTranscript s1 = Examples.text60
  /\ Robust.pushed s2 = [] /\ Robust.transcript s2 = []
  /\ Robust.pushed s3 = [] /\ Robust.transcript s3 = []
  /\ Robust.interimTranscript s3 = js "next".
Proof. vm_compute. done. Qed.

(** C7, amended.  In the auto-push hook, whenever [checkAndPushInterim]
    runs with an interim text of 60 characters held, more than 10000 ms
    after the last push and with a callback registered, it passes the text
    to the callback, appends the text and a space to the committed
    transcript, clears the interim text and records the time.  The robust
    hook has no flush by timeout: at any time a partial result of 60
    characters is held and not pushed, no callback other than a result
    event pushes or commits anything, and what a later result event pushes
    and commits does not depend on the text that was held. *)
Theorem C7_force_flush_timeout
    (now : Z) (a : AutoPush.State)
    (t : Z) (text held : jsstring) (r : Robust.State)
    (cb : Robust.callback) (ev : Event) :
  length (AutoPush.interimTranscript a) = 60%nat ->
  (10000 < now - AutoPush.lastPushTimeRef a)%Z ->
  AutoPush.autoPushCallbackRef a = true ->
  length text = 60%nat ->
  let a' := AutoPush.checkAndPushInterim now a in
  let r' := Robust.onresult t (Partial text) r in
  (AutoPush.pushed a' = AutoPush.pushed a ++ [AutoPush.interimTranscript a]
   /\ AutoPush.finalTranscriptRef a'
      = AutoPush.finalTranscriptRef a ++ AutoPush.interimTranscript a ++ space
   /\ AutoPush.transcript a'
      = trim (AutoPush.finalTranscriptRef a
              ++ AutoPush.interimTranscript a ++ space)
   /\ AutoPush.interimTranscript a' = []
   /\ AutoPush.lastPushTimeRef a' = now)
  /\ (Robust.pushed r' = Robust.pushed r
      /\ Robust.interimTranscript r' = text
      /\ Robust.transcript r' = Robust.transcript r)
  /\ match cb with
     | Robust.OnResult _ _ => True
     | _ =>
         Robust.pushed (Robust.dispatch r cb) = Robust.pushed r
         /\ Robust.interimTranscript (Robust.dispatch r cb)
            = Robust.interimTranscript r
         /\ Robust.transcript (Robust.dispatch r cb) = Robust.transcript r
         /\ Robust.finalTranscriptRef (Robust.dispatch r cb)
            = Robust.finalTranscriptRef r
     end
  /\ (Robust.pushed (Robust.onresult t ev (Robust.setInterimTranscript held r))
      = Robust.pushed (Robust.onresult t ev r)
      /\ Robust.transcript
           (Robust.onresult t ev (Robust.setInterimTranscript held r))
         = Robust.transcript (Robust.onresult t ev r)).
Proof.
  intros Hheld Htime Hcb Hlen. cbv zeta. split; [|split; [|split]].
  - apply AutoPush_check_flushes; [done|]. right. split; [lia|done].
  - rewrite Robust_onresult_Partial. cbv zeta. by rewrite Hlen.
  - apply Robust_control_keeps_text.
  - destruct (Robust_onresult_ignores_interim t ev held r) as (E1 & E2 & _).
    by split.
Qed.

Lemma C7_force_flush_timeout_witness :
  let now := 11000%Z in
  let a := Examples.autoPushHolding in
  let t := 11000%Z in
  let text := Examples.text60 in
  let held := Examples.text60 in
  let r := Examples.robustPushing in
  let cb := Robust.MonitorTick 11000 in
  let ev := Final (js "done") in
  let a' := AutoPush.checkAndPushInterim now a in
  let r' := Robust.onresult t (Partial text) r in
  (AutoPush.pushed a' = AutoPush.pushed a ++ [AutoPush.interimTranscript a]
   /\ AutoPush.finalTranscriptRef a'
      = AutoPush.finalTranscriptRef a ++ AutoPush.interimTranscript a ++ space
   /\ AutoPush.transcript a'
      = trim (AutoPush.finalTranscriptRef a
              ++ AutoPush.interimTranscript a ++ space)
   /\ AutoPush.interimTranscript a' = []
   /\ AutoPush.lastPushTimeRef a' = now)
  /\ (Robust.pushed r' = Robust.pushed r
      /\ Robust.interimTranscript r' = text
      /\ Robust.transcript r' = Robust.transcript r)
  /\ (Robust.pushed (Robust.dispatch r cb) = Robust.pushed r
      /\ Robust.interimTranscript (Robust.dispatch r cb)
         = Robust.interimTranscript r
      /\ Robust.transcript (Robust.dispatch r cb) = Robust.transcript r
      /\ Robust.finalTranscriptRef (Robust.dispatch r cb)
         = Robust.finalTranscriptRef r)
  /\ (Robust.pushed (Robust.onresult t ev (Robust.setInterimTranscript held r))
      = Robust.pushed (Robust.onresult t ev r)
      /\ Robust.transcript
           (Robust.onresult t ev (Robust.setInterimTranscript held r))
         = Robust.transcript (Robust.onresult t ev r)).
Proof.
  apply (C7_force_flush_timeout 11000%Z Examples.autoPushHolding 11000%Z
           Examples.text60 Examples.text60 Examples.robustPushing
           (Robust.MonitorTick 11000) (Final (js "done")));
    vm_compute; done.
Defined.

(** C8.  The claim holds for the timer [restartTimeoutRef] tracks and
    fails for the others.  In the session below a [network] error has
    arrived: [onerror] has queued its timer of 2000 ms, and the restart
    that [onend] asked for is in its backoff delay.  [stopListening]
    cancels the pending restart timer and [isListening] is false at once.
    The timer of [onerror] is not cancelled: it fires after the stop, its
    closure still sees [isListening] true and [stopListening] has reset
    [isRestartingRef], so [restartRecognition] sets a new restart timer,
    whose callback calls [recognition.start()]: a connection attempt after
    the stop, while [isListening] stays false. *)
Theorem C8_restart_after_stop :
  let s := Examples.robustRestarting in
  let s' := Robust.stopListening s in
  let s1 := Robust.runCallbacks [Robust.Rerender; Robust.Timeout 0] s' in
  let s2 := Robust.runCallbacks [Robust.RestartTimeout false] s1 in
  Robust.isListening s = true
  /\ Robust.restartTimeoutRef s = Some (1000%Z, true)
  /\ Robust.timeouts s = [Robust.RestartAfter 2000 true]
  /\ Robust.restartTimeoutRef s' = None
  /\ Robust.isListening s' = false
  /\ Robust.restartTimeoutRef s1 = Some (1000%Z, true)
  /\ Robust.startCalls s2 = S (Robust.startCalls s')
  /\ Robust.isListening s2 = false.
Proof. vm_compute. done. Qed.

(** C9.  The conversion of a sample: a finite sample is clamped to
    [-1, 1], then multiplied by 32768 when the clamped value is negative
    and by 32767 otherwise, and truncated; an infinite sample is clamped
    the same way and NaN is stored as 0.  For every sample the stored value
    lies in [-32768, 32767], and so does every entry of a converted
    buffer. *)
Theorem C9_pcm_conversion
    (x : Streaming.number) (q : Q) (inputData : list Streaming.number) :
  (-32768 <= Streaming.pcm16 x <= 32767)%Z
  /\ Streaming.clamp (Streaming.Finite q) = Streaming.Finite (Streaming.clampQ q)
  /\ (-1 <= Streaming.clampQ q)%Q
  /\ (Streaming.clampQ q <= 1)%Q
  /\ Streaming.pcm16 (Streaming.Finite q)
     = (if Qle_bool 0 (Streaming.clampQ q)
        then Streaming.truncate (Streaming.clampQ q * inject_Z 32767)
        else Streaming.truncate (Streaming.clampQ q * inject_Z 32768))
  /\ Streaming.pcm16 Streaming.PosInfinity = 32767%Z
  /\ Streaming.pcm16 Streaming.NegInfinity = (-32768)%Z
  /\ Streaming.pcm16 Streaming.NaN = 0%Z
  /\ Forall (fun z => (-32768 <= z <= 32767)%Z) (Streaming.convert inputData).
Proof.
  assert (Hall : forall y, (-32768 <= Streaming.pcm16 y <= 32767)%Z).
  { intros [| | |p]; [vm_compute; split; discriminate..|].
    apply (pcm16_Finite p). }
  destruct (clampQ_bounds q) as [Hlo Hhi].
  destruct (pcm16_Finite q) as [Hq _].
  split; [apply Hall|]. split; [apply clamp_Finite|].
  do 3 (split; [done|]). do 3 (split; [done|]).
  unfold Streaming.convert. apply Forall_map, Forall_forall. intros y _. apply Hall.
Qed.

(** C10.  While a note is selected, a final segment that is new is
    appended once to the content of every note with the id of the selected
    note: the content becomes the old content, one space when the old
    content is not empty, and the segment; and the segment is recorded as
    the last processed one.  When the same segment is delivered again
    right after, nothing changes, so the content holds the text once.
    More generally a segment equal to the last processed one is never
    appended. *)
Theorem C10_duplicate_segment_dropped
    (now1 now2 : jsstring) (segment : jsstring) (s t : Notes.State)
    (note : Notes.Note) :
  Notes.currentNote s = Some note ->
  segment <> [] ->
  segment <> Notes.lastProcessedSegment s ->
  Notes.lastProcessedSegment t = segment ->
  let s1 := Notes.deliver now1 segment s in
  let s2 := Notes.deliver now2 segment s1 in
  let once := fun old : jsstring =>
    (if truthy old then old ++ space else []) ++ segment in
  Notes.contentsOf (Notes.id note) (Notes.notes s1)
  = map once (Notes.contentsOf (Notes.id note) (Notes.notes s))
  /\ Notes.contentsOf (Notes.id note) (Notes.notes s2)
     = map once (Notes.contentsOf (Notes.id note) (Notes.notes s))
  /\ Notes.lastProcessedSegment s1 = segment
  /\ s2 = s1
  /\ Notes.notes (Notes.deliver now2 segment t) = Notes.notes t
  /\ Notes.currentNote (Notes.deliver now2 segment t) = Notes.currentNote t.
Proof.
  intros Hc Hne Hnew Ht. cbv zeta. rewrite !Notes_deliver_once.
  destruct (Notes_effect_appends now1
              (Notes.setLatestFinalSegment segment s) note Hc Hne Hnew)
    as (E1 & E2 & E3).
  assert (E : Notes.segmentEffect now2
                (Notes.setLatestFinalSegment segment
                   (Notes.segmentEffect now1
                      (Notes.setLatestFinalSegment segment s)))
              = Notes.segmentEffect now1
                  (Notes.setLatestFinalSegment segment s)).
  { rewrite (Notes_setLatest_same segment _ E3).
    apply Notes_effect_processed. by rewrite E2, E3. }
  split; [exact E1|]. split; [by rewrite E|]. split; [exact E2|].
  split; [exact E|]. split.
  - by rewrite Notes_effect_processed.
  - by rewrite Notes_effect_processed.
Qed.

Lemma C10_duplicate_segment_dropped_witness :
  let now1 := js "2024-01-01T10:00:05.000Z" in
  let now2 := js "2024-01-01T10:00:06.000Z" in
  let segment := js "hello world" in
  let s := Examples.sampleApp in
  let t := Notes.deliver now1 segment s in
  let note := Examples.sampleNote in
  let s1 := Notes.deliver now1 segment s in
  let s2 := Notes.deliver now2 segment s1 in
  Notes.contentsOf (Notes.id note) (Notes.notes s1)
  = [js "first words hello world"]
  /\ Notes.contentsOf (Notes.id note) (Notes.notes s2)
     = [js "first words hello world"]
  /\ Notes.lastProcessedSegment s1 = segment
  /\ s2 = s1
  /\ Notes.notes (Notes.deliver now2 segment t) = Notes.notes t
  /\ Notes.currentNote (Notes.deliver now2 segment t) = Notes.currentNote t.
Proof.
  apply (C10_duplicate_segment_dropped (js "2024-01-01T10:00:05.000Z")
           (js "2024-01-01T10:00:06.000Z") (js "hello world")
           Examples.sampleApp
           (Notes.deliver (js "2024-01-01T10:00:05.000Z") (js "hello world")
              Examples.sampleApp)
           Examples.sampleNote);
    vm_compute; congruence.
Defined.

(** * Further properties of the code *)

(** ** Words *)



(** ** The note store *)

(** The shape shared by [appendToNote] and [updateNote]: every note with
    the id is replaced by its image under [f], and so is the current note
    when it has the id. *)
Lemma Notes_fold_current (f : Notes.Note -> Notes.Note) nid ns : forall cur,
  (forall n, Notes.id (f n) = Notes.id n) ->
  fold_left
    (fun (cur : option Notes.Note) (note : Notes.Note) =>
       if strEq (Notes.id note) nid then
         match cur with
         | Some prev => if strEq (Notes.id prev) nid then Some (f note) else cur
         | None => cur
         end
       else cur) ns cur
  = match cur with
    | Some prev =>
        if strEq (Notes.id prev) nid then
          match last (List.filter (fun n => strEq (Notes.id n) nid) ns) with
          | Some n => Some (f n)
          | None => cur
          end
        else cur
    | None => None
    end.
Proof.
  intros cur Hf. revert cur.
  induction ns as [|n ns IH]; intros cur; simpl.
  - destruct cur as [prev|]; [|done]. by destruct (strEq (Notes.id prev) nid).
  - rewrite IH. destruct (strEq (Notes.id n) nid) eqn:En.
    + destruct cur as [prev|]; [|done].
      destruct (strEq (Notes.id prev) nid) eqn:Ep.
      * rewrite Hf, En.
        destruct (List.filter (fun n0 => strEq (Notes.id n0) nid) ns)
          as [|m l] eqn:El; [done|].
        change (last (n :: m :: l)) with (last (m :: l)).
        destruct (last (m :: l)) eqn:L; [done|].
        by apply last_None in L.
      * by rewrite Ep.
    + destruct cur as [prev|]; [|done]. done.
Qed.

Lemma Notes_find_none nid ns :
  Notes.findNote nid ns = None ->
  List.filter (fun n => strEq (Notes.id n) nid) ns = []
  /\ forall f : Notes.Note -> Notes.Note,
       map (fun n => if strEq (Notes.id n) nid then f n else n) ns = ns.
Proof.
  unfold Notes.findNote.
  induction ns as [|n ns IH]; simpl; [done|].
  destruct (strEq (Notes.id n) nid); [done|].
  intros H. destruct (IH H) as [IH1 IH2]. split; [done|].
  intros f. by rewrite IH2.
Qed.

Lemma Notes_find_map (f : Notes.Note -> Notes.Note) nid nid' ns :
  (forall n, Notes.id (f n) = Notes.id n) ->
  Notes.findNote nid'
    (map (fun n => if strEq (Notes.id n) nid then f n else n) ns)
  = if strEq nid' nid then option_map f (Notes.findNote nid ns)
    else Notes.findNote nid' ns.
Proof.
  intros Hf. unfold Notes.findNote.
  induction ns as [|n ns IH]; simpl.
  - by destruct (strEq nid' nid).
  - rewrite IH. clear IH.
    destruct (strEq (Notes.id n) nid) eqn:En.
    + rewrite Hf. apply strEq_eq in En. rewrite En.
      destruct (strEq nid' nid) eqn:E.
      * apply strEq_eq in E. subst nid'. by rewrite strEq_refl.
      * rewrite (strEq_neq nid nid'); [done|].
        intros ->. by rewrite strEq_refl in E.
    + destruct (strEq nid' nid) eqn:E.
      * apply strEq_eq in E. subst nid'. by rewrite En.
      * done.
Qed.

Lemma Notes_state_eta s :
  Notes.mkState (Notes.latestFinalSegment s) (Notes.lastProcessedSegment s)
    (Notes.currentNote s) (Notes.notes s) = s.
Proof. by destruct s. Qed.

Lemma Notes_updateNote_absent now nid u s :
  Notes.findNote nid (Notes.notes s) = None ->
  Notes.updateNote now nid u s = s.
Proof.
  intros H. destruct (Notes_find_none nid _ H) as [H1 H2].
  unfold Notes.updateNote.
  rewrite (Notes_fold_current (Notes.applyUpdates now u)) by done.
  rewrite H1, H2. unfold Notes.setCurrentNote, Notes.setNotes. simpl.
  rewrite <- (Notes_state_eta s) at 5.
  f_equal. destruct (Notes.currentNote s) as [prev|]; [|done].
  by destruct (strEq (Notes.id prev) nid).
Qed.

Lemma Notes_appendToNote_absent now nid text s :
  Notes.findNote nid (Notes.notes s) = None ->
  Notes.appendToNote now nid text s = s.
Proof.
  intros H. destruct (Notes_find_none nid _ H) as [H1 H2].
  unfold Notes.appendToNote. destruct (negb (truthy text)); [done|].
  rewrite (Notes_fold_current (Notes.updatedNote now text)) by done.
  rewrite H1, H2. unfold Notes.setCurrentNote, Notes.setNotes. simpl.
  rewrite <- (Notes_state_eta s) at 5.
  f_equal. destruct (Notes.currentNote s) as [prev|]; [|done].
  by destruct (strEq (Notes.id prev) nid).
Qed.



(** X2.  An operation of the note store on an id that no note has leaves
    the state as it is: nothing is created, and the current note is not
    touched even when it is a note with that id that is no longer in the
    list. *)
Theorem X2_absent_id_changes_nothing
    (now startIso endIso : jsstring) (elapsed : jsstring -> Z)
    (nid text tag : jsstring) (u : Notes.Updates) (s : Notes.State) :
  Notes.findNote nid (Notes.notes s) = None ->
  Notes.updateNote now nid u s = s
  /\ Notes.appendToNote now nid text s = s
  /\ Notes.toggleStarNote now nid s = s
  /\ Notes.toggleArchiveNote now nid s = s
  /\ Notes.addTagToNote now nid tag s = s
  /\ Notes.removeTagFromNote now nid tag s = s
  /\ Notes.startRecording startIso now nid s = s
  /\ Notes.stopRecording endIso now elapsed nid s = s.
Proof.
  intros H.
  unfold Notes.toggleStarNote, Notes.toggleArchiveNote, Notes.addTagToNote,
    Notes.removeTagFromNote, Notes.startRecording, Notes.stopRecording.
  rewrite H.
  repeat split;
    first [done | by apply Notes_updateNote_absent
          | by apply Notes_appendToNote_absent].
Qed.

Lemma X2_absent_id_changes_nothing_witness :
  let now := js "2024-01-01T10:00:05.000Z" in
  let nid := js "42" in
  let u := Notes.mkUpdates None (Some (js "lost")) None None None None None None in
  let s := Examples.sampleApp in
  Notes.updateNote now nid u s = s
  /\ Notes.appendToNote now nid (js "lost") s = s
  /\ Notes.toggleStarNote now nid s = s
  /\ Notes.toggleArchiveNote now nid s = s
  /\ Notes.addTagToNote now nid (js "todo") s = s
  /\ Notes.removeTagFromNote now nid (js "todo") s = s
  /\ Notes.startRecording now now nid s = s
  /\ Notes.stopRecording now now (fun _ => 7%Z) nid s = s.
Proof.
  apply (X2_absent_id_changes_nothing (js "2024-01-01T10:00:05.000Z")
           (js "2024-01-01T10:00:05.000Z") (js "2024-01-01T10:00:05.000Z")
           (fun _ => 7%Z) (js "42") (js "lost") (js "todo")
           (Notes.mkUpdates None (Some (js "lost")) None None None None None None)
           Examples.sampleApp).
  vm_compute. reflexivity.
Defined.

(** X3.  [handleReset] of [App] empties the content of every note that
    has the id of the current note, but leaves its word count as it was:
    [updateNote] counts the words of the new content only when that
    content is not empty.  It empties [latestFinalSegment] and keeps
    [lastProcessedSegment]. *)
Theorem X3_reset_keeps_word_count now s note :
  Notes.currentNote s = Some note ->
  let s' := Notes.handleReset now s in
  Forall2
    (fun old new =>
       if strEq (Notes.id old) (Notes.id note)
       then Notes.content new = []
            /\ Notes.wordCount new = Notes.wordCount old
            /\ Notes.id new = Notes.id old
       else new = old)
    (Notes.notes s) (Notes.notes s')
  /\ Notes.latestFinalSegment s' = []
  /\ Notes.lastProcessedSegment s' = Notes.lastProcessedSegment s.
Proof.
  intros Hc. unfold Notes.handleReset. rewrite Hc.
  unfold Notes.updateNote, Notes.setCurrentNote, Notes.setNotes,
    Notes.setLatestFinalSegment.
  simpl. split; [|done].
  induction (Notes.notes s) as [|n ns IH]; simpl map; constructor; [|done].
  by destruct (strEq (Notes.id n) (Notes.id note)).
Qed.

Lemma X3_reset_keeps_word_count_witness :
  let s' := Notes.handleReset (js "2024-01-01T10:00:05.000Z") Examples.sampleApp in
  Forall2
    (fun old new =>
       if strEq (Notes.id old) (Notes.id Examples.sampleNote)
       then Notes.content new = []
            /\ Notes.wordCount new = Notes.wordCount old
            /\ Notes.id new = Notes.id old
       else new = old)
    (Notes.notes Examples.sampleApp) (Notes.notes s')
  /\ Notes.latestFinalSegment s' = []
  /\ Notes.lastProcessedSegment s'
     = Notes.lastProcessedSegment Examples.sampleApp.
Proof.
  apply (X3_reset_keeps_word_count (js "2024-01-01T10:00:05.000Z")
           Examples.sampleApp Examples.sampleNote).
  reflexivity.
Defined.

(** ** Tags, stars and the archive *)

Lemma includes_true tag ts : Notes.includes tag ts = true <-> In tag ts.
Proof.
  unfold Notes.includes. rewrite existsb_exists. split.
  - intros (x & Hx & E). apply strEq_eq in E. by subst x.
  - intros H. exists tag. split; [done|]. apply strEq_refl.
Qed.

Lemma includes_app t ts us :
  Notes.includes t (ts ++ us) = Notes.includes t ts || Notes.includes t us.
Proof. apply existsb_app. Qed.

Lemma includes_filter t tag ts :
  Notes.includes t (List.filter (fun x => negb (strEq x tag)) ts)
  = Notes.includes t ts && negb (strEq t tag).
Proof.
  induction ts as [|x ts IH]; simpl; [done|].
  destruct (strEq x tag) eqn:E; simpl.
  - rewrite IH. destruct (strEq t x) eqn:E'; simpl; [|done].
    apply strEq_eq in E, E'. subst. rewrite strEq_refl. simpl.
    by rewrite andb_false_r.
  - rewrite IH. destruct (strEq t x) eqn:E'; simpl; [|done].
    apply strEq_eq in E'. subst. by rewrite E.
Qed.

Lemma Notes_find_updateNote now nid u s :
  Notes.findNote nid (Notes.notes (Notes.updateNote now nid u s))
  = option_map (Notes.applyUpdates now u) (Notes.findNote nid (Notes.notes s)).
Proof.
  unfold Notes.updateNote, Notes.setCurrentNote, Notes.setNotes.
  simpl Notes.notes.
  rewrite (Notes_find_map (Notes.applyUpdates now u)) by done.
  by rewrite strEq_refl.
Qed.

(** X4.  Tags of the note found for an id.  [addTagToNote] makes the tag
    one of its tags and [removeTagFromNote] makes it none of them; both
    leave every other tag as it was, in the list or not; and adding a tag
    a second time changes nothing, not even [updatedAt]. *)
Theorem X4_tags_add_remove now now' nid tag t s :
  t <> tag ->
  let tagged (f : list jsstring -> bool) (s : Notes.State) :=
    option_map (fun n => f (Notes.tags n)) (Notes.findNote nid (Notes.notes s)) in
  let added := Notes.addTagToNote now nid tag s in
  let removed := Notes.removeTagFromNote now nid tag s in
  tagged (Notes.includes tag) added = tagged (fun _ => true) s
  /\ tagged (Notes.includes tag) removed = tagged (fun _ => false) s
  /\ tagged (Notes.includes t) added = tagged (Notes.includes t) s
  /\ tagged (Notes.includes t) removed = tagged (Notes.includes t) s
  /\ Notes.addTagToNote now' nid tag added = added.
Proof.
  intros Ht tagged added removed. subst tagged added removed. cbv beta.
  unfold Notes.addTagToNote, Notes.removeTagFromNote.
  destruct (Notes.findNote nid (Notes.notes s)) as [note|] eqn:F.
  2: { simpl. by rewrite F. }
  assert (E : strEq t tag = false) by by apply strEq_neq.
  destruct (Notes.includes tag (Notes.tags note)) eqn:I; simpl negb; cbv iota.
  - rewrite !Notes_find_updateNote, !F. simpl.
    rewrite !includes_filter, strEq_refl, E, I. simpl.
    by rewrite andb_true_r.
  - rewrite !Notes_find_updateNote, !F. simpl.
    rewrite !includes_filter, !includes_app, strEq_refl, E, I. simpl.
    rewrite strEq_refl, E, orb_false_r, andb_true_r. simpl.
    by rewrite orb_false_r.
Qed.

Lemma X4_tags_add_remove_witness :
  let now := js "2024-01-01T10:00:05.000Z" in
  let nid := js "1700000000000" in
  let tag := js "todo" in
  let t := js "done" in
  let s := Examples.sampleApp in
  let tagged (f : list jsstring -> bool) (s : Notes.State) :=
    option_map (fun n => f (Notes.tags n)) (Notes.findNote nid (Notes.notes s)) in
  let added := Notes.addTagToNote now nid tag s in
  let removed := Notes.removeTagFromNote now nid tag s in
  tagged (Notes.includes tag) added = tagged (fun _ => true) s
  /\ tagged (Notes.includes tag) removed = tagged (fun _ => false) s
  /\ tagged (Notes.includes t) added = tagged (Notes.includes t) s
  /\ tagged (Notes.includes t) removed = tagged (Notes.includes t) s
  /\ Notes.addTagToNote now nid tag added = added.
Proof.
  apply (X4_tags_add_remove (js "2024-01-01T10:00:05.000Z")
           (js "2024-01-01T10:00:05.000Z") (js "1700000000000") (js "todo")
           (js "done") Examples.sampleApp).
  vm_compute. discriminate.
Defined.
(** ** Stars and the archive *)

(** X5.  [toggleStarNote] flips the star of the note found for the id and
    [toggleArchiveNote] its archive flag; each leaves the other flag, the
    content and the tags of that note as they were, and a second toggle
    restores the flag. *)
Theorem X5_toggle_flips now now' nid s :
  let seen {A} (f : Notes.Note -> A) (s : Notes.State) :=
    option_map f (Notes.findNote nid (Notes.notes s)) in
  let starred := Notes.toggleStarNote now nid s in
  let archived := Notes.toggleArchiveNote now nid s in
  seen Notes.isStarred starred = seen (fun n => negb (Notes.isStarred n)) s
  /\ seen Notes.isArchived archived = seen (fun n => negb (Notes.isArchived n)) s
  /\ seen Notes.isArchived starred = seen Notes.isArchived s
  /\ seen Notes.isStarred archived = seen Notes.isStarred s
  /\ seen Notes.content starred = seen Notes.content s
  /\ seen Notes.content archived = seen Notes.content s
  /\ seen Notes.isStarred (Notes.toggleStarNote now' nid starred)
     = seen Notes.isStarred s
  /\ seen Notes.isArchived (Notes.toggleArchiveNote now' nid archived)
     = seen Notes.isArchived s.
Proof.
  intros seen starred archived. subst seen starred archived. cbv beta.
  unfold Notes.toggleStarNote, Notes.toggleArchiveNote.
  destruct (Notes.findNote nid (Notes.notes s)) as [note|] eqn:F.
  2: { simpl. by rewrite ?F. }
  repeat (rewrite ?Notes_find_updateNote, ?F; cbn -[Notes.updateNote]).
  by rewrite !negb_involutive.
Qed.

(** ** Deleting notes *)

Lemma Notes_filter_others_find nid ns :
  Notes.findNote nid
    (List.filter (fun note => negb (strEq (Notes.id note) nid)) ns) = None.
Proof.
  unfold Notes.findNote. induction ns as [|n ns IH]; simpl; [done|].
  destruct (strEq (Notes.id n) nid) eqn:E; simpl; [done|]. by rewrite E.
Qed.

Lemma Notes_filter_others_idem nid ns :
  List.filter (fun note => negb (strEq (Notes.id note) nid))
    (List.filter (fun note => negb (strEq (Notes.id note) nid)) ns)
  = List.filter (fun note => negb (strEq (Notes.id note) nid)) ns.
Proof.
  induction ns as [|n ns IH]; simpl; [done|].
  destruct (strEq (Notes.id n) nid) eqn:E; simpl; [done|].
  by rewrite E, IH.
Qed.

Lemma Notes_effect_no_current now s :
  Notes.currentNote s = None -> Notes.segmentEffect now s = s.
Proof. intros H. unfold Notes.segmentEffect. by rewrite H. Qed.

Lemma Notes_deliverAll_no_current segs : forall s,
  Notes.currentNote s = None ->
  Notes.notes (Notes.deliverAll segs s) = Notes.notes s
  /\ Notes.currentNote (Notes.deliverAll segs s) = None
  /\ Notes.lastProcessedSegment (Notes.deliverAll segs s)
     = Notes.lastProcessedSegment s.
Proof.
  induction segs as [|[now seg] segs IH]; intros s H; [done|].
  unfold Notes.deliverAll. simpl fold_left.
  fold (Notes.deliverAll segs (Notes.deliver now seg s)).
  rewrite Notes_deliver_once, Notes_effect_no_current by done.
  by apply (IH (Notes.setLatestFinalSegment seg s)).
Qed.

(** X6.  [deleteNote] removes every note that has the id, and deleting
    again changes nothing.  When the current note has the id there is no
    current note afterwards, and every final segment delivered from then
    on is dropped: the notes stay as they are and the segment is not even
    marked as processed. *)
Theorem X6_delete_note nid segs s :
  let s' := Notes.deleteNote nid s in
  Notes.findNote nid (Notes.notes s') = None
  /\ Notes.deleteNote nid s' = s'
  /\ match Notes.currentNote s with
     | Some cur =>
         if strEq (Notes.id cur) nid then
           Notes.currentNote s' = None
           /\ Notes.notes (Notes.deliverAll segs s') = Notes.notes s'
           /\ Notes.lastProcessedSegment (Notes.deliverAll segs s')
              = Notes.lastProcessedSegment s
         else Notes.currentNote s' = Some cur
     | None => Notes.currentNote s' = None
     end.
Proof.
  intros s'. subst s'. unfold Notes.deleteNote.
  destruct s as [latest lastp cur ns]. simpl.
  destruct cur as [cur|]; [destruct (strEq (Notes.id cur) nid) eqn:E|]; simpl;
    rewrite ?E, ?Notes_filter_others_idem; repeat split;
    try apply Notes_filter_others_find;
    try done.
  - by apply Notes_deliverAll_no_current.
  - by apply Notes_deliverAll_no_current.
Qed.

(** ** The note sink over a whole session *)

Lemma Notes_appendToNote_current now nid text s n :
  Notes.currentNote s = Some n ->
  exists n', Notes.currentNote (Notes.appendToNote now nid text s) = Some n'
             /\ Notes.id n' = Notes.id n.
Proof.
  intros Hc. unfold Notes.appendToNote.
  destruct (negb (truthy text)); [by exists n|].
  rewrite (Notes_fold_current (Notes.updatedNote now text)) by done.
  unfold Notes.setCurrentNote, Notes.setNotes. simpl. rewrite Hc.
  destruct (strEq (Notes.id n) nid) eqn:E; [|by exists n].
  destruct (last _) as [m|] eqn:L; [|by exists n].
  exists (Notes.updatedNote now text m). split; [done|].
  apply last_Some_elem_of, list_elem_of_In, filter_In in L.
  destruct L as [_ L]. apply strEq_eq in L, E. simpl. congruence.
Qed.

Lemma Notes_effect_current now s n :
  Notes.currentNote s = Some n ->
  exists n', Notes.currentNote (Notes.segmentEffect now s) = Some n'
             /\ Notes.id n' = Notes.id n.
Proof.
  intros Hc. unfold Notes.segmentEffect. rewrite Hc.
  destruct (_ && _); [|by exists n].
  destruct (Notes_appendToNote_current now (Notes.id n)
              (Notes.latestFinalSegment s) s n Hc) as (n' & H1 & H2).
  exists n'. by split.
Qed.

Lemma Notes_effect_skips now s :
  truthy (Notes.latestFinalSegment s)
  && negb (strEq (Notes.latestFinalSegment s) (Notes.lastProcessedSegment s))
  = false ->
  Notes.segmentEffect now s = s.
Proof.
  intros H. unfold Notes.segmentEffect. rewrite H.
  by destruct (Notes.currentNote s).
Qed.

Lemma Notes_deliverAll_spec segs : forall s note,
  Notes.currentNote s = Some note ->
  let taken := Notes.accepted (Notes.lastProcessedSegment s) (map snd segs) in
  let s' := Notes.deliverAll segs s in
  Notes.contentsOf (Notes.id note) (Notes.notes s')
  = map (Notes.appendAll taken) (Notes.contentsOf (Notes.id note) (Notes.notes s))
  /\ Notes.lastProcessedSegment s'
     = default (Notes.lastProcessedSegment s) (last taken)
  /\ exists note', Notes.currentNote s' = Some note'
                   /\ Notes.id note' = Notes.id note.
Proof.
  induction segs as [|[now seg] segs IH]; intros s note Hc; cbv zeta.
  - simpl. split; [by rewrite map_id|]. split; [done|]. by exists note.
  - unfold Notes.deliverAll. simpl fold_left.
    fold (Notes.deliverAll segs (Notes.deliver now seg s)).
    rewrite Notes_deliver_once.
    set (s0 := Notes.setLatestFinalSegment seg s).
    assert (Hc0 : Notes.currentNote s0 = Some note) by done.
    destruct (Notes_effect_current now s0 note Hc0) as (n1 & Hc1 & Hid).
    specialize (IH (Notes.segmentEffect now s0) n1 Hc1). cbv zeta in IH.
    rewrite Hid in IH. destruct IH as (IH1 & IH2 & IH3).
    simpl map. simpl Notes.accepted.
    destruct (truthy seg && negb (strEq seg (Notes.lastProcessedSegment s)))
      eqn:T.
    + apply andb_prop in T. destruct T as [T1 T2].
      destruct (Notes_effect_appends now s0 note Hc0) as (A1 & A2 & A3).
      { by apply truthy_true. }
      { simpl. intros E. rewrite E, strEq_refl in T2. done. }
      simpl in A1, A2. rewrite A1, A2 in *.
      rewrite IH1, IH2. split; [|split; [|done]].
      * rewrite map_map. done.
      * destruct (Notes.accepted seg (map snd segs)) as [|a l] eqn:Ea; [done|].
        change (last (seg :: a :: l)) with (last (a :: l)).
        apply last_default_cons.
    + rewrite (Notes_effect_skips now s0) in * by done.
      simpl in IH1, IH2. by rewrite IH1, IH2.
Qed.

Lemma Notes_accepted_truthy segs : forall last,
  Forall (fun seg => seg <> []) (Notes.accepted last segs).
Proof.
  induction segs as [|seg segs IH]; intros last; simpl; [constructor|].
  destruct (truthy seg) eqn:T; simpl; [|apply IH].
  destruct (negb (strEq seg last)); [|apply IH].
  constructor; [by apply truthy_true|apply IH].
Qed.

Lemma joinSpace_cons x xs :
  joinSpace (x :: xs) = x ++ concat (map (app space) xs).
Proof.
  revert x. induction xs as [|y xs IH]; intros x.
  - simpl. by rewrite app_nil_r.
  - change (joinSpace (x :: y :: xs)) with (x ++ space ++ joinSpace (y :: xs)).
    rewrite IH. cbn [map concat]. by rewrite <- (app_assoc space).
Qed.

Lemma Notes_appendAll_nonempty segs : forall old,
  old <> [] ->
  Notes.appendAll segs old = old ++ concat (map (app space) segs).
Proof.
  induction segs as [|seg segs IH]; intros old Ho; simpl.
  - by rewrite app_nil_r.
  - unfold Notes.appendAll in *. simpl. rewrite IH.
    + unfold Notes.newContent. destruct old as [|c old]; [done|].
      change (truthy (c :: old)) with true. cbv iota.
      by rewrite <- !app_assoc.
    + unfold Notes.newContent. destruct old; [done|]. done.
Qed.

Lemma Notes_appendAll_fresh segs :
  Forall (fun seg => seg <> []) segs ->
  Notes.appendAll segs [] = joinSpace segs.
Proof.
  intros H. destruct H as [|seg segs Hs H]; [done|].
  rewrite joinSpace_cons. unfold Notes.appendAll. simpl.
  change (Notes.newContent seg []) with seg.
  by apply Notes_appendAll_nonempty.
Qed.

Lemma Notes_contentsOf_absent nid ns :
  Notes.findNote nid ns = None -> Notes.contentsOf nid ns = [].
Proof.
  unfold Notes.findNote. induction ns as [|n ns IH]; simpl; [done|].
  by destruct (strEq (Notes.id n) nid).
Qed.

Lemma Notes_appendAll_join segs old :
  Forall (fun seg => seg <> []) segs ->
  Notes.appendAll segs old
  = joinSpace ((if truthy old then [old] else []) ++ segs).
Proof.
  intros H. destruct old as [|c old].
  - by apply Notes_appendAll_fresh.
  - change (truthy (c :: old)) with true. cbv iota.
    change ([c :: old] ++ segs) with ((c :: old) :: segs).
    rewrite joinSpace_cons. by apply Notes_appendAll_nonempty.
Qed.

(** X7.  The note sink over a session.  While a note is current, the
    final segments that the hook delivers reach every note with its id in
    order, except the empty segments and those equal to the segment
    processed just before: the content of such a note afterwards is its
    old content, when that is not empty, and the accepted segments, joined
    by single spaces.  A segment that repeats an earlier one after another
    segment is appended again, and an empty segment in between, as
    [resetTranscript] gives, does not make the effect forget the last
    one. *)
Theorem X7_sink_session segs s note :
  Notes.currentNote s = Some note ->
  let taken := Notes.accepted (Notes.lastProcessedSegment s) (map snd segs) in
  let s' := Notes.deliverAll segs s in
  Notes.contentsOf (Notes.id note) (Notes.notes s')
  = map (fun old => joinSpace ((if truthy old then [old] else []) ++ taken))
        (Notes.contentsOf (Notes.id note) (Notes.notes s))
  /\ Notes.lastProcessedSegment s'
     = default (Notes.lastProcessedSegment s) (last taken)
  /\ exists note', Notes.currentNote s' = Some note'
                   /\ Notes.id note' = Notes.id note.
Proof.
  intros Hc taken s'.
  destruct (Notes_deliverAll_spec segs s note Hc) as (H1 & H2 & H3).
  split; [|by split].
  fold s' in H1. rewrite H1. apply map_ext. intros old.
  apply Notes_appendAll_join, Notes_accepted_truthy.
Qed.

Lemma X7_sink_session_witness :
  let segs :=
    [(js "t1", js "a"); (js "t2", js "a"); (js "t3", []); (js "t4", js "a");
     (js "t5", js "b"); (js "t6", js "a")] in
  let s := Examples.sampleApp in
  let note := Examples.sampleNote in
  let s' := Notes.deliverAll segs s in
  Notes.contentsOf (Notes.id note) (Notes.notes s') = [js "first words a b a"]
  /\ Notes.lastProcessedSegment s' = js "a"
  /\ exists note', Notes.currentNote s' = Some note'
                   /\ Notes.id note' = Notes.id note.
Proof.
  apply (X7_sink_session
           [(js "t1", js "a"); (js "t2", js "a"); (js "t3", []);
            (js "t4", js "a"); (js "t5", js "b"); (js "t6", js "a")]
           Examples.sampleApp Examples.sampleNote).
  reflexivity.
Defined.

(** X8.  A note made by [handleNewNote] with an id that no other note
    has, and the session that follows.  The render after [handleNewNote]
    runs the segment effect, so a segment that is still pending in
    [latestFinalSegment] is the first that the new note gets.  The content
    of the note is then the accepted segments, the pending one first,
    joined by single spaces, with no space in front. *)
Theorem X8_new_note_content
    nowId createdIso updatedIso localeDate now segs s :
  Notes.findNote nowId (Notes.notes s) = None ->
  let s0 := Notes.handleNewNote nowId createdIso updatedIso localeDate now s in
  Notes.contentsOf nowId (Notes.notes (Notes.deliverAll segs s0))
  = [joinSpace
       (Notes.accepted (Notes.lastProcessedSegment s)
          (Notes.latestFinalSegment s :: map snd segs))].
Proof.
  intros H s0.
  set (newNote :=
         Notes.mkNote nowId (js "Meeting " ++ localeDate) [] createdIso
           updatedIso 0 0 (js "en-US") false (js "general") [] (js "normal")
           false false (Notes.mkMetadata None None 0 [] [] [])).
  set (s1 := Notes.setCurrentNote (Some newNote)
               (Notes.setCurrentNote (Some newNote)
                  (Notes.setNotes (newNote :: Notes.notes s) s))).
  assert (E0 : s0 = Notes.deliver now (Notes.latestFinalSegment s) s1).
  { rewrite Notes_deliver_once.
    by rewrite (Notes_setLatest_same (Notes.latestFinalSegment s) s1). }
  assert (E : Notes.deliverAll segs s0
              = Notes.deliverAll ((now, Notes.latestFinalSegment s) :: segs) s1).
  { by rewrite E0. }
  assert (Hc : Notes.currentNote s1 = Some newNote) by done.
  destruct (Notes_deliverAll_spec ((now, Notes.latestFinalSegment s) :: segs)
              s1 newNote Hc) as (H1 & _).
  change (Notes.id newNote) with nowId in H1. rewrite E, H1.
  change (Notes.notes s1) with (newNote :: Notes.notes s).
  simpl Notes.contentsOf. rewrite strEq_refl.
  rewrite (Notes_contentsOf_absent _ _ H). cbn [map snd].
  change (Notes.lastProcessedSegment s1) with (Notes.lastProcessedSegment s).
  by rewrite Notes_appendAll_fresh by apply Notes_accepted_truthy.
Qed.

Lemma X8_new_note_content_witness :
  let segs := [(js "t1", js "y"); (js "t2", js "y"); (js "t3", js "z")] in
  let s := Notes.mkState (js "x") [] None [Examples.sampleNote] in
  let s0 := Notes.handleNewNote (js "1700000000001") (js "c") (js "u")
              (js "1/1/2024") (js "t0") s in
  Notes.contentsOf (js "1700000000001") (Notes.notes (Notes.deliverAll segs s0))
  = [js "x y z"].
Proof.
  apply (X8_new_note_content (js "1700000000001") (js "c") (js "u")
           (js "1/1/2024") (js "t0")
           [(js "t1", js "y"); (js "t2", js "y"); (js "t3", js "z")]
           (Notes.mkState (js "x") [] None [Examples.sampleNote])).
  reflexivity.
Defined.

(** ** Recording times *)

Lemma Notes_find_appendToNote {A} (g : Notes.Note -> A) now nid text nid' s :
  (forall now text n, g (Notes.updatedNote now text n) = g n) ->
  option_map g
    (Notes.findNote nid' (Notes.notes (Notes.appendToNote now nid text s)))
  = option_map g (Notes.findNote nid' (Notes.notes s)).
Proof.
  intros Hg. unfold Notes.appendToNote.
  destruct (negb (truthy text)); [done|].
  unfold Notes.setCurrentNote, Notes.setNotes. simpl Notes.notes.
  rewrite (Notes_find_map (Notes.updatedNote now text)) by done.
  destruct (strEq nid' nid) eqn:E; [|done].
  apply strEq_eq in E. subst nid'.
  destruct (Notes.findNote nid (Notes.notes s)); simpl; [|done].
  by rewrite Hg.
Qed.

Lemma Notes_find_effect {A} (g : Notes.Note -> A) now nid s :
  (forall now text n, g (Notes.updatedNote now text n) = g n) ->
  option_map g (Notes.findNote nid (Notes.notes (Notes.segmentEffect now s)))
  = option_map g (Notes.findNote nid (Notes.notes s)).
Proof.
  intros Hg. unfold Notes.segmentEffect.
  destruct (Notes.currentNote s) as [note|]; [|done].
  destruct (_ && _); [|done].
  unfold Notes.setLastProcessedSegment. simpl Notes.notes.
  by apply Notes_find_appendToNote.
Qed.

Lemma Notes_find_deliverAll {A} (g : Notes.Note -> A) nid segs : forall s,
  (forall now text n, g (Notes.updatedNote now text n) = g n) ->
  option_map g (Notes.findNote nid (Notes.notes (Notes.deliverAll segs s)))
  = option_map g (Notes.findNote nid (Notes.notes s)).
Proof.
  induction segs as [|[now seg] segs IH]; intros s Hg; [done|].
  unfold Notes.deliverAll. simpl fold_left.
  fold (Notes.deliverAll segs (Notes.deliver now seg s)).
  rewrite IH by done. rewrite Notes_deliver_once.
  by rewrite Notes_find_effect.
Qed.

(** X9.  [handleStartRecording] with no current note makes a note and
    makes it current, but does not start its recording: the handler still
    sees the [currentNote] of its render.  Whatever segments follow,
    [handleStopRecording] then changes nothing, so the note keeps the
    duration 0 and is never marked as recording. *)
Theorem X9_recording_without_note
    nowId createdIso updatedIso localeDate startIso now
    endIso now' (elapsed : jsstring -> Z) segs s :
  Notes.currentNote s = None ->
  let s1 := Notes.handleStartRecording nowId createdIso updatedIso localeDate
              startIso now s in
  let s2 := Notes.deliverAll segs s1 in
  let found {A} (f : Notes.Note -> A) (s : Notes.State) :=
    option_map f (Notes.findNote nowId (Notes.notes s)) in
  (exists note, Notes.currentNote s1 = Some note /\ Notes.id note = nowId)
  /\ found Notes.isRecording s1 = Some false
  /\ Notes.handleStopRecording endIso now' elapsed s2 = s2
  /\ found Notes.duration s2 = Some 0%Z
  /\ found Notes.isRecording s2 = Some false.
Proof.
  intros Hc s1 s2 found. subst found. cbv beta.
  set (newNote :=
         Notes.mkNote nowId (js "Meeting " ++ localeDate) [] createdIso
           updatedIso 0 0 (js "en-US") false (js "general") [] (js "normal")
           false false (Notes.mkMetadata None None 0 [] [] [])).
  assert (E1 : s1 = Notes.setLatestFinalSegment []
                 (Notes.setCurrentNote (Some newNote)
                    (Notes.setCurrentNote (Some newNote)
                       (Notes.setNotes (newNote :: Notes.notes s) s)))).
  { subst s1. unfold Notes.handleStartRecording. by rewrite Hc. }
  assert (F1 : Notes.findNote nowId (Notes.notes s1) = Some newNote).
  { rewrite E1. unfold Notes.findNote. simpl. by rewrite strEq_refl. }
  assert (C1 : Notes.currentNote s1 = Some newNote) by by rewrite E1.
  split; [by exists newNote|]. split; [by rewrite F1|].
  destruct (Notes_deliverAll_spec segs s1 newNote C1) as (_ & _ & n2 & C2 & I2).
  fold s2 in C2.
  pose proof (Notes_find_deliverAll Notes.metadata nowId segs s1
                (fun _ _ _ => eq_refl)) as M.
  pose proof (Notes_find_deliverAll Notes.duration nowId segs s1
                (fun _ _ _ => eq_refl)) as D.
  pose proof (Notes_find_deliverAll Notes.isRecording nowId segs s1
                (fun _ _ _ => eq_refl)) as R.
  fold s2 in M, D, R. rewrite F1 in M, D, R. simpl in M, D, R.
  split; [|by split].
  unfold Notes.handleStopRecording, Notes.stopRecording. rewrite C2.
  change (Notes.id newNote) with nowId in I2. rewrite I2.
  destruct (Notes.findNote nowId (Notes.notes s2)) as [m|]; [|done].
  simpl in M. injection M as M. by rewrite M.
Qed.

Lemma X9_recording_without_note_witness :
  let nowId := js "1700000000001" in
  let s := Notes.mkState [] (js "old") None [Examples.sampleNote] in
  let s1 := Notes.handleStartRecording nowId (js "c") (js "u") (js "1/1/2024")
              (js "start") (js "now") s in
  let s2 := Notes.deliverAll [(js "t1", js "hello")] s1 in
  let found {A} (f : Notes.Note -> A) (s : Notes.State) :=
    option_map f (Notes.findNote nowId (Notes.notes s)) in
  (exists note, Notes.currentNote s1 = Some note /\ Notes.id note = nowId)
  /\ found Notes.isRecording s1 = Some false
  /\ Notes.handleStopRecording (js "end") (js "now2") (fun _ => 60%Z) s2 = s2
  /\ found Notes.duration s2 = Some 0%Z
  /\ found Notes.isRecording s2 = Some false.
Proof.
  apply (X9_recording_without_note (js "1700000000001") (js "c") (js "u")
           (js "1/1/2024") (js "start") (js "now") (js "end") (js "now2")
           (fun _ => 60%Z) [(js "t1", js "hello")]
           (Notes.mkState [] (js "old") None [Examples.sampleNote])).
  reflexivity.
Defined.

(** X10.  A recording of the note found for an id, started by
    [startRecording] at a start time that is not the empty string and
    stopped by [stopRecording]: the note is marked as recording in
    between, and afterwards not; its duration has grown by the seconds
    elapsed since the start time, and its metadata hold the start and the
    end time.  The start time is not cleared, so stopping once more adds
    the seconds elapsed since the same start time again. *)
Theorem X10_recording_duration
    startIso now1 endIso now2 endIso' now3 (elapsed elapsed' : jsstring -> Z)
    nid s note :
  Notes.findNote nid (Notes.notes s) = Some note ->
  startIso <> [] ->
  let s1 := Notes.startRecording startIso now1 nid s in
  let s2 := Notes.stopRecording endIso now2 elapsed nid s1 in
  let s3 := Notes.stopRecording endIso' now3 elapsed' nid s2 in
  let found {A} (f : Notes.Note -> A) (s : Notes.State) :=
    option_map f (Notes.findNote nid (Notes.notes s)) in
  found Notes.isRecording s1 = Some true
  /\ found Notes.isRecording s2 = Some false
  /\ found Notes.duration s2 = Some (Notes.duration note + elapsed startIso)%Z
  /\ found (fun n => Notes.startTime (Notes.metadata n)) s2 = Some (Some startIso)
  /\ found (fun n => Notes.endTime (Notes.metadata n)) s2 = Some (Some endIso)
  /\ found Notes.content s2 = Some (Notes.content note)
  /\ found Notes.duration s3
     = Some (Notes.duration note + elapsed startIso + elapsed' startIso)%Z.
Proof.
  intros F Hs s1 s2 s3 found. subst found s3 s2 s1. cbv beta.
  destruct startIso as [|c startIso]; [done|].
  unfold Notes.stopRecording, Notes.startRecording.
  repeat (rewrite ?Notes_find_updateNote, ?F;
          cbn -[Notes.updateNote Z.add]).
  done.
Qed.

Lemma X10_recording_duration_witness :
  let nid := js "1700000000000" in
  let s := Examples.sampleApp in
  let note := Examples.sampleNote in
  let startIso := js "2024-01-01T10:00:00.000Z" in
  let endIso := js "2024-01-01T10:01:00.000Z" in
  let elapsed := fun _ : jsstring => 60%Z in
  let elapsed' := fun _ : jsstring => 75%Z in
  let s1 := Notes.startRecording startIso startIso nid s in
  let s2 := Notes.stopRecording endIso endIso elapsed nid s1 in
  let s3 := Notes.stopRecording endIso endIso elapsed' nid s2 in
  let found {A} (f : Notes.Note -> A) (s : Notes.State) :=
    option_map f (Notes.findNote nid (Notes.notes s)) in
  found Notes.isRecording s1 = Some true
  /\ found Notes.isRecording s2 = Some false
  /\ found Notes.duration s2 = Some (Notes.duration note + elapsed startIso)%Z
  /\ found (fun n => Notes.startTime (Notes.metadata n)) s2 = Some (Some startIso)
  /\ found (fun n => Notes.endTime (Notes.metadata n)) s2 = Some (Some endIso)
  /\ found Notes.content s2 = Some (Notes.content note)
  /\ found Notes.duration s3
     = Some (Notes.duration note + elapsed startIso + elapsed' startIso)%Z.
Proof.
  apply (X10_recording_duration (js "2024-01-01T10:00:00.000Z")
           (js "2024-01-01T10:00:00.000Z") (js "2024-01-01T10:01:00.000Z")
           (js "2024-01-01T10:01:00.000Z") (js "2024-01-01T10:01:00.000Z")
           (js "2024-01-01T10:01:00.000Z") (fun _ => 60%Z) (fun _ => 75%Z)
           (js "1700000000000") Examples.sampleApp Examples.sampleNote).
  - reflexivity.
  - vm_compute. discriminate.
Defined.

(** ** Categories and tags in sorted order *)

Lemma strLt_irrefl a : strLt a a = false.
Proof.
  induction a as [|x a IH]; simpl; [done|].
  by rewrite N.ltb_irrefl, N.eqb_refl, IH.
Qed.

Lemma strLt_trans a : forall b c,
  strLt a b = true -> strLt b c = true -> strLt a c = true.
Proof.
  induction a as [|x a IH]; intros [|y b] [|z c]; simpl; try done.
  intros H1 H2.
  apply orb_prop in H1. apply orb_prop in H2. apply orb_true_intro.
  destruct (N.ltb_spec x z) as [L|L]; [by left|]. right.
  destruct H1 as [H1|H1]; destruct H2 as [H2|H2].
  - apply N.ltb_lt in H1, H2. lia.
  - apply N.ltb_lt in H1. apply andb_prop in H2. destruct H2 as [H2 _].
    apply N.eqb_eq in H2. lia.
  - apply N.ltb_lt in H2. apply andb_prop in H1. destruct H1 as [H1 _].
    apply N.eqb_eq in H1. lia.
  - apply andb_prop in H1, H2. destruct H1 as [H1 H1'], H2 as [H2 H2'].
    apply N.eqb_eq in H1, H2. subst. rewrite N.eqb_refl. simpl.
    by apply (IH b c).
Qed.

Lemma strLt_total a : forall b,
  strLt a b = false -> a <> b -> strLt b a = true.
Proof.
  induction a as [|x a IH]; intros [|y b]; simpl; try done.
  intros H Hne. apply orb_false_elim in H. destruct H as [H1 H2].
  apply N.ltb_ge in H1.
  destruct (N.ltb_spec y x) as [L|L]; [done|]. simpl.
  assert (x = y) by lia. subst y. rewrite N.eqb_refl in *. simpl in *.
  apply IH; [done|]. congruence.
Qed.

Lemma insertSorted_In x y l : In y (insertSorted x l) <-> y = x \/ In y l.
Proof.
  induction l as [|z l IH]; simpl.
  - intuition.
  - destruct (strLt x z); simpl; rewrite ?IH; intuition.
Qed.

Lemma sortStrings_In y l : In y (sortStrings l) <-> In y l.
Proof.
  induction l as [|x l IH]; simpl; [done|].
  rewrite insertSorted_In, IH. intuition.
Qed.

Lemma ascending_tail x l : ascending (x :: l) = true -> ascending l = true.
Proof.
  destruct l as [|y l]; [done|]. simpl. intros H.
  apply andb_prop in H. tauto.
Qed.

Lemma insertSorted_ascending x l :
  ascending l = true -> ~ In x l -> ascending (insertSorted x l) = true.
Proof.
  induction l as [|y l IH]; intros Ha Hn; [done|].
  simpl insertSorted. destruct (strLt x y) eqn:E.
  - change (strLt x y && ascending (y :: l) = true). by rewrite E, Ha.
  - assert (Hyx : strLt y x = true).
    { apply strLt_total; [done|]. intros ->. apply Hn. by left. }
    assert (IH' : ascending (insertSorted x l) = true).
    { apply IH; [by apply (ascending_tail y)|]. intros H. apply Hn. by right. }
    destruct l as [|z l]; [simpl; by rewrite Hyx|].
    simpl insertSorted in *. destruct (strLt x z) eqn:E'.
    + change (strLt y x && ascending (x :: z :: l) = true). by rewrite Hyx, IH'.
    + change (strLt y z && ascending (z :: insertSorted x l) = true).
      rewrite IH'. simpl in Ha. apply andb_prop in Ha. destruct Ha as [Ha _].
      by rewrite Ha.
Qed.

Lemma sortStrings_ascending l : NoDup l -> ascending (sortStrings l) = true.
Proof.
  induction 1 as [|x l Hx Hl IH]; [done|].
  simpl. apply insertSorted_ascending; [done|].
  rewrite sortStrings_In. by rewrite <- list_elem_of_In.
Qed.

Lemma existsb_strEq x seen : existsb (strEq x) seen = true <-> In x seen.
Proof. apply includes_true. Qed.

Lemma unique_In y xs : forall seen,
  In y (unique seen xs) <-> In y xs /\ ~ In y seen.
Proof.
  induction xs as [|x xs IH]; intros seen; simpl; [tauto|].
  destruct (existsb (strEq x) seen) eqn:E.
  - apply existsb_strEq in E. rewrite IH. split.
    + tauto.
    + intros [[->|H] Hn]; tauto.
  - assert (Hx : ~ In x seen).
    { intros H. apply existsb_strEq in H. congruence. }
    simpl. rewrite IH. simpl. split.
    + intros [->|[H Hn]]; [tauto|]. split; [tauto|]. tauto.
    + intros [[->|H] Hn]; [tauto|].
      destruct (strEq x y) eqn:E'.
      * apply strEq_eq in E'. tauto.
      * right. split; [done|]. intros [->|H']; [|done].
        by rewrite strEq_refl in E'.
Qed.

Lemma unique_NoDup xs : forall seen, NoDup (unique seen xs).
Proof.
  induction xs as [|x xs IH]; intros seen; simpl; [constructor|].
  destruct (existsb (strEq x) seen); [apply IH|].
  constructor; [|apply IH].
  rewrite list_elem_of_In, unique_In. simpl. tauto.
Qed.

(** X11.  [getCategories] returns [all] followed by the categories of the
    notes and [getAllTags] returns the tags of the notes, each value
    once, in strictly ascending order of code units; nothing else is in
    the lists. *)
Theorem X11_categories_and_tags_sorted s :
  (exists l, Notes.getCategories s = js "all" :: l
             /\ ascending l = true
             /\ forall c, In c l
                  <-> exists n, In n (Notes.notes s) /\ Notes.category n = c)
  /\ ascending (Notes.getAllTags s) = true
  /\ forall t, In t (Notes.getAllTags s)
       <-> exists n, In n (Notes.notes s) /\ In t (Notes.tags n).
Proof.
  split; [|split].
  - eexists. split; [reflexivity|]. split.
    + apply sortStrings_ascending, unique_NoDup.
    + intros c. rewrite sortStrings_In, unique_In, in_map_iff. simpl.
      split.
      * intros [(n & H1 & H2) _]. by exists n.
      * intros (n & H1 & H2). split; [by exists n|tauto].
  - apply sortStrings_ascending, unique_NoDup.
  - intros t. unfold Notes.getAllTags.
    rewrite sortStrings_In, unique_In, in_flat_map. simpl. tauto.
Qed.

(** ** What the robust hook hands to the auto-push callback *)

Lemma Robust_scan_pushes ap rs (i f : jsstring) c p :
  exists c', fold_left (Robust.scanStep ap) rs (i, f, c, p)
             = (i ++ interimOf rs, f ++ spaced (finalsOf rs), c',
                p ++ (if ap then List.filter truthy (map trim (finalsOf rs))
                      else [])).
Proof.
  revert i f c p. induction rs as [|r rs IH]; intros i f c p.
  - exists c. destruct ap; simpl; by rewrite !app_nil_r.
  - cbn [fold_left interimOf finalsOf]. unfold Robust.scanStep at 2.
    destruct (isFinal r).
    + edestruct IH as (c' & E).
      exists c'. etrans; [exact E|]. f_equal; [do 2 f_equal|].
      * change (spaced (transcriptPart r :: finalsOf rs))
          with ((transcriptPart r ++ space) ++ spaced (finalsOf rs)).
        by rewrite <- !app_assoc.
      * destruct ap; simpl; [|done].
        destruct (truthy (trim (transcriptPart r))); [|done].
        by rewrite <- app_assoc.
    + edestruct IH as (c' & E).
      exists c'. etrans; [exact E|]. by rewrite <- app_assoc.
Qed.

Lemma Robust_onresult_pushed now ev s :
  Robust.pushed (Robust.onresult now ev s)
  = Robust.pushed s
    ++ (if Robust.autoPushCallbackRef s then Robust.emitted ev else [])
  /\ Robust.autoPushCallbackRef (Robust.onresult now ev s)
     = Robust.autoPushCallbackRef s.
Proof.
  unfold Robust.onresult, Robust.scan, Robust.emitted, finalTexts.
  edestruct (Robust_scan_pushes) as (c' & ->). hsimpl.
  destruct (truthy (trim _)); hsimpl;
    destruct (150 <? _)%nat; hsimpl;
    destruct (Robust.autoPushCallbackRef s) eqn:A; hsimpl;
    rewrite ?app_nil_r, <- ?app_assoc; done.
Qed.

(** X12.  With a callback registered, the robust hook calls it, event
    after event and in the order of the results, with the trimmed text of
    every final result that is not blank, and after those with the
    interim text of the event when it is longer than 150 characters.
    Without a callback it calls nothing. *)
Theorem X12_robust_emits_in_order evs : forall s,
  Robust.pushed (Robust.run evs s)
  = Robust.pushed s
    ++ (if Robust.autoPushCallbackRef s
        then concat (map (fun e => Robust.emitted (snd e)) evs)
        else []).
Proof.
  induction evs as [|[now ev] evs IH]; intros s.
  - simpl. by destruct (Robust.autoPushCallbackRef s); rewrite app_nil_r.
  - unfold Robust.run. simpl fold_left.
    fold (Robust.run evs (Robust.onresult now ev s)).
    rewrite IH. destruct (Robust_onresult_pushed now ev s) as [-> ->].
    destruct (Robust.autoPushCallbackRef s); simpl.
    + by rewrite <- app_assoc.
    + by rewrite !app_nil_r.
Qed.

(** ** The committed text of the robust hook *)

Lemma Robust_normalForm_sync s :
  Robust.normalForm s ->
  Robust.transcript s = trim (Robust.finalTranscriptRef s).
Proof.
  intros [[-> ->]|[Ht ->]]; [done|]. by rewrite trim_tight_space.
Qed.

Lemma Robust_onresult_normal now ev s :
  Robust.normalForm s -> Robust.normalForm (Robust.onresult now ev s).
Proof.
  intros Hn.
  pose proof (Robust_onresult_sync now ev s (Robust_normalForm_sync s Hn)) as Hs.
  pose proof (Robust_onresult_ref now ev s) as Hr.
  unfold Robust.normalForm. rewrite Hs, Hr.
  unfold Robust.appended.
  destruct (truthy (trim (spaced (finalTexts ev)))) eqn:T.
  - assert (Hc : tight (trim (spaced (finalTexts ev)))).
    { by apply trim_tight, truthy_true. }
    set (clean := trim (spaced (finalTexts ev))) in *.
    right. destruct Hn as [[-> _]|[Ht ->]].
    + simpl. rewrite trim_tight_space by done. done.
    + assert (Hj : tight (Robust.transcript s ++ space ++ clean))
        by by apply tight_join.
      rewrite <- !app_assoc.
      replace (Robust.transcript s ++ space ++ clean ++ space)
        with ((Robust.transcript s ++ space ++ clean) ++ space)
        by by rewrite <- !app_assoc.
      rewrite trim_tight_space by done. done.
  - rewrite app_nil_r. destruct Hn as [[-> Ht]|[Ht ->]].
    + by left.
    + right. rewrite trim_tight_space by done. done.
Qed.

Lemma Robust_execute_keeps_text c s :
  match c with
  | Robust.ResetTranscript => True
  | _ =>
      Robust.transcript (Robust.execute s c) = Robust.transcript s
      /\ Robust.finalTranscriptRef (Robust.execute s c)
         = Robust.finalTranscriptRef s
  end.
Proof.
  destruct c as [th| | | |l]; try done; simpl Robust.execute.
  - unfold Robust.startListening. by handler_cases.
  - unfold Robust.changeLanguage, Robust.stopListening. by handler_cases.
Qed.

Lemma Robust_perform_normal a s :
  Robust.normalForm s -> Robust.normalForm (Robust.perform s a).
Proof.
  intros Hn. destruct a as [c|c|sup was th]; simpl Robust.perform.
  - destruct c as [now ev| | | | | | | |];
      [by apply Robust_onresult_normal|..];
      match goal with
      | |- Robust.normalForm (Robust.dispatch s ?c) =>
          destruct (Robust_control_keeps_text c s) as (_ & _ & Kt & Kr)
      end;
      unfold Robust.normalForm; by rewrite Kt, Kr.
  - destruct c as [th| | | |l]; [| |by left|..];
      match goal with
      | |- Robust.normalForm (Robust.execute s ?c) =>
          destruct (Robust_execute_keeps_text c s) as (Kt & Kr)
      end;
      unfold Robust.normalForm; by rewrite Kt, Kr.
  - unfold Robust.changeLanguageTimeout, Robust.startListeningIn.
    unfold Robust.normalForm in *. by handler_cases.
Qed.

(** X13.  Whatever the environment and the application do to the robust
    hook from its mount on, its committed text is in normal form: either
    nothing is committed, or the transcript starts and ends with a
    character that is not white space and [finalTranscriptRef] is the
    transcript followed by one space. *)
Theorem X13_robust_normal_form now acts :
  Robust.normalForm (Robust.performAll acts (Robust.initial now)).
Proof.
  assert (H : forall s, Robust.normalForm s ->
                        Robust.normalForm (Robust.performAll acts s)).
  { induction acts as [|a acts IH]; intros s Hn; [done|].
    apply IH. by apply Robust_perform_normal. }
  apply H. by left.
Qed.

(** ** The interim text is bounded *)

Lemma Basic_onresult_isListening ev s :
  Basic.isListening (Basic.onresult ev s) = Basic.isListening s.
Proof.
  unfold Basic.onresult.
  destruct (Basic.scan _ _) as [[i f] c]. by destruct (truthy f).
Qed.

Lemma AutoPush_handle_bounded now ev s :
  AutoPush.autoPushCallbackRef s = true ->
  AutoPush.isListening s = true ->
  (length (AutoPush.interimTranscript s) <= 200)%nat ->
  let s' := AutoPush.handleResult now ev s in
  AutoPush.autoPushCallbackRef s' = true
  /\ AutoPush.isListening s' = true
  /\ (length (AutoPush.interimTranscript s') <= 200)%nat.
Proof.
  intros Hcb Hl Hb. unfold AutoPush.handleResult.
  set (s1 := AutoPush.onresult ev s).
  assert (Hcb1 : AutoPush.autoPushCallbackRef s1 = true) by exact Hcb.
  assert (Hl1 : AutoPush.isListening s1 = true).
  { unfold s1, AutoPush.isListening, AutoPush.onresult. simpl.
    by rewrite Basic_onresult_isListening. }
  destruct (strEq _ _) eqn:E.
  - apply strEq_eq in E. by rewrite E.
  - unfold AutoPush.interimEffect. rewrite Hl1.
    destruct (truthy (AutoPush.interimTranscript s1)) eqn:T; cbn [andb].
    2: { apply truthy_false in T. rewrite T. simpl. repeat split; [done..|lia]. }
    unfold AutoPush.checkAndPushInterim. rewrite T, Hcb1. cbn [andb].
    destruct (200 <? length (AutoPush.interimTranscript s1))%nat eqn:L;
      cbn [orb].
    + simpl. repeat split; [done..|lia].
    + apply Nat.ltb_ge in L.
      destruct (_ && _); simpl; repeat split; try done; lia.
Qed.

Lemma Robust_onresult_bounded now ev s :
  Robust.autoPushCallbackRef s = true ->
  (length (Robust.interimTranscript (Robust.onresult now ev s)) <= 150)%nat.
Proof.
  intros Hcb. unfold Robust.onresult, Robust.scan.
  edestruct (Robust_scan_pushes) as (c' & ->). hsimpl.
  destruct (truthy (trim _)); hsimpl; rewrite Hcb;
    destruct (150 <? _)%nat eqn:L; hsimpl;
    try lia; by apply Nat.ltb_ge in L.
Qed.

(** X14.  While a callback is registered the hooks never hold a long
    interim text.  In the auto-push hook, listening, the interim text
    after any sequence of result events is at most 200 characters long
    when it was so before; in the robust hook it is at most 150
    characters long after every result event. *)
Theorem X14_interim_bounded
    (evs tevs : list (Z * Event)) (a : AutoPush.State) (r : Robust.State) :
  AutoPush.autoPushCallbackRef a = true ->
  AutoPush.isListening a = true ->
  (length (AutoPush.interimTranscript a) <= 200)%nat ->
  Robust.autoPushCallbackRef r = true ->
  (length (Robust.interimTranscript r) <= 150)%nat ->
  (length (AutoPush.interimTranscript (AutoPush.run evs a)) <= 200)%nat
  /\ (length (Robust.interimTranscript (Robust.run tevs r)) <= 150)%nat.
Proof.
  intros Ha1 Ha2 Ha3 Hr1 Hr2. split.
  - revert a Ha1 Ha2 Ha3.
    induction evs as [|[now ev] evs IH]; intros a Ha1 Ha2 Ha3; [done|].
    unfold AutoPush.run. simpl fold_left.
    fold (AutoPush.run evs (AutoPush.handleResult now ev a)).
    destruct (AutoPush_handle_bounded now ev a Ha1 Ha2 Ha3) as (H1 & H2 & H3).
    by apply IH.
  - revert r Hr1 Hr2.
    induction tevs as [|[now ev] tevs IH]; intros r Hr1 Hr2; [done|].
    unfold Robust.run. simpl fold_left.
    fold (Robust.run tevs (Robust.onresult now ev r)).
    apply IH.
    + by destruct (Robust_onresult_pushed now ev r) as [_ ->].
    + by apply Robust_onresult_bounded.
Qed.

Lemma X14_interim_bounded_witness :
  let evs :=
    [(1%Z, Partial Examples.text60); (2%Z, Partial Examples.text210);
     (3%Z, Final (js "done")); (20000%Z, Partial Examples.text60)] in
  (length (AutoPush.interimTranscript
             (AutoPush.run evs Examples.autoPushListening)) <= 200)%nat
  /\ (length (Robust.interimTranscript
                (Robust.run evs Examples.robustPushing)) <= 150)%nat.
Proof.
  apply (X14_interim_bounded
           [(1%Z, Partial Examples.text60); (2%Z, Partial Examples.text210);
            (3%Z, Final (js "done")); (20000%Z, Partial Examples.text60)]
           [(1%Z, Partial Examples.text60); (2%Z, Partial Examples.text210);
            (3%Z, Final (js "done")); (20000%Z, Partial Examples.text60)]
           Examples.autoPushListening Examples.robustPushing);
    vm_compute; first [reflexivity | lia | (intros; discriminate) | idtac].
Defined.

(** ** A flushed text that the engine finalises afterwards *)

Lemma AutoPush_handle_Final now text s :
  AutoPush.interimTranscript s = [] ->
  let s' := AutoPush.handleResult now (Final text) s in
  AutoPush.finalTranscriptRef s' = AutoPush.finalTranscriptRef s ++ text ++ space
  /\ AutoPush.pushed s' = AutoPush.pushed s
  /\ AutoPush.transcript s'
     = trim (AutoPush.finalTranscriptRef s ++ text ++ space).
Proof.
  intros Hi. unfold AutoPush.handleResult.
  set (s1 := AutoPush.onresult (Final text) s).
  assert (E : AutoPush.interimTranscript s1 = []) by done.
  rewrite E, Hi. simpl strEq. cbv iota zeta.
  unfold s1, AutoPush.onresult, AutoPush.finalTranscriptRef, AutoPush.transcript.
  simpl AutoPush.base. simpl AutoPush.pushed.
  unfold Basic.onresult, Basic.scan. cbn [processed Final resultIndex results drop fold_left Basic.scanStep isFinal transcriptPart app].
  assert (T : truthy (text ++ space) = true) by by destruct text.
  rewrite T. done.
Qed.

(** X15.  A text that a hook has force-flushed as a long partial result
    is taken once more when the engine then delivers it as a final
    result.  The auto-push hook commits it to the transcript a second
    time; the robust hook, which commits a flushed text not at all, calls
    the callback a second time, with the trimmed text. *)
Theorem X15_flushed_text_repeated
    (text : jsstring) (now now' : Z) (a : AutoPush.State) (r : Robust.State) :
  (200 < length text)%nat ->
  AutoPush.autoPushCallbackRef a = true ->
  AutoPush.isListening a = true ->
  AutoPush.interimTranscript a <> text ->
  Robust.autoPushCallbackRef r = true ->
  let a2 := AutoPush.handleResult now' (Final text)
              (AutoPush.handleResult now (Partial text) a) in
  let r2 := Robust.onresult now' (Final text)
              (Robust.onresult now (Partial text) r) in
  AutoPush.finalTranscriptRef a2
  = AutoPush.finalTranscriptRef a ++ (text ++ space) ++ (text ++ space)
  /\ AutoPush.pushed a2 = AutoPush.pushed a ++ [text]
  /\ Robust.pushed r2
     = Robust.pushed r ++ [text] ++ List.filter truthy [trim text]
  /\ Robust.finalTranscriptRef r2
     = Robust.finalTranscriptRef r ++ Robust.appended (Final text).
Proof.
  intros Hlen Hcb Hl Hne Hr a2 r2.
  destruct (AutoPush_handle_long_partial now text a Hlen Hcb Hl Hne)
    as (P1 & P2 & _ & P4).
  destruct (AutoPush_handle_Final now' text _ P4) as (F1 & F2 & _).
  split; [|split; [|split]].
  - unfold a2. rewrite F1, P2. by rewrite <- !app_assoc.
  - unfold a2. by rewrite F2, P1.
  - unfold r2.
    destruct (Robust_onresult_pushed now (Partial text) r) as [Q1 Q2].
    destruct (Robust_onresult_pushed now' (Final text)
                (Robust.onresult now (Partial text) r)) as [Q3 _].
    rewrite Q3, Q2, Q1, Hr. unfold Robust.emitted.
    cbn [finalTexts processed Partial Final resultIndex results drop finalsOf
         interimOf isFinal transcriptPart map List.filter app].
    rewrite app_nil_r.
    assert (L : (150 <? length text)%nat = true) by (apply Nat.ltb_lt; lia).
    rewrite L. simpl (150 <? length [])%nat. cbv iota.
    by rewrite app_nil_r, <- app_assoc.
  - unfold r2. rewrite !Robust_onresult_ref.
    assert (E : Robust.appended (Partial text) = []) by done.
    by rewrite E, app_nil_r.
Qed.

Lemma X15_flushed_text_repeated_witness :
  let text := Examples.text210 in
  let a := Examples.autoPushListening in
  let r := Examples.robustPushing in
  let a2 := AutoPush.handleResult 7 (Final text)
              (AutoPush.handleResult 5 (Partial text) a) in
  let r2 := Robust.onresult 7 (Final text)
              (Robust.onresult 5 (Partial text) r) in
  AutoPush.finalTranscriptRef a2
  = AutoPush.finalTranscriptRef a ++ (text ++ space) ++ (text ++ space)
  /\ AutoPush.pushed a2 = AutoPush.pushed a ++ [text]
  /\ Robust.pushed r2
     = Robust.pushed r ++ [text] ++ List.filter truthy [trim text]
  /\ Robust.finalTranscriptRef r2
     = Robust.finalTranscriptRef r ++ Robust.appended (Final text).
Proof.
  apply (X15_flushed_text_repeated Examples.text210 5 7
           Examples.autoPushListening Examples.robustPushing);
    vm_compute; first [reflexivity | lia | discriminate].
Defined.

(** ** The restart guard of the robust hook *)

Lemma Robust_restartRecognition_again l' s :
  Robust.restartRecognition l' (Robust.restartRecognition true s)
  = Robust.restartRecognition true s.
Proof.
  unfold Robust.restartRecognition.
  destruct (Robust.isRestartingRef s) eqn:R; simpl.
  - by rewrite R.
  - done.
Qed.

Lemma Robust_restartRecognition_guarded l s :
  Robust.guarded s -> Robust.guarded (Robust.restartRecognition l s).
Proof.
  unfold Robust.guarded, Robust.restartRecognition. intros G.
  destruct (Robust.isRestartingRef s) eqn:R; cbn [orb].
  - destruct (Robust.restartTimeoutRef s); [by rewrite R|done].
  - destruct l; cbn [negb]; [done|].
    destruct (Robust.restartTimeoutRef s); [by rewrite R|done].
Qed.

Lemma Robust_restartTimeoutFire_clears th s :
  Robust.guarded s ->
  Robust.restartTimeoutRef (Robust.restartTimeoutFire th s) = None
  /\ Robust.timeouts (Robust.restartTimeoutFire th s) = Robust.timeouts s.
Proof.
  unfold Robust.guarded, Robust.restartTimeoutFire, Robust.restartRecognition.
  destruct (Robust.restartTimeoutRef s) as [[d l]|] eqn:T; [|done].
  intros R. destruct l, th; hsimpl; rewrite ?R; hsimpl;
    try destruct (_ <? _)%Z; done.
Qed.

Lemma Robust_guarded_frame s s' :
  Robust.restartTimeoutRef s' = Robust.restartTimeoutRef s ->
  Robust.isRestartingRef s' = Robust.isRestartingRef s ->
  Robust.guarded s -> Robust.guarded s'.
Proof. unfold Robust.guarded. by intros -> ->. Qed.

Lemma Robust_dispatch_guarded c s :
  Robust.guarded s -> Robust.guarded (Robust.dispatch s c).
Proof.
  intros G. destruct c as [now ev|l e|l|now|th|i|now| |]; simpl Robust.dispatch.
  - revert G. apply Robust_guarded_frame.
    + by destruct (Robust_onresult_control now ev s) as (_ & _ & E & _).
    + unfold Robust.onresult, Robust.scan.
      edestruct (Robust_scan_pushes) as (c' & ->). hsimpl.
      destruct (truthy (trim _)); hsimpl; by destruct (_ && _).
  - revert G. apply Robust_guarded_frame;
      unfold Robust.onerror, Robust.addTimeout; by handler_cases.
  - revert G. apply Robust_guarded_frame;
      unfold Robust.onend, Robust.addTimeout; by handler_cases.
  - done.
  - destruct (Robust_restartTimeoutFire_clears th s G) as [E _].
    unfold Robust.guarded. by rewrite E.
  - unfold Robust.fireTimeout.
    destruct (Robust.timeouts s !! i) as [t|]; [|done].
    destruct t as [d l|l]; [|destruct l]; try done;
      by apply Robust_restartRecognition_guarded.
  - unfold Robust.monitorTick.
    destruct (Robust.isListening s); [|done].
    destruct (_ && _); [|done]. by apply Robust_restartRecognition_guarded.
  - unfold Robust.rotationTick.
    destruct (Robust.isListening s); [|done].
    destruct (_ && _); [|done]. by apply Robust_restartRecognition_guarded.
  - done.
Qed.

Lemma Robust_perform_guarded a s :
  Robust.guarded s -> Robust.guarded (Robust.perform s a).
Proof.
  intros G. destruct a as [c|c|sup was th]; simpl Robust.perform.
  - by apply Robust_dispatch_guarded.
  - destruct c as [th| | | |l]; simpl Robust.execute; try done.
    + revert G. apply Robust_guarded_frame;
        unfold Robust.startListening; by handler_cases.
    + unfold Robust.guarded, Robust.changeLanguage, Robust.stopListening.
      by destruct (Robust.isListening s).
  - revert G. apply Robust_guarded_frame;
      unfold Robust.changeLanguageTimeout, Robust.startListeningIn;
      by handler_cases.
Qed.

Lemma Robust_performAll_guarded acts : forall s,
  Robust.guarded s -> Robust.guarded (Robust.performAll acts s).
Proof.
  induction acts as [|a acts IH]; intros s G; [done|].
  apply IH. by apply Robust_perform_guarded.
Qed.

(** X16.  The restart guard of the robust hook.  While a restart is in
    flight a further call of [restartRecognition] does nothing, so the
    triggers of one outage arm one timer.  In every state the hook can
    reach from its mount, the firing of the restart timer leaves no
    restart timer pending and adds no other timer, also when [start()]
    raises: the call of [restartRecognition] in the [catch] block finds
    the restart still marked as in flight and returns. *)
Theorem X16_restart_guard now acts th l' s0 :
  let s := Robust.performAll acts (Robust.initial now) in
  Robust.restartRecognition l' (Robust.restartRecognition true s0)
  = Robust.restartRecognition true s0
  /\ Robust.restartTimeoutRef (Robust.restartTimeoutFire th s) = None
  /\ Robust.timeouts (Robust.restartTimeoutFire th s) = Robust.timeouts s.
Proof.
  intros s. split; [by apply Robust_restartRecognition_again|].
  apply Robust_restartTimeoutFire_clears.
  by apply Robust_performAll_guarded.
Qed.

Lemma Robust_onresult_isRestarting now ev s :
  Robust.isRestartingRef (Robust.onresult now ev s) = Robust.isRestartingRef s.
Proof.
  unfold Robust.onresult, Robust.scan.
  edestruct (Robust_scan_pushes) as (c' & ->). hsimpl.
  destruct (truthy (trim _)); hsimpl; by destruct (_ && _).
Qed.

Lemma Robust_wedged_step c s :
  Robust.wedged s ->
  Robust.wedged (Robust.dispatch s c)
  /\ Robust.startCalls (Robust.dispatch s c) = Robust.startCalls s.
Proof.
  intros [R T]. unfold Robust.wedged.
  destruct c as [now ev|l e|l|now|th|i|now| |]; simpl Robust.dispatch.
  - destruct (Robust_onresult_control now ev s) as (_ & E1 & E2 & _).
    by rewrite Robust_onresult_isRestarting, E1, E2.
  - unfold Robust.onerror, Robust.addTimeout. by handler_cases.
  - unfold Robust.onend, Robust.addTimeout. by handler_cases.
  - done.
  - unfold Robust.restartTimeoutFire. by rewrite T.
  - unfold Robust.fireTimeout, Robust.restartRecognition.
    destruct (Robust.timeouts s !! i) as [t|]; [|done].
    destruct t as [d l|l]; [|destruct l]; hsimpl; by rewrite ?R.
  - unfold Robust.monitorTick. rewrite R.
    destruct (Robust.isListening s); [|done]. by rewrite andb_false_r.
  - unfold Robust.rotationTick. rewrite R.
    by destruct (Robust.isListening s).
  - done.
Qed.

Lemma Robust_wedged_run cs : forall s,
  Robust.wedged s ->
  Robust.wedged (Robust.runCallbacks cs s)
  /\ Robust.startCalls (Robust.runCallbacks cs s) = Robust.startCalls s.
Proof.
  induction cs as [|c cs IH]; intros s W; [done|].
  unfold Robust.runCallbacks. simpl fold_left.
  fold (Robust.runCallbacks cs (Robust.dispatch s c)).
  destruct (Robust_wedged_step c s W) as [W' E].
  destruct (IH _ W') as [W'' E']. split; [done|]. by rewrite E', E.
Qed.

(** X17.  A restart marked as in flight whose timer is gone blocks every
    later restart.  [isRestartingRef] is reset only by the callback of
    the restart timer and by [stopListening]; when the timer is cleared
    by the cleanup of the mount effect, as after a fatal error during a
    backoff, the mark stays.  From then on no callback of the engine, of
    a timer, of the monitor or of the rotation calls [start()] or arms
    the restart timer, also in a session that [startListening] begins
    afterwards: that session has the one [start()] of [startListening]
    and no restart. *)
Theorem X17_wedged_restart th cs s :
  Robust.wedged s ->
  let s1 := Robust.startListening th s in
  let s' := Robust.runCallbacks cs s1 in
  Robust.wedged s'
  /\ Robust.startCalls s' = Robust.startCalls s1
  /\ (Robust.startCalls s1 <= S (Robust.startCalls s))%nat.
Proof.
  intros W s1 s'.
  assert (W1 : Robust.wedged s1).
  { destruct W as [R T]. unfold s1, Robust.wedged, Robust.startListening.
    by handler_cases. }
  destruct (Robust_wedged_run cs s1 W1) as [W' E].
  split; [done|]. split; [done|].
  unfold s1, Robust.startListening. handler_cases; lia.
Qed.

Lemma X17_wedged_restart_witness :
  let s := Examples.robustWedged in
  let s1 := Robust.startListening false s in
  let s' :=
    Robust.runCallbacks
      [Robust.Rerender; Robust.OnStart 40000; Robust.OnEnd true;
       Robust.Timeout 1; Robust.RestartTimeout false;
       Robust.MonitorTick 80000; Robust.RotationTick;
       Robust.RestartTimeout false]
      s1 in
  Robust.wedged s'
  /\ Robust.startCalls s' = Robust.startCalls s1
  /\ (Robust.startCalls s1 <= S (Robust.startCalls s))%nat.
Proof.
  apply (X17_wedged_restart false
           [Robust.Rerender; Robust.OnStart 40000; Robust.OnEnd true;
            Robust.Timeout 1; Robust.RestartTimeout false;
            Robust.MonitorTick 80000; Robust.RotationTick;
            Robust.RestartTimeout false]
           Examples.robustWedged).
  vm_compute. split; reflexivity.
Defined.

(** ** Errors of the engine and the retry budget *)

Lemma Robust_onerror_noSpeech l s :
  Robust.onerror l (js "no-speech") s =
  let s := Robust.setConsecutiveErrorsRef (Robust.consecutiveErrorsRef s + 1) s in
  if l then Robust.addTimeout (Robust.RestartAfter 500 l) s else s.
Proof. reflexivity. Qed.

Lemma Robust_noSpeech_spec l n : forall s,
  let s' := Robust.noSpeech l n s in
  Robust.isListening s' = Robust.isListening s
  /\ Robust.error s' = Robust.error s
  /\ Robust.restartTimeoutRef s' = Robust.restartTimeoutRef s
  /\ Robust.startCalls s' = Robust.startCalls s
  /\ Robust.consecutiveErrorsRef s'
     = (Robust.consecutiveErrorsRef s + Z.of_nat n)%Z
  /\ Robust.timeouts s'
     = Robust.timeouts s
       ++ (if l then replicate n (Robust.RestartAfter 500 true) else []).
Proof.
  induction n as [|n IH]; intros s; cbv zeta.
  - simpl. rewrite Z.add_0_r. by destruct l; rewrite app_nil_r.
  - unfold Robust.noSpeech in *. rewrite Nat.iter_succ_r.
    destruct (IH (Robust.onerror l (js "no-speech") s))
      as (H1 & H2 & H3 & H4 & H5 & H6).
    rewrite H1, H2, H3, H4, H5, H6. clear IH H1 H2 H3 H4 H5 H6.
    rewrite Robust_onerror_noSpeech. cbv zeta.
    unfold Robust.addTimeout. destruct l; hsimpl.
    + repeat split; try done; [lia|]. by rewrite <- app_assoc.
    + repeat split; try done. lia.
Qed.

(** X18.  Errors of kind [no-speech] never end a session: any number of
    them in a row leaves [isListening] and [error] alone and queues one
    500 ms restart each.  Each of them is counted in
    [consecutiveErrorsRef] all the same, so they use up the budget of the
    errors that can end it: a [network] error that follows them ends the
    session as soon as the count, this error included, reaches 5. *)
Theorem X18_no_speech_uses_budget l n s :
  let s' := Robust.noSpeech true n s in
  let count := (Robust.consecutiveErrorsRef s + Z.of_nat n)%Z in
  Robust.isListening s' = Robust.isListening s
  /\ Robust.error s' = Robust.error s
  /\ Robust.consecutiveErrorsRef s' = count
  /\ Robust.timeouts s'
     = Robust.timeouts s ++ replicate n (Robust.RestartAfter 500 true)
  /\ Robust.isListening (Robust.onerror l (js "network") s')
     = (if (count + 1 <? 5)%Z then Robust.isListening s else false).
Proof.
  intros s' count.
  destruct (Robust_noSpeech_spec true n s) as (H1 & H2 & _ & _ & H5 & H6).
  fold s' in H1, H2, H5, H6. repeat split; try done.
  rewrite Robust_onerror_network. cbv zeta. hsimpl. rewrite H5.
  fold count. unfold Robust.maxConsecutiveErrors.
  by destruct (count + 1 <? 5)%Z.
Qed.


(** ** Starting, and changing the language *)

(** X20.  A second [startListening] changes nothing, in the basic and in
    the robust hook alike: when the first call has started the engine the
    second finds the hook listening and returns, so [start()] is not
    called on an engine that is running; when the browser has no engine
    both calls set the same error. *)
Theorem X20_start_twice th (b : Basic.State) (r : Robust.State) :
  Basic.startListening th (Basic.startListening false b)
  = Basic.startListening false b
  /\ Robust.startListening th (Robust.startListening false r)
     = Robust.startListening false r.
Proof.
  split.
  - unfold Basic.startListening, Basic.startListeningIn.
    destruct (Basic.isSupported b) eqn:S, (Basic.isListening b) eqn:L;
      simpl; rewrite ?S, ?L; done.
  - unfold Robust.startListening.
    destruct (Robust.isSupported r) eqn:S, (Robust.isListening r) eqn:L;
      simpl; rewrite ?S, ?L; done.
Qed.

(** X21.  [changeLanguage] of the robust hook never resumes listening.
    When the hook is listening it stops it and sets the language; the
    callback it leaves with [setTimeout] calls the [startListening] of the
    render that made [changeLanguage], which still sees [isListening]
    true and so does nothing.  After the call, the render and the timer
    the hook is not listening and [start()] has not been called. *)
Theorem X21_change_language_stops newLanguage th s :
  let s1 := Robust.changeLanguage newLanguage s in
  let s2 :=
    Robust.changeLanguageTimeout (Robust.isSupported s) (Robust.isListening s)
      th (Robust.rerender s1) in
  Robust.language s1 = newLanguage
  /\ Robust.language s2 = newLanguage
  /\ Robust.isListening s2 = false
  /\ Robust.startCalls s2 = Robust.startCalls s
  /\ Robust.transcript s2 = Robust.transcript s.
Proof.
  unfold Robust.changeLanguage, Robust.changeLanguageTimeout,
    Robust.startListeningIn, Robust.stopListening, Robust.rerender.
  destruct (Robust.isListening s) eqn:L, (Robust.isSupported s) eqn:S;
    simpl; by rewrite ?L.
Qed.

(** ** The restart after an error in the basic hook *)

(** X22.  The restart that [onerror] of the basic hook schedules never
    happens.  Whatever the error and whatever the render that created the
    handler, the timer that [onerror] has queued, when it fires, calls
    neither [start()] nor changes [isListening]: its callback calls
    [startListening] only when it sees [isListening] true, and that
    [startListening] starts the engine only when it sees it false. *)
Theorem X22_basic_error_restart_dead supported listening e th s :
  let s1 := Basic.onerror supported listening e s in
  let s2 := Basic.fireTimeout th (length (Basic.timeouts s)) s1 in
  Basic.error s1 = Some e
  /\ Basic.startCalls s2 = Basic.startCalls s
  /\ Basic.isListening s2 = Basic.isListening s
  /\ Basic.timeouts s2 = Basic.timeouts s.
Proof.
  unfold Basic.onerror, Basic.fireTimeout.
  destruct (Basic.autoRestartError e); hsimpl.
  - rewrite lookup_app_r by done. rewrite Nat.sub_diag. hsimpl.
    assert (D : delete (length (Basic.timeouts s))
                  (Basic.timeouts s
                   ++ [(Basic.ErrorRestart supported listening, 1000%Z)])
                = Basic.timeouts s).
    { induction (Basic.timeouts s) as [|t ts IH]; [done|].
      simpl. by rewrite IH. }
    unfold Basic.startListeningIn.
    destruct listening, supported; hsimpl; by rewrite ?D.
  - rewrite lookup_ge_None_2 by done. done.
Qed.

(** ** The streaming hook: messages, socket and microphone *)

(** X23.  The streaming hook ignores every message that is not a turn
    with a text: a message of another type, and a turn whose transcript
    is empty, leave the state as it is.  An end of turn without text in
    particular does not clear the interim text. *)
Theorem X23_streaming_ignores_message data s :
  strEq (Streaming.msgType data) (js "Turn") = false
  \/ Streaming.msgTranscript data = [] ->
  Streaming.onmessage data s = s.
Proof.
  unfold Streaming.onmessage. intros [->| ->]; [done|].
  destruct (strEq _ _); [|done]. by rewrite !andb_false_r.
Qed.

Lemma X23_streaming_ignores_message_witness :
  let s := Streaming.onmessage (Streaming.Partial (js "hello wor"))
             Streaming.initial in
  Streaming.onmessage (Streaming.Final []) s = s.
Proof.
  apply (X23_streaming_ignores_message (Streaming.Final [])
           (Streaming.onmessage (Streaming.Partial (js "hello wor"))
              Streaming.initial)).
  right. reflexivity.
Defined.

(** X24.  No event of the socket releases anything.  Whatever the socket
    reports, the refs keep what they hold, the capture is not stopped and
    the socket is not closed by the hook.  After a [close] or an [error]
    event the hook is not listening, and [stopListening], which returns
    at once when the hook is not listening, releases nothing either: the
    capture that [micStreamRef] holds keeps running. *)
Theorem X24_socket_events_release_nothing e s :
  let s' := Streaming.handle s e in
  Streaming.micStreamRef s' = Streaming.micStreamRef s
  /\ Streaming.socketRef s' = Streaming.socketRef s
  /\ Streaming.capturesStopped s' = Streaming.capturesStopped s
  /\ Streaming.socketsClosed s' = Streaming.socketsClosed s
  /\ match e with
     | Streaming.Close | Streaming.SocketError =>
         Streaming.isListening (Streaming.hook s') = false
         /\ Streaming.stopListening s' = s'
     | _ => True
     end.
Proof.
  destruct e; simpl; repeat split; done.
Qed.

(** X25.  [startListening] of the streaming hook when no usable token
    comes.  When the request fails, when it answers with a status other
    than 200, and when the body of the answer is [null], on which
    [data.token] raises, the error is
    [Failed to connect to speech service.]; when it answers 200 with a
    body that has no token or an empty one, no error is set at all.  In
    all these cases the call returns without a socket and without asking
    for the microphone, and the hook is not listening. *)
Theorem X25_streaming_no_token r socketThrows s :
  Streaming.isListening (Streaming.hook s) = false ->
  Streaming.usable r = false ->
  let s' := fst (Streaming.startListening r socketThrows s) in
  snd (Streaming.startListening r socketThrows s) = Streaming.Returned
  /\ Streaming.socketRef s' = Streaming.socketRef s
  /\ Streaming.socketsOpened s' = Streaming.socketsOpened s
  /\ Streaming.capturesOpened s' = Streaming.capturesOpened s
  /\ Streaming.isListening (Streaming.hook s') = false
  /\ Streaming.error (Streaming.hook s')
     = match r with
       | Streaming.Responds status (Streaming.Body _) =>
           if (status =? 200)%Z then None
           else Some (js "Failed to connect to speech service.")
       | Streaming.Responds _ Streaming.NullBody | Streaming.FetchRejects =>
           Some (js "Failed to connect to speech service.")
       end.
Proof.
  intros L U. unfold Streaming.startListening. rewrite L.
  destruct r as [|status [|token]]; [done| |].
  - unfold Streaming.getToken. by destruct (status =? 200)%Z.
  - unfold Streaming.getToken, Streaming.usable in *.
    destruct (status =? 200)%Z; [|done].
    destruct token as [t|]; [|done]. simpl in U. by rewrite U.
Qed.

Lemma X25_streaming_no_token_witness :
  let s := Streaming.initialSession in
  let s' :=
    fst (Streaming.startListening
           (Streaming.Responds 200 (Streaming.Body (Some []))) false s) in
  snd (Streaming.startListening
         (Streaming.Responds 200 (Streaming.Body (Some []))) false s)
  = Streaming.Returned
  /\ Streaming.socketRef s' = Streaming.socketRef s
  /\ Streaming.socketsOpened s' = Streaming.socketsOpened s
  /\ Streaming.capturesOpened s' = Streaming.capturesOpened s
  /\ Streaming.isListening (Streaming.hook s') = false
  /\ Streaming.error (Streaming.hook s') = None.
Proof.
  apply (X25_streaming_no_token
           (Streaming.Responds 200 (Streaming.Body (Some []))) false
           Streaming.initialSession); reflexivity.
Defined.

Lemma Streaming_start_usable r s :
  Streaming.isListening (Streaming.hook s) = false ->
  Streaming.usable r = true ->
  Streaming.startListening r false s
  = (Streaming.setSocketRef true
       (Streaming.setSocketsOpened (S (Streaming.socketsOpened s))
          (Streaming.setHook (Streaming.setError None (Streaming.hook s)) s)),
     Streaming.AwaitsUserMedia).
Proof.
  intros L U. unfold Streaming.startListening. rewrite L.
  destruct r as [|status [|[t|]]]; try done. simpl in U.
  apply andb_prop in U. destruct U as [U1 U2].
  unfold Streaming.getToken. by rewrite U1, U2.
Qed.

Lemma Streaming_handleAll_frame es : forall s,
  let s' := Streaming.handleAll es s in
  Streaming.micStreamRef s' = Streaming.micStreamRef s
  /\ Streaming.socketRef s' = Streaming.socketRef s
  /\ Streaming.capturesStopped s' = Streaming.capturesStopped s
  /\ Streaming.socketsClosed s' = Streaming.socketsClosed s
  /\ Streaming.capturesOpened s' = Streaming.capturesOpened s
  /\ Streaming.socketsOpened s' = Streaming.socketsOpened s.
Proof.
  induction es as [|e es IH]; intros s; [done|].
  cbv zeta. unfold Streaming.handleAll. simpl fold_left.
  fold (Streaming.handleAll es (Streaming.handle s e)).
  destruct (IH (Streaming.handle s e)) as (H1 & H2 & H3 & H4 & H5 & H6).
  rewrite H1, H2, H3, H4, H5, H6. by destruct e.
Qed.

(** X26.  A microphone granted after [stopListening].  The application
    starts the hook, the socket opens, and the application stops the hook
    while the browser still waits for the permission: the socket is
    closed and [socketRef] emptied.  When the permission then comes,
    [startListening] goes on and stores the running capture in
    [micStreamRef].  Whatever the old socket reports from then on,
    [stopListening] returns at once, because [socketRef] is empty: the
    capture keeps running and is never stopped. *)
Theorem X26_capture_after_stop r es s :
  Streaming.isListening (Streaming.hook s) = false ->
  Streaming.usable r = true ->
  let s1 := fst (Streaming.startListening r false s) in
  let s2 := Streaming.stopListening (Streaming.onopen s1) in
  let s3 := Streaming.userMediaSettled Streaming.CaptureReady s2 in
  let s4 := Streaming.handleAll es s3 in
  snd (Streaming.startListening r false s) = Streaming.AwaitsUserMedia
  /\ Streaming.socketRef s2 = false
  /\ Streaming.socketsClosed s2 = S (Streaming.socketsClosed s)
  /\ Streaming.micStreamRef s4 = true
  /\ Streaming.capturesOpened s4 = S (Streaming.capturesOpened s)
  /\ Streaming.capturesStopped s4 = Streaming.capturesStopped s2
  /\ Streaming.stopListening s4 = s4.
Proof.
  intros L U s1 s2 s3 s4.
  pose proof (Streaming_start_usable r s L U) as E.
  assert (E1 : s1 = fst (Streaming.setSocketRef true
       (Streaming.setSocketsOpened (S (Streaming.socketsOpened s))
          (Streaming.setHook (Streaming.setError None (Streaming.hook s)) s)),
     Streaming.AwaitsUserMedia)) by (unfold s1; by rewrite E).
  rewrite E. cbn [fst snd] in *. clearbody s1. subst s1.
  destruct (Streaming_handleAll_frame es s3) as (H1 & H2 & H3 & _ & H5 & _).
  fold s4 in H1, H2, H3, H5.
  assert (E2 : Streaming.socketRef s2 = false
               /\ Streaming.socketsClosed s2 = S (Streaming.socketsClosed s)
               /\ Streaming.capturesOpened s2 = Streaming.capturesOpened s).
  { unfold s2, Streaming.stopListening. simpl.
    by destruct (Streaming.micStreamRef s). }
  destruct E2 as (E2 & E2' & E2'').
  split; [done|]. split; [done|]. split; [done|].
  split; [by rewrite H1|]. split.
  { rewrite H5. unfold s3, Streaming.userMediaSettled.
    change (S (Streaming.capturesOpened s2) = S (Streaming.capturesOpened s)).
    by rewrite E2''. }
  split; [by rewrite H3|].
  unfold Streaming.stopListening. rewrite H2.
  assert (E3 : Streaming.socketRef s3 = false) by exact E2.
  rewrite E3. by rewrite orb_true_r.
Qed.

Lemma X26_capture_after_stop_witness :
  let r := Streaming.Responds 200 (Streaming.Body (Some (js "token"))) in
  let es := [Streaming.Close] in
  let s := Streaming.initialSession in
  let s1 := fst (Streaming.startListening r false s) in
  let s2 := Streaming.stopListening (Streaming.onopen s1) in
  let s3 := Streaming.userMediaSettled Streaming.CaptureReady s2 in
  let s4 := Streaming.handleAll es s3 in
  snd (Streaming.startListening r false s) = Streaming.AwaitsUserMedia
  /\ Streaming.socketRef s2 = false
  /\ Streaming.socketsClosed s2 = S (Streaming.socketsClosed s)
  /\ Streaming.micStreamRef s4 = true
  /\ Streaming.capturesOpened s4 = S (Streaming.capturesOpened s)
  /\ Streaming.capturesStopped s4 = Streaming.capturesStopped s2
  /\ Streaming.stopListening s4 = s4.
Proof.
  apply (X26_capture_after_stop (Streaming.Responds 200 (Streaming.Body (Some (js "token"))))
           [Streaming.Close] Streaming.initialSession); reflexivity.
Defined.

(** X27.  The microphone is refused.  [startListening] has opened the
    socket before it asks for the microphone; when the request is
    refused, or the audio graph cannot be set up, the [catch] block sets
    the error and [isListening] but does not close the socket and leaves
    it in [socketRef].  [stopListening] then does nothing, as the hook is
    not listening.  When the socket opens afterwards the hook is listening
    again, with the error still set and no capture in [micStreamRef]. *)
Theorem X27_capture_refused r c s :
  Streaming.isListening (Streaming.hook s) = false ->
  Streaming.usable r = true ->
  c <> Streaming.CaptureReady ->
  let s1 := fst (Streaming.startListening r false s) in
  let s2 := Streaming.userMediaSettled c s1 in
  let s3 := Streaming.onopen s2 in
  Streaming.error (Streaming.hook s2) = Some (js "Failed to start transcription.")
  /\ Streaming.isListening (Streaming.hook s2) = false
  /\ Streaming.socketRef s2 = true
  /\ Streaming.socketsClosed s2 = Streaming.socketsClosed s
  /\ Streaming.micStreamRef s2 = Streaming.micStreamRef s
  /\ Streaming.stopListening s2 = s2
  /\ Streaming.isListening (Streaming.hook s3) = true
  /\ Streaming.error (Streaming.hook s3)
     = Some (js "Failed to start transcription.")
  /\ Streaming.micStreamRef s3 = Streaming.micStreamRef s.
Proof.
  intros L U Hc. rewrite (Streaming_start_usable r s L U). cbn [fst].
  destruct c; done.
Qed.

Lemma X27_capture_refused_witness :
  let r := Streaming.Responds 200 (Streaming.Body (Some (js "token"))) in
  let s := Streaming.initialSession in
  let s1 := fst (Streaming.startListening r false s) in
  let s2 := Streaming.userMediaSettled Streaming.CaptureDenied s1 in
  let s3 := Streaming.onopen s2 in
  Streaming.error (Streaming.hook s2) = Some (js "Failed to start transcription.")
  /\ Streaming.isListening (Streaming.hook s2) = false
  /\ Streaming.socketRef s2 = true
  /\ Streaming.socketsClosed s2 = Streaming.socketsClosed s
  /\ Streaming.micStreamRef s2 = Streaming.micStreamRef s
  /\ Streaming.stopListening s2 = s2
  /\ Streaming.isListening (Streaming.hook s3) = true
  /\ Streaming.error (Streaming.hook s3)
     = Some (js "Failed to start transcription.")
  /\ Streaming.micStreamRef s3 = Streaming.micStreamRef s.
Proof.
  apply (X27_capture_refused (Streaming.Responds 200 (Streaming.Body (Some (js "token"))))
           Streaming.CaptureDenied Streaming.initialSession);
    [reflexivity | reflexivity | discriminate].
Defined.

(** X28.  A session of the streaming hook that starts and stops in the
    usual order releases what it opened.  The token comes, the socket is
    created, the microphone is granted and the socket opens, in either
    order of the last two; then [stopListening] stops the capture and
    closes the socket, once each, empties both refs and ends listening.
    Stopping again changes nothing.  What the refs held before the
    session is overwritten, not released. *)
Theorem X28_streaming_session_released r s :
  Streaming.isListening (Streaming.hook s) = false ->
  Streaming.usable r = true ->
  let s1 := fst (Streaming.startListening r false s) in
  let s2 := Streaming.onopen
              (Streaming.userMediaSettled Streaming.CaptureReady s1) in
  let s3 := Streaming.stopListening s2 in
  Streaming.userMediaSettled Streaming.CaptureReady (Streaming.onopen s1) = s2
  /\ Streaming.isListening (Streaming.hook s2) = true
  /\ Streaming.isListening (Streaming.hook s3) = false
  /\ Streaming.socketRef s3 = false
  /\ Streaming.micStreamRef s3 = false
  /\ Streaming.socketsOpened s3 = S (Streaming.socketsOpened s)
  /\ Streaming.socketsClosed s3 = S (Streaming.socketsClosed s)
  /\ Streaming.capturesOpened s3 = S (Streaming.capturesOpened s)
  /\ Streaming.capturesStopped s3 = S (Streaming.capturesStopped s)
  /\ Streaming.stopListening s3 = s3.
Proof.
  intros L U. by rewrite (Streaming_start_usable r s L U).
Qed.

Lemma X28_streaming_session_released_witness :
  let r := Streaming.Responds 200 (Streaming.Body (Some (js "token"))) in
  let s := Streaming.initialSession in
  let s1 := fst (Streaming.startListening r false s) in
  let s2 := Streaming.onopen
              (Streaming.userMediaSettled Streaming.CaptureReady s1) in
  let s3 := Streaming.stopListening s2 in
  Streaming.userMediaSettled Streaming.CaptureReady (Streaming.onopen s1) = s2
  /\ Streaming.isListening (Streaming.hook s2) = true
  /\ Streaming.isListening (Streaming.hook s3) = false
  /\ Streaming.socketRef s3 = false
  /\ Streaming.micStreamRef s3 = false
  /\ Streaming.socketsOpened s3 = S (Streaming.socketsOpened s)
  /\ Streaming.socketsClosed s3 = S (Streaming.socketsClosed s)
  /\ Streaming.capturesOpened s3 = S (Streaming.capturesOpened s)
  /\ Streaming.capturesStopped s3 = S (Streaming.capturesStopped s)
  /\ Streaming.stopListening s3 = s3.
Proof.
  apply (X28_streaming_session_released
           (Streaming.Responds 200 (Streaming.Body (Some (js "token"))))
           Streaming.initialSession); reflexivity.
Defined.

(** ** The PCM conversion keeps the order of the samples *)

Lemma truncate_mono q1 q2 :
  (q1 <= q2)%Q -> (Streaming.truncate q1 <= Streaming.truncate q2)%Z.
Proof.
  destruct q1 as [n1 d1], q2 as [n2 d2]. unfold Qle, Streaming.truncate.
  simpl. intros H.
  rewrite <- (Z.quot_mul_cancel_r n1 (Zpos d1) (Zpos d2)) by done.
  rewrite <- (Z.quot_mul_cancel_r n2 (Zpos d2) (Zpos d1)) by done.
  rewrite (Z.mul_comm (Zpos d2) (Zpos d1)).
  apply Z.quot_le_mono; [lia|done].
Qed.

Lemma Qle_bool_false x y : Qle_bool x y = false -> (y < x)%Q.
Proof.
  intros H. apply Qnot_le_lt. intros L. apply Qle_bool_iff in L. congruence.
Qed.

Lemma clampQ_mono q1 q2 :
  (q1 <= q2)%Q -> (Streaming.clampQ q1 <= Streaming.clampQ q2)%Q.
Proof.
  intros H. unfold Streaming.clampQ.
  destruct (Qle_bool q1 1) eqn:A1.
  - apply Qle_bool_iff in A1. destruct (Qle_bool (-1) q1) eqn:B1.
    + apply Qle_bool_iff in B1. destruct (Qle_bool q2 1) eqn:A2; [|done].
      destruct (Qle_bool (-1) q2) eqn:B2; [done|].
      apply Qle_bool_false in B2. exfalso. apply (Qlt_irrefl (-1)).
      eapply Qle_lt_trans; [exact B1|]. eapply Qle_lt_trans; [exact H|done].
    + destruct (Qle_bool q2 1) eqn:A2; [|done].
      destruct (Qle_bool (-1) q2) eqn:B2; [|done].
      by apply Qle_bool_iff in B2.
  - apply Qle_bool_false in A1. destruct (Qle_bool q2 1) eqn:A2; [|done].
    apply Qle_bool_iff in A2. exfalso. apply (Qlt_irrefl 1).
    eapply Qlt_le_trans; [exact A1|]. eapply Qle_trans; [exact H|done].
Qed.

(** X29.  The PCM conversion keeps the order of the samples: of two
    finite samples the larger one never gets the smaller 16-bit value.
    The two scale factors, 0x8000 below zero and 0x7FFF from zero on, the
    truncation and the wrap-around of the typed array never turn a louder
    sample into a quieter one or change its sign. *)
Theorem X29_pcm_monotone q1 q2 :
  (q1 <= q2)%Q ->
  (Streaming.pcm16 (Streaming.Finite q1)
   <= Streaming.pcm16 (Streaming.Finite q2))%Z.
Proof.
  intros H. apply clampQ_mono in H.
  destruct (pcm16_Finite q1) as [-> _], (pcm16_Finite q2) as [-> _].
  destruct (clampQ_bounds q1) as [L1 U1], (clampQ_bounds q2) as [L2 U2].
  set (c1 := Streaming.clampQ q1) in *. set (c2 := Streaming.clampQ q2) in *.
  destruct (Qle_bool 0 c1) eqn:A1, (Qle_bool 0 c2) eqn:A2;
    try apply Qle_bool_iff in A1; try apply Qle_bool_iff in A2;
    try apply Qle_bool_false in A1; try apply Qle_bool_false in A2.
  - apply truncate_mono, Qmult_le_compat_r; done.
  - exfalso. apply (Qlt_irrefl 0). eapply Qle_lt_trans; [exact A1|].
    eapply Qle_lt_trans; [exact H|done].
  - pose proof (truncate_scale_neg c1 32768 ltac:(lia) L1 (Qlt_le_weak _ _ A1)).
    pose proof (truncate_scale_nonneg c2 32767 ltac:(lia) A2 U2). lia.
  - apply truncate_mono, Qmult_le_compat_r; done.
Qed.

Lemma X29_pcm_monotone_witness :
  (Streaming.pcm16 (Streaming.Finite (-1 # 3))
   <= Streaming.pcm16 (Streaming.Finite (1 # 2)))%Z.
Proof.
  apply (X29_pcm_monotone (-1 # 3) (1 # 2)). vm_compute. discriminate.
Defined.

(** ** A segment that arrives while no note is current *)

(** X30.  A final segment that arrives while no note is current is
    neither appended nor marked as processed; it stays in
    [latestFinalSegment].  When the user then selects a note, the effect
    runs again and appends that segment to the selected note, after one
    space when the note has content, however long ago it was spoken. *)
Theorem X30_pending_segment_goes_to_selected_note now now' seg note s :
  Notes.currentNote s = None ->
  seg <> [] ->
  seg <> Notes.lastProcessedSegment s ->
  let s1 := Notes.deliver now seg s in
  let s2 := Notes.selectNote now' note s1 in
  Notes.notes s1 = Notes.notes s
  /\ Notes.lastProcessedSegment s1 = Notes.lastProcessedSegment s
  /\ Notes.contentsOf (Notes.id note) (Notes.notes s2)
     = map (fun old => (if truthy old then old ++ space else []) ++ seg)
           (Notes.contentsOf (Notes.id note) (Notes.notes s))
  /\ Notes.lastProcessedSegment s2 = seg.
Proof.
  intros Hc Hs Hl s1 s2.
  assert (E1 : s1 = Notes.setLatestFinalSegment seg s).
  { unfold s1. rewrite Notes_deliver_once.
    by apply Notes_effect_no_current. }
  split; [by rewrite E1|]. split; [by rewrite E1|].
  unfold s2, Notes.selectNote. rewrite E1.
  destruct (Notes_effect_appends now'
              (Notes.setCurrentNote (Some note)
                 (Notes.setLatestFinalSegment seg s)) note)
    as (A1 & A2 & _); try done.
Qed.

Lemma X30_pending_segment_goes_to_selected_note_witness :
  let now := js "2024-01-01T10:00:05.000Z" in
  let seg := js "spoken earlier" in
  let note := Examples.sampleNote in
  let s := Notes.mkState [] [] None [Examples.sampleNote] in
  let s1 := Notes.deliver now seg s in
  let s2 := Notes.selectNote now note s1 in
  Notes.notes s1 = Notes.notes s
  /\ Notes.lastProcessedSegment s1 = Notes.lastProcessedSegment s
  /\ Notes.contentsOf (Notes.id note) (Notes.notes s2)
     = [js "first words spoken earlier"]
  /\ Notes.lastProcessedSegment s2 = seg.
Proof.
  apply (X30_pending_segment_goes_to_selected_note
           (js "2024-01-01T10:00:05.000Z") (js "2024-01-01T10:00:05.000Z")
           (js "spoken earlier") Examples.sampleNote
           (Notes.mkState [] [] None [Examples.sampleNote]));
    [reflexivity | vm_compute; discriminate | vm_compute; discriminate].
Defined.
